(** * py-c3d: the C3D binary codec of [c3d.py]

    A shallow embedding of the header record, the chained group/parameter
    directory, the metadata manager and the per-frame point encoding and
    decoding of [c3d.py], together with the properties of the codec that
    are proved about it.

    Conventions of the embedding.
    - Python integers are [Z]; fixed-width fields are written with their
      wrap-around ([mod 2^w]) where [struct] or numpy wraps.
    - Byte strings are [list byte]; text (names, descriptions) is [string].
      [str.upper], [str.strip], [str.encode('utf-8')] and
      [bytes.decode('utf-8')] are library functions of Python: they are the
      fields of the class [Text], and every theorem holds for every
      instance of it.
    - Python and numpy floating-point numbers are values of [float]: a
      rational for a finite number, the two infinities and NaN.  Arithmetic
      on finite numbers is exact: the rounding of its results and their
      overflow to infinity are not modelled, nor is the sign of zero.  The
      conversion to binary32 on writing rounds to nearest.
    - Exceptions are values of [exn]; code that can raise returns a
      [result].
    - Objects that are shared by reference (the [Group] objects held in
      [Manager.groups] under two keys) live in a heap of the manager and
      the dictionary holds their addresses. *)

From Stdlib Require Import ZArith QArith Qabs Qround Qpower Lia String Ascii List.
From Stdlib Require Import DecimalString.
From Stdlib.Strings Require Import Byte.
From stdpp Require Import base gmap strings list.

Local Open Scope Z_scope.

(** ** Exceptions and results *)

(** Keys of [Manager.groups]: a numeric group id or a group name. *)
Inductive key :=
| KInt (i : Z)
| KStr (s : string).

#[global] Instance key_eq_dec : EqDecision key.
Proof. solve_decision. Defined.

#[global] Instance key_countable : Countable key.
Proof.
  refine (inj_countable'
            (fun k => match k with KInt i => inl i | KStr s => inr s end)
            (fun x => match x with inl i => KInt i | inr s => KStr s end) _).
  intros []; reflexivity.
Defined.

(** Floating-point numbers. *)
Inductive float :=
| Fin (q : Q)
| Inf (neg : bool)
| NaN.

(** The failed [assert] statements of the module, with the values that
    their messages are formatted with. *)
Inductive assertion :=
| BadMagic (magic : Z)
| InconsistentPointCount (hdr par : Z)
| InconsistentScaleFactor (hdr par : float)
| InconsistentFrameRate (hdr par : float)
| InconsistentAnalogCount (hdr apf : Z) (analog_fps point_fps : float)
| InconsistentDataBlock (hdr par : Z)
| NotAtBlock (tell expected : Z)
| NoDimensions (name : string).

Inductive exn :=
| AssertionError (a : assertion)
| KeyError (k : key)
| ValueError
| TypeError
| AttributeError
| StructError
| UnicodeDecodeError
| ZeroDivisionError
| OverflowError
| IndexError
| OSError.

Inductive result (A : Type) :=
| Ok (a : A)
| Raise (e : exn).
Arguments Ok {A} a.
Arguments Raise {A} e.

Definition bind {A B} (r : result A) (k : A -> result B) : result B :=
  match r with
  | Ok a => k a
  | Raise e => Raise e
  end.

Notation "x <- r ;; k" := (bind r (fun x => k))
  (at level 100, r at next level, right associativity).

Definition assert (b : bool) (a : assertion) : result unit :=
  if b then Ok tt else Raise (AssertionError a).

(** ** Floating-point operations *)

Module Float.

Definition of_Z (z : Z) : float := Fin (inject_Z z).

(** [abs(x)] *)
Definition abs (x : float) : float :=
  match x with
  | Fin q => Fin (Qabs q)
  | Inf _ => Inf false
  | NaN => NaN
  end.

Definition Qltb (a b : Q) : bool :=
  if Qlt_le_dec a b then true else false.

(** [x < y]; false when either side is NaN. *)
Definition ltb (x y : float) : bool :=
  match x, y with
  | Fin a, Fin b => Qltb a b
  | Fin _, Inf s => negb s
  | Inf s, Fin _ => s
  | Inf s, Inf t => s && negb t
  | _, _ => false
  end.

(** [x == y]; false when either side is NaN. *)
Definition eqb (x y : float) : bool :=
  match x, y with
  | Fin a, Fin b => Qeq_bool a b
  | Inf s, Inf t => Bool.eqb s t
  | _, _ => false
  end.

Definition is_zero (q : Q) : bool := Qeq_bool q 0.

(** [x * y] *)
Definition mul (x y : float) : float :=
  match x, y with
  | NaN, _ | _, NaN => NaN
  | Fin a, Fin b => Fin (Qred (a * b))
  | Fin a, Inf s | Inf s, Fin a =>
      if is_zero a then NaN else Inf (xorb s (Qltb a 0))
  | Inf s, Inf t => Inf (xorb s t)
  end.

(** Python's [x / y] on floats: a zero divisor raises. *)
Definition div (x y : float) : result float :=
  match x, y with
  | NaN, Fin b => if is_zero b then Raise ZeroDivisionError else Ok NaN
  | NaN, _ | _, NaN => Ok NaN
  | Fin a, Fin b =>
      if is_zero b then Raise ZeroDivisionError else Ok (Fin (Qred (a / b)))
  | Fin _, Inf _ => Ok (Fin 0)
  | Inf s, Fin b =>
      if is_zero b then Raise ZeroDivisionError else Ok (Inf (xorb s (Qltb b 0)))
  | Inf _, Inf _ => Ok NaN
  end.

(** numpy's [x / y] on arrays of floats: a zero divisor gives an
    infinity or NaN and does not raise. *)
Definition np_div (x y : float) : float :=
  match x, y with
  | NaN, _ | _, NaN => NaN
  | Fin a, Fin b =>
      if is_zero b then (if is_zero a then NaN else Inf (Qltb a 0))
      else Fin (Qred (a / b))
  | Fin _, Inf _ => Fin 0
  | Inf s, Fin b => Inf (xorb s (Qltb b 0))
  | Inf _, Inf _ => NaN
  end.

(** The same number: equal rationals, or the same special value.  This is
    identity of values, not Python's [==] (which is [eqb]). *)
Definition same (x y : float) : Prop :=
  match x, y with
  | Fin a, Fin b => Qeq a b
  | Inf s, Inf t => s = t
  | NaN, NaN => True
  | _, _ => False
  end.

(** Rounding toward zero, as a C cast to an integer type does. *)
Definition Qtrunc (q : Q) : Z :=
  if Qltb q 0 then Qceiling q else Qfloor q.

(** The low [w] bits of the C cast of a float to an unsigned integer type
    of [w] bits, as numpy compiles it on x86-64: the number is converted
    to a signed 32-bit integer, rounding toward zero, and the low bits of
    that integer are kept; a number outside the range of a signed 32-bit
    integer converts to [-2^31], whose low bits are 0. *)
Definition cast_low (w : Z) (q : Q) : Z :=
  let t := Qtrunc q in
  if (- 2 ^ 31 <=? t) && (t <? 2 ^ 31) then t mod 2 ^ w else 0.

(** [x.astype(np.uint16)].  For a number outside [0, 65535] the C cast
    that numpy performs is platform-defined; the embedding takes the
    result on x86-64, and 0 for an infinity and for NaN.  The result is
    a 16-bit unsigned integer in any case. *)
Definition astype_uint16 (x : float) : Z :=
  match x with
  | Fin q => cast_low 16 q
  | _ => 0
  end.

(** [x.astype(np.uint8)], with the same convention. *)
Definition astype_uint8 (x : float) : Z :=
  match x with
  | Fin q => cast_low 8 q
  | _ => 0
  end.

End Float.

(** ** Bytes and [struct.unpack] *)

Definition u8 (b : byte) : Z := Z.of_N (Byte.to_N b).

(** Two's complement reading of a [w]-bit unsigned value. *)
Definition signed (w : Z) (u : Z) : Z :=
  if u <? 2 ^ (w - 1) then u else u - 2 ^ w.

(** The number of set bits of [c] among the [len] positions from [lo]. *)
Definition set_bits (c lo len : Z) : Z :=
  Z.of_nat (length (List.filter (Z.testbit c) (seqZ lo len))).

(** Little-endian unsigned value of a byte string. *)
Fixpoint le_uint (bs : list byte) : Z :=
  match bs with
  | [] => 0
  | b :: bs' => u8 b + 256 * le_uint bs'
  end.

(** IEEE 754 binary32 value of a 32-bit pattern. *)
Definition float32_of_bits (w : Z) : float :=
  let s := Z.testbit w 31 in
  let e := Z.land (Z.shiftr w 23) 255 in
  let m := Z.land w (2 ^ 23 - 1) in
  if e =? 255 then (if m =? 0 then Inf s else NaN)
  else
    let mag :=
      if e =? 0 then (inject_Z m * Qpower 2 (-149))%Q
      else (inject_Z (2 ^ 23 + m) * Qpower 2 (e - 150))%Q in
    Fin (Qred (if s then Qopp mag else mag)).

(** Rounding of a rational that is not negative to the nearest integer,
    ties to even. *)
Definition Qround_even (q : Q) : Z :=
  let f := Qfloor q in
  match Qcompare (q - inject_Z f) (1 # 2) with
  | Lt => f
  | Gt => f + 1
  | Eq => if Z.even f then f else f + 1
  end.

(** The binary32 pattern of a number, rounded to nearest; a finite number
    that is too large becomes an infinity. *)
Definition float32_bits (x : float) : Z :=
  match x with
  | NaN => 0x7fc00000
  | Inf s => (if s then 2 ^ 31 else 0) + 0x7f800000
  | Fin q =>
      let a := Qabs q in
      if Float.is_zero a then 0
      else
        let sign := if Float.Qltb q 0 then 2 ^ 31 else 0 in
        let e0 := Z.log2 (Qnum a) - Z.log2 (Zpos (Qden a)) in
        let e := if Float.Qltb a (Qpower 2 e0) then e0 - 1 else e0 in
        let e := Z.max e (-126) in
        let m := Qround_even (a / Qpower 2 (e - 23)) in
        let '(m, e) := if 2 ^ 24 <=? m then (2 ^ 23, e + 1) else (m, e) in
        if 127 <? e then sign + 0x7f800000
        else if m <? 2 ^ 23 then sign + m
        else sign + (e + 127) * 2 ^ 23 + (m - 2 ^ 23)
  end.

Definition byte_of_Z (z : Z) : byte :=
  default x00 (Byte.of_N (Z.to_N (z mod 256))).

(** The [n] little-endian bytes of an unsigned value. *)
Fixpoint le_bytes (n : nat) (z : Z) : list byte :=
  match n with
  | O => []
  | S n' => byte_of_Z z :: le_bytes n' (z / 256)
  end.

Module Struct.

(** [struct.unpack(fmt, bs)[0]] for the one-field formats of the module;
    a buffer of the wrong size raises [struct.error]. *)
Definition unpack_uint (n : nat) (bs : list byte) : result Z :=
  if decide (length bs = n) then Ok (le_uint bs) else Raise StructError.

Definition unpack_int (n : nat) (bs : list byte) : result Z :=
  u <- unpack_uint n bs;; Ok (signed (8 * Z.of_nat n) u).

Definition unpack_b := unpack_int 1.
Definition unpack_B := unpack_uint 1.
Definition unpack_h := unpack_int 2.
Definition unpack_H := unpack_uint 2.
Definition unpack_i := unpack_int 4.

Definition unpack_f (bs : list byte) : result float :=
  u <- unpack_uint 4 bs;; Ok (float32_of_bits u).

(** [struct.pack] of one unsigned field of [n] bytes; a value out of
    range raises [struct.error]. *)
Definition pack_uint (n : nat) (v : Z) : result (list byte) :=
  if (0 <=? v) && (v <? 2 ^ (8 * Z.of_nat n)) then Ok (le_bytes n v)
  else Raise StructError.

Definition pack_B := pack_uint 1.
Definition pack_H := pack_uint 2.
Definition pack_I := pack_uint 4.

(** [struct.pack] of one signed field of [n] bytes, in two's complement. *)
Definition pack_int (n : nat) (v : Z) : result (list byte) :=
  let half := 2 ^ (8 * Z.of_nat n - 1) in
  if (- half <=? v) && (v <? half) then Ok (le_bytes n (v mod 2 ^ (8 * Z.of_nat n)))
  else Raise StructError.

Definition pack_b := pack_int 1.
Definition pack_h := pack_int 2.

(** [struct.pack('bb', a, b)] *)
Definition pack_bb (a b : Z) : result (list byte) :=
  x <- pack_b a;; y <- pack_b b;; Ok (x ++ y).

(** [struct.pack('B' * len(vs), *vs)] *)
Fixpoint pack_Bs (vs : list Z) : result (list byte) :=
  match vs with
  | [] => Ok []
  | v :: vs => x <- pack_B v;; y <- pack_Bs vs;; Ok (x ++ y)
  end.

(** [struct.pack('<f', x)]; a finite number too large for binary32
    raises [OverflowError]. *)
Definition pack_f (x : float) : result (list byte) :=
  let w := float32_bits x in
  match x with
  | Fin _ =>
      if Z.land w 0x7fffffff =? 0x7f800000 then Raise OverflowError
      else Ok (le_bytes 4 w)
  | _ => Ok (le_bytes 4 w)
  end.

End Struct.

(** ** File handles

    A handle is a byte string with a position.  [log] records the calls
    made on the handle, most recent first. *)

Inductive io_event :=
| EvSeek (pos : Z)
| EvRead (count : Z)
| EvWrite (data : list byte).

Record handle := mkHandle {
  contents : list byte;
  position : nat;
  log : list io_event
}.

Module Handle.

Definition open (data : list byte) : handle := mkHandle data 0 [].

(** [handle.seek(pos)]; a negative position raises. *)
Definition seek (pos : Z) (h : handle) : result handle :=
  if pos <? 0 then Raise OSError
  else Ok (mkHandle (contents h) (Z.to_nat pos) (EvSeek pos :: log h)).

(** [handle.read(n)]: at most [n] bytes, fewer at the end of the file;
    everything up to the end of the file when [n] is negative. *)
Definition read (n : Z) (h : handle) : list byte * handle :=
  let rest := drop (position h) (contents h) in
  let bs := if n <? 0 then rest else take (Z.to_nat n) rest in
  (bs, mkHandle (contents h) (position h + length bs) (EvRead n :: log h)).

Definition tell (h : handle) : Z := Z.of_nat (position h).

(** [handle.write(bs)]: overwrite at the position, extending the file
    (with zero bytes over a gap) as needed. *)
Definition write (bs : list byte) (h : handle) : handle :=
  let before := take (position h) (contents h) in
  let gap := replicate (position h - length (contents h)) x00 in
  let after := drop (position h + length bs) (contents h) in
  mkHandle (before ++ gap ++ bs ++ after) (position h + length bs)
           (EvWrite bs :: log h).

(** A sequence of [handle.write] calls, each of them writing the bytes
    that a [struct.pack] call returns: the sequence stops at the first
    call that raises, and what was written before stays written. *)
Definition writer : Type := handle -> result unit * handle.

Definition emit (r : result (list byte)) : writer :=
  fun h =>
    match r with
    | Ok bs => (Ok tt, write bs h)
    | Raise e => (Raise e, h)
    end.

Definition skip : writer := fun h => (Ok tt, h).

Definition andthen (a b : writer) : writer :=
  fun h =>
    match a h with
    | (Ok _, h') => b h'
    | (Raise e, h') => (Raise e, h')
    end.

End Handle.

(** ** [class Header] *)

Module Header.

Record t := mk {
  label_block : Z;
  parameter_block : Z;
  data_block : Z;
  point_count : Z;
  analog_count : Z;
  first_frame : Z;
  last_frame : Z;
  sample_per_frame : Z;
  frame_rate : float;
  max_gap : Z;
  scale_factor : float;
  long_event_labels : Z
}.

(** [Header.__init__] without a handle. *)
Definition default : t :=
  {| label_block := 0; parameter_block := 2; data_block := 3;
     point_count := 50; analog_count := 0;
     first_frame := 1; last_frame := 1; sample_per_frame := 0;
     frame_rate := Fin 60; max_gap := 0; scale_factor := Fin (-1);
     long_event_labels := 0 |}.

(** The bytes of a field of [BINARY_FORMAT = '<BBHHHHHfHHf270sHH214s']. *)
Definition field (off len : nat) (buf : list byte) : list byte :=
  take len (drop off buf).

(** [Header.read]: seek to 0, read 512 bytes, unpack them, then check the
    magic byte.  [struct.unpack] raises on a short read. *)
Definition read (h : handle) : result t * handle :=
  match Handle.seek 0 h with
  | Raise e => (Raise e, h)
  | Ok h0 =>
      let '(buf, h1) := Handle.read 512 h0 in
      (if decide (length buf = 512%nat) then
         let hd :=
           {| parameter_block := le_uint (field 0 1 buf);
              point_count := le_uint (field 2 2 buf);
              analog_count := le_uint (field 4 2 buf);
              first_frame := le_uint (field 6 2 buf);
              last_frame := le_uint (field 8 2 buf);
              max_gap := le_uint (field 10 2 buf);
              scale_factor := float32_of_bits (le_uint (field 12 4 buf));
              data_block := le_uint (field 16 2 buf);
              sample_per_frame := le_uint (field 18 2 buf);
              frame_rate := float32_of_bits (le_uint (field 20 4 buf));
              long_event_labels := le_uint (field 294 2 buf);
              label_block := le_uint (field 296 2 buf) |} in
         let magic := le_uint (field 1 1 buf) in
         _ <- assert (magic =? 80) (BadMagic magic);;
         Ok hd
       else Raise StructError,
       h1)
  end.

(** [Header(handle)]: [if handle: self.read(handle)]. *)
Definition init (h : handle) : result t * handle := read h.

(** [struct.pack(self.BINARY_FORMAT, ...)] of [write]. *)
Definition pack (hd : t) : result (list byte) :=
  b0 <- Struct.pack_B (parameter_block hd);;
  b1 <- Struct.pack_B 0x50;;
  b2 <- Struct.pack_H (point_count hd);;
  b4 <- Struct.pack_H (analog_count hd);;
  b6 <- Struct.pack_H (first_frame hd);;
  b8 <- Struct.pack_H (last_frame hd);;
  b10 <- Struct.pack_H (max_gap hd);;
  b12 <- Struct.pack_f (scale_factor hd);;
  b16 <- Struct.pack_H (data_block hd);;
  b18 <- Struct.pack_H (sample_per_frame hd);;
  b20 <- Struct.pack_f (frame_rate hd);;
  b294 <- Struct.pack_H (if long_event_labels hd =? 0 then 0x0 else 0x3039);;
  b296 <- Struct.pack_H (label_block hd);;
  Ok (b0 ++ b1 ++ b2 ++ b4 ++ b6 ++ b8 ++ b10 ++ b12 ++ b16 ++ b18 ++ b20 ++
      replicate 270 x00 ++ b294 ++ b296 ++ replicate 214 x00).

(** [Header.write(handle)] *)
Definition write (hd : t) (h : handle) : result handle :=
  h <- Handle.seek 0 h;;
  bs <- pack hd;;
  Ok (Handle.write bs h).

End Header.

(** ** Text

    The string operations of Python that the module calls. *)

Class Text := {
  (** [s.upper()] *)
  str_upper : string -> string;
  (** [s.strip()] *)
  str_strip : string -> string;
  (** [s.encode('utf-8')] *)
  utf8_encode : string -> list byte;
  (** [b.decode('utf-8')]; [None] when it raises [UnicodeDecodeError] *)
  utf8_decode : list byte -> option string
}.

Definition decode `{Text} (bs : list byte) : result string :=
  match utf8_decode bs with
  | Some s => Ok s
  | None => Raise UnicodeDecodeError
  end.

(** A byte string used as text, as Python 2 allows. *)
Definition str_of_bytes (bs : list byte) : string := string_of_list_byte bs.

(** [io.BytesIO.read(n)] on the unread part of a buffer: the bytes read
    and the bytes left. *)
Definition buf_read (n : Z) (buf : list byte) : list byte * list byte :=
  (take (Z.to_nat n) buf, drop (Z.to_nat n) buf).

(** [bs[k:]] *)
Definition slice_from (k : Z) (bs : list byte) : list byte :=
  if k <? 0 then drop (Z.to_nat (Z.of_nat (length bs) + k)) bs
  else drop (Z.to_nat k) bs.

(** The index [i] of a slice of a sequence of length [len], as Python
    clamps it. *)
Definition slice_index (len i : Z) : Z :=
  if i <? 0 then Z.max 0 (len + i) else Z.min i len.

(** [bs[a:b]] *)
Definition slice (a b : Z) (bs : list byte) : list byte :=
  let len := Z.of_nat (length bs) in
  let a := slice_index len a in
  let b := slice_index len b in
  take (Z.to_nat (b - a)) (drop (Z.to_nat a) bs).

(** ** [class Param] *)

Module Param.

Record t := mk {
  name : string;
  desc : string;
  bytes_per_element : Z;
  dimensions : list Z;
  bytes : list byte
}.

(** Keyword arguments of a call of [Param(name, **kwargs)].  [kw_other]
    lists the keywords of the call that [Param.__init__] does not
    declare. *)
Record kwargs := mkKw {
  kw_desc : option string;
  kw_bytes_per_element : option Z;
  kw_dimensions : option (list Z);
  kw_bytes : option (list byte);
  kw_handle : option (list byte);
  kw_other : list string
}.

(** [num_elements] *)
Definition num_elements (p : t) : Z :=
  fold_left Z.mul (dimensions p) 1.

(** [total_bytes] *)
Definition total_bytes (p : t) : Z :=
  num_elements p * Z.abs (bytes_per_element p).

Section WithText.
Context `{Text}.

(** [binary_size] *)
Definition binary_size (p : t) : Z :=
  1 + 2 + 1 + Z.of_nat (length (utf8_encode (name p))) +
  1 + 1 + Z.of_nat (length (dimensions p)) +
  total_bytes p +
  1 + Z.of_nat (length (utf8_encode (desc p))).

(** The [dims] dimension bytes of [read]. *)
Fixpoint read_dims (dims : nat) (buf : list byte)
  : result (list Z * list byte) :=
  match dims with
  | O => Ok ([], buf)
  | S n =>
      let '(b, buf) := buf_read 1 buf in
      d <- Struct.unpack_B b;;
      r <- read_dims n buf;;
      Ok (d :: fst r, snd r)
  end.

(** [read(handle)]: the parameter and the unread rest of the buffer. *)
Definition read (p : t) (buf : list byte) : result (t * list byte) :=
  let '(b, buf) := buf_read 1 buf in
  bpe <- Struct.unpack_b b;;
  let '(b, buf) := buf_read 1 buf in
  dims <- Struct.unpack_B b;;
  r <- read_dims (Z.to_nat dims) buf;;
  let '(dimensions, buf) := r in
  let p := mk (name p) (desc p) bpe dimensions [] in
  let '(data, buf) :=
    if total_bytes p =? 0 then ([], buf) else buf_read (total_bytes p) buf in
  let '(b, buf) := buf_read 1 buf in
  size <- Struct.unpack_B b;;
  let '(d, buf) := if size =? 0 then ([], buf) else buf_read size buf in
  desc <- (if size =? 0 then Ok EmptyString
           else match d with
                | [] => Ok EmptyString
                | _ => decode d
                end);;
  Ok (mk (name p) desc bpe dimensions data, buf).

(** [Param(name, **kwargs)].  A keyword that [__init__] does not
    declare raises [TypeError] before the body runs. *)
Definition init (name : string) (kw : kwargs) : result (t * option (list byte)) :=
  match kw_other kw with
  | _ :: _ => Raise TypeError
  | [] =>
      let p := mk name
                  (default EmptyString (kw_desc kw))
                  (default 1 (kw_bytes_per_element kw))
                  (default [] (kw_dimensions kw))
                  (default [] (kw_bytes kw)) in
      match kw_handle kw with
      | None => Ok (p, None)
      | Some buf =>
          r <- read p buf;;
          Ok (fst r, Some (snd r))
      end
  end.

(** [_as(fmt)] for the formats of the value properties. *)
Definition uint16_value (p : t) : result Z := Struct.unpack_H (bytes p).
Definition int32_value (p : t) : result Z := Struct.unpack_i (bytes p).
Definition float_value (p : t) : result float := Struct.unpack_f (bytes p).
Definition string_value (p : t) : result string := decode (bytes p).

(** [_as_array(fmt)] for a format of [size] bytes: the number of
    elements of the array.  It raises when the parameter has no
    dimensions, when [bytes] is not a whole number of elements, and
    when the elements do not fill the dimensions. *)
Definition as_array (size : Z) (p : t) : result Z :=
  _ <- assert (negb (Nat.eqb (length (dimensions p)) 0)) (NoDimensions (name p));;
  let len := Z.of_nat (length (bytes p)) in
  if negb (len mod size =? 0) then Raise ValueError
  else if negb (len / size =? num_elements p) then Raise ValueError
  else Ok (len / size).

(** [write(group_id, handle)] *)
Definition write (group_id : Z) (p : t) : Handle.writer :=
  let name := utf8_encode (name p) in
  let len_name := Z.of_nat (length name) in
  Handle.andthen (Handle.emit (Struct.pack_bb len_name group_id))
  (Handle.andthen (Handle.emit (Ok name))
  (Handle.andthen (Handle.emit (Struct.pack_h (binary_size p - 2 - len_name)))
  (Handle.andthen (Handle.emit (Struct.pack_b (bytes_per_element p)))
  (Handle.andthen (Handle.emit (Struct.pack_B (Z.of_nat (length (dimensions p)))))
  (Handle.andthen (Handle.emit (Struct.pack_Bs (dimensions p)))
  (Handle.andthen (match bytes p with
                   | [] => Handle.skip
                   | _ => Handle.emit (Ok (bytes p))
                   end)
  (let desc := utf8_encode (desc p) in
   Handle.andthen (Handle.emit (Struct.pack_B (Z.of_nat (length desc))))
                  (Handle.emit (Ok desc))))))))).

(** [bytes_array]: [[self.bytes[i*l:(i+1)*l] for i in range(n)]] *)
Definition bytes_array (p : t) : result (list (list byte)) :=
  match dimensions p with
  | [l; n] => Ok ((fun i => slice (i * l) ((i + 1) * l) (bytes p)) <$> seqZ 0 n)
  | _ => Raise (AssertionError (NoDimensions (name p)))
  end.

(** [string_array]: the same slices, each decoded in turn. *)
Fixpoint decode_all (chunks : list (list byte)) : result (list string) :=
  match chunks with
  | [] => Ok []
  | c :: chunks => s <- decode c;; ss <- decode_all chunks;; Ok (s :: ss)
  end.

Definition string_array (p : t) : result (list string) :=
  chunks <- bytes_array p;; decode_all chunks.

End WithText.

End Param.

(** ** [class Group] *)

Module Group.

(** [name] and [desc] are [None] in a group made by [Group()]. *)
Record t := mk {
  name : option string;
  desc : option string;
  params : gmap string Param.t
}.

(** [Group()] *)
Definition empty : t := mk None None ∅.

(** [get(key, default)]: [None] stands for the default. *)
Definition get (g : t) (k : string) : option Param.t := params g !! k.

Section WithText.
Context `{Text}.

(** [add_param(name, **kwargs)] *)
Definition add_param (g : t) (name : string) (kw : Param.kwargs) : result t :=
  r <- Param.init (str_upper name) kw;;
  Ok (mk (Group.name g) (desc g) (<[str_upper name := fst r]> (params g))).

(** [len(s.encode('utf-8'))] of an attribute that may be [None]. *)
Definition encoded_len (s : option string) : result Z :=
  match s with
  | Some s => Ok (Z.of_nat (length (utf8_encode s)))
  | None => Raise AttributeError
  end.

(** [sum(p.binary_size() for p in self.params.values())] *)
Definition params_size (g : t) : Z :=
  foldr Z.add 0 (Param.binary_size <$> (map_to_list (params g)).*2).

(** [binary_size] *)
Definition binary_size (g : t) : result Z :=
  n <- encoded_len (name g);;
  d <- encoded_len (desc g);;
  Ok (1 + 1 + n + 2 + 1 + d + params_size g).

(** [for param in params: param.write(group_id, handle)] *)
Fixpoint write_params (group_id : Z) (ps : list Param.t) : Handle.writer :=
  match ps with
  | [] => Handle.skip
  | p :: ps => Handle.andthen (Param.write group_id p) (write_params group_id ps)
  end.

(** The bytes of a string that is written to the handle as it is (a [str]
    of Python 2). *)
Definition raw (s : string) : list byte := list_byte_of_string s.

(** [write(group_id, handle)].  [values] is [self.params.values()]: the
    parameters of the group in the order in which the dictionary yields
    them.  A name or a description that is [None] has no [len]. *)
Definition write (group_id : Z) (g : t) (values : list Param.t) : Handle.writer :=
  match name g with
  | None => fun h => (Raise TypeError, h)
  | Some name =>
      Handle.andthen
        (Handle.emit (Struct.pack_bb (Z.of_nat (String.length name)) (- group_id)))
      (Handle.andthen (Handle.emit (Ok (raw name)))
      (match desc g with
       | None => fun h => (Raise TypeError, h)
       | Some desc =>
           Handle.andthen
             (Handle.emit (Struct.pack_h (3 + Z.of_nat (String.length desc))))
           (Handle.andthen
             (Handle.emit (Struct.pack_B (Z.of_nat (String.length desc))))
           (Handle.andthen (Handle.emit (Ok (raw desc)))
                           (write_params group_id values)))
       end))
  end.

End WithText.

End Group.

(** ** [class Manager] *)

Module Manager.

(** [groups] maps each key to the address in [heap] of the [Group]
    object stored under it; one object is usually stored under two keys,
    its numeric id and its name. *)
Record t := mk {
  header : Header.t;
  heap : list Group.t;
  groups : gmap key nat
}.

(** [Manager(header)] *)
Definition init (hd : Header.t) : t := mk hd [] ∅.

(** The object at an address.  The addresses in [groups] are addresses of
    objects, so the second case does not occur. *)
Definition deref (m : t) (r : nat) : result Group.t :=
  match heap m !! r with
  | Some g => Ok g
  | None => Raise AttributeError
  end.

(** A new object. *)
Definition alloc (g : Group.t) (m : t) : nat * t :=
  (length (heap m), mk (header m) (heap m ++ [g]) (groups m)).

(** [self.groups[k] = r] *)
Definition set_key (k : key) (r : nat) (m : t) : t :=
  mk (header m) (heap m) (<[k := r]> (groups m)).

(** Assignment to the attributes of the object at [r]. *)
Definition update (r : nat) (f : Group.t -> Group.t) (m : t) : t :=
  mk (header m) (alter f r (heap m)) (groups m).

(** What [get] returns: a group (by address), a parameter, or the
    default. *)
Inductive found :=
| FGroup (r : nat)
| FParam (p : Param.t)
| FDefault.

(** [s.split(c, 1)] of a string that contains [c]. *)
Fixpoint split_once (c : ascii) (s : string) : option (string * string) :=
  match s with
  | EmptyString => None
  | String a s' =>
      if decide (a = c) then Some (EmptyString, s')
      else match split_once c s' with
           | Some (l, r) => Some (String a l, r)
           | None => None
           end
  end.

Section WithText.
Context `{Text}.

(** [add_group(group_id, name, desc)]: the address of the new group or
    the exception, and the manager after the call. *)
Definition add_group (group_id : Z) (name desc : string) (m : t)
  : result nat * t :=
  if decide (is_Some (groups m !! KInt group_id)) then
    (Raise (KeyError (KInt group_id)), m)
  else
    let name := str_upper name in
    if decide (is_Some (groups m !! KStr name)) then
      (Raise (KeyError (KStr name)), m)
    else
      let '(r, m) := alloc (Group.mk (Some name) (Some desc) ∅) m in
      (Ok r, set_key (KInt group_id) r (set_key (KStr name) r m)).

(** [get(group)] for an integer key. *)
Definition get_int (group : Z) (m : t) : found :=
  match groups m !! KInt group with
  | Some r => FGroup r
  | None => FDefault
  end.

(** [get(group)] for a string key. *)
Definition get (group : string) (m : t) : found :=
  let group := str_upper group in
  let '(group, param) :=
    match split_once "." group with
    | Some (g, p) => (g, Some p)
    | None => (group, None)
    end in
  let '(group, param) :=
    match split_once ":" group with
    | Some (g, p) => (g, Some p)
    | None => (group, param)
    end in
  match groups m !! KStr group with
  | None => FDefault
  | Some r =>
      match param with
      | None => FGroup r
      | Some k =>
          match heap m !! r with
          | Some g =>
              match Group.get g k with
              | Some p => FParam p
              | None => FDefault
              end
          | None => FDefault
          end
      end
  end.

(** [self.get(key).<attr>]: only a [Param] has the value attributes. *)
Definition get_param (key : string) (m : t) : result Param.t :=
  match get key m with
  | FParam p => Ok p
  | _ => Raise AttributeError
  end.

Definition get_uint16 (key : string) (m : t) : result Z :=
  p <- get_param key m;; Param.uint16_value p.

Definition get_float (key : string) (m : t) : result float :=
  p <- get_param key m;; Param.float_value p.

(** [-(-a // b)], the value of [int(np.ceil(a / b))]. *)
Definition ceil_div (a b : Z) : Z := - ((- a) / b).

(** [sum(g.binary_size() for g in self.groups.values())]: one term for
    each key of the dictionary. *)
Definition groups_size (m : t) : result Z :=
  foldr (fun r acc =>
           a <- acc;;
           g <- deref m r;;
           s <- Group.binary_size g;;
           Ok (s + a))
        (Ok 0) (map_to_list (groups m)).*2.

(** [parameter_blocks] *)
Definition parameter_blocks (m : t) : result Z :=
  s <- groups_size m;;
  Ok (ceil_div (4 + s) 512).

Definition frame_rate (m : t) : result float := get_float "POINT:RATE" m.
Definition scale_factor (m : t) : result float := get_float "POINT:SCALE" m.
Definition points_per_frame (m : t) : result Z := get_uint16 "POINT:USED" m.

(** [analog_per_frame]: [except AttributeError: return 0] *)
Definition analog_per_frame (m : t) : result Z :=
  match get_uint16 "ANALOG:USED" m with
  | Raise AttributeError => Ok 0
  | r => r
  end.

(** [analog_frame_rate]: [except AttributeError: return 0] *)
Definition analog_frame_rate (m : t) : result float :=
  match get_float "ANALOG:RATE" m with
  | Raise AttributeError => Ok (Float.of_Z 0)
  | r => r
  end.

(** [first_frame] *)
Definition first_frame (m : t) : result Z :=
  match get "TRIAL:ACTUAL_START_FIELD" m with
  | FParam p => Param.int32_value p
  | FGroup _ => Raise AttributeError
  | FDefault => Ok (Header.first_frame (header m))
  end.

(** [last_frame] *)
Definition last_frame (m : t) : result Z :=
  match get "TRIAL:ACTUAL_END_FIELD" m with
  | FParam p => Param.int32_value p
  | FGroup _ => Raise AttributeError
  | FDefault => Ok (Header.last_frame (header m))
  end.

(** The parameters whose absence [check_metadata] warns about. *)
Definition expected_params : list string :=
  ["POINT:LABELS"; "POINT:DESCRIPTIONS";
   "ANALOG:USED"; "ANALOG:LABELS"; "ANALOG:DESCRIPTIONS"]%string.

Definition is_default (f : found) : bool :=
  match f with FDefault => true | _ => false end.

(** [check_metadata]: the warnings issued, when no assertion fails. *)
Definition check_metadata (m : t) : result (list string) :=
  let hd := header m in
  ppf <- points_per_frame m;;
  _ <- assert (Header.point_count hd =? ppf)
         (InconsistentPointCount (Header.point_count hd) ppf);;
  sf <- scale_factor m;;
  _ <- assert (Float.eqb (Header.scale_factor hd) sf)
         (InconsistentScaleFactor (Header.scale_factor hd) sf);;
  fr <- frame_rate m;;
  _ <- assert (Float.eqb (Header.frame_rate hd) fr)
         (InconsistentFrameRate (Header.frame_rate hd) fr);;
  used <- analog_per_frame m;;
  afr <- analog_frame_rate m;;
  fr <- frame_rate m;;
  apf <- Float.div (Float.mul (Float.of_Z used) afr) fr;;
  _ <- assert (Float.eqb (Float.of_Z (Header.analog_count hd)) apf)
         (InconsistentAnalogCount (Header.analog_count hd) used afr fr);;
  start <- get_uint16 "POINT:DATA_START" m;;
  _ <- assert (Header.data_block hd =? start)
         (InconsistentDataBlock (Header.data_block hd) start);;
  Ok (filter (fun name => is_default (get name m) = true) expected_params).

End WithText.

End Manager.

(** ** numpy arrays read from and written to a file *)

Inductive dtype :=
| Int16
| UInt16
| Float32.

Module Np.

Definition itemsize (d : dtype) : nat :=
  match d with
  | Float32 => 4
  | _ => 2
  end.

(** The value of one item of the given type. *)
Definition item (d : dtype) (bs : list byte) : float :=
  match d with
  | Int16 => Float.of_Z (signed 16 (le_uint bs))
  | UInt16 => Float.of_Z (le_uint bs)
  | Float32 => float32_of_bits (le_uint bs)
  end.

(** The complete items at the start of a byte string, at most [count]. *)
Fixpoint items (d : dtype) (count : nat) (bs : list byte) : list float :=
  match count with
  | O => []
  | S n =>
      if decide (itemsize d <= length bs)%nat then
        item d (take (itemsize d) bs) :: items d n (drop (itemsize d) bs)
      else []
  end.

(** [np.fromfile(handle, dtype, count)] for a count that is not
    negative: the items read, fewer than [count] at the end of the
    file. *)
Definition fromfile (d : dtype) (count : Z) (h : handle) : list float * handle :=
  let xs := items d (Z.to_nat count) (drop (position h) (contents h)) in
  (xs, mkHandle (contents h) (position h + length xs * itemsize d)
                (EvRead (count * Z.of_nat (itemsize d)) :: log h)).

(** The rows of [a.reshape((n, 4))]. *)
Fixpoint rows4 (a : list float) : option (list (float * float * float * float)) :=
  match a with
  | [] => Some []
  | a0 :: a1 :: a2 :: a3 :: a' =>
      match rows4 a' with
      | Some rs => Some ((a0, a1, a2, a3) :: rs)
      | None => None
      end
  | _ => None
  end.

Definition reshape4 (n : Z) (a : list float)
  : result (list (float * float * float * float)) :=
  match rows4 a with
  | Some rs => if Z.of_nat (length rs) =? n then Ok rs else Raise ValueError
  | None => Raise ValueError
  end.

End Np.

(** ** [class Reader] *)

Module Reader.

Record t := mk {
  manager : Manager.t;
  _handle : handle
}.

(** One frame of [read_frames]: a row [[x, y, z, err, cameras]] for each
    point, and the analog samples. *)
Record point := mkPoint {
  px : float;
  py : float;
  pz : float;
  perr : float;
  pcam : float
}.

Record frame := mkFrame {
  frame_no : Z;
  points : list point;
  analog : list float
}.

(** [sum((c & (1 << k)) >> k for k in range(8, 17))].  [c] is an array of
    [np.uint16]; for [k = 16] the mask does not fit that type and numpy
    computes in a wider integer type, so no bit is lost and the sum is
    the sum over the integers. *)
Definition camera_sum (c : Z) : Z :=
  fold_left (fun acc k => acc + Z.shiftr (Z.land c (Z.shiftl 1 k)) k)
            (seqZ 8 9) 0.

(** The row of [points] computed from a row of [raw]:
    [[
      points[:, :3] = raw[:, :3] * point_scale
      valid = raw[:, 3] > -1
      points[~valid, 3:5] = -1
      c = raw[valid, 3].astype(np.uint16)
      points[valid, 3] = (c & 0xff).astype(float) * scale
      points[valid, 4] = sum((c & (1 << k)) >> k for k in range(8, 17))
    ]] *)
Definition decode_point (scale point_scale : float)
    (raw : float * float * float * float) : point :=
  let '(r0, r1, r2, r3) := raw in
  let valid := Float.ltb (Float.of_Z (-1)) r3 in
  let c := Float.astype_uint16 r3 in
  mkPoint (Float.mul r0 point_scale)
          (Float.mul r1 point_scale)
          (Float.mul r2 point_scale)
          (if valid then Float.mul (Float.of_Z (Z.land c 255)) scale
           else Float.of_Z (-1))
          (if valid then Float.of_Z (camera_sum c) else Float.of_Z (-1)).

(** The address of the group that [groups.setdefault(group_id, Group())]
    returns. *)
Definition setdefault (group_id : Z) (m : Manager.t) : nat * Manager.t :=
  match Manager.groups m !! KInt group_id with
  | Some r => (r, m)
  | None =>
      let '(r, m) := Manager.alloc Group.empty m in
      (r, Manager.set_key (KInt group_id) r m)
  end.

(** What one iteration of the directory loop of [__init__] does. *)
Inductive step_result :=
| Break
| Continue (m : Manager.t) (bytes : list byte).

Section WithText.
Context `{Text}.

(** The body of [while bytes:] in [__init__], for a [bytes] that is
    not empty. *)
Definition step (m : Manager.t) (bytes : list byte) : result step_result :=
  let buf := bytes in
  let '(b, buf) := buf_read 2 buf in
  match b with
  | [b0; b1] =>
      let chars_in_name := signed 8 (u8 b0) in
      let group_id := signed 8 (u8 b1) in
      if (group_id =? 0) || (chars_in_name =? 0) then Ok Break
      else
        let '(nb, buf) := buf_read (Z.abs chars_in_name) buf in
        name <- decode nb;;
        let name := str_upper name in
        let '(ob, buf) := buf_read 2 buf in
        offset_to_next <- Struct.unpack_h ob;;
        m <- (if 0 <? group_id then
                let '(r, m) := setdefault group_id m in
                g <- Manager.deref m r;;
                g <- Group.add_param g name
                       (Param.mkKw None None None None (Some buf) []);;
                Ok (Manager.update r (fun _ => g) m)
              else
                let group_id := Z.abs group_id in
                let '(sb, buf) := buf_read 1 buf in
                size <- Struct.unpack_B sb;;
                let desc :=
                  if size =? 0 then EmptyString
                  else str_of_bytes (fst (buf_read size buf)) in
                match Manager.get_int group_id m with
                | Manager.FGroup r =>
                    let m :=
                      Manager.update r
                        (fun g => Group.mk (Some name) (Some desc) (Group.params g)) m in
                    Ok (Manager.set_key (KStr name) r m)
                | _ =>
                    let '(r, m) := Manager.add_group group_id name desc m in
                    _ <- r;; Ok m
                end);;
        Ok (Continue m
              (slice_from (2 + Z.abs chars_in_name + offset_to_next) bytes))
  | _ => Raise StructError
  end.

(** [while bytes: ...]: [None] when the loop has not ended after
    [fuel] iterations. *)
Fixpoint loop (fuel : nat) (m : Manager.t) (bytes : list byte)
  : option (result Manager.t) :=
  match bytes with
  | [] => Some (Ok m)
  | _ =>
      match fuel with
      | O => None
      | S fuel =>
          match step m bytes with
          | Raise e => Some (Raise e)
          | Ok Break => Some (Ok m)
          | Ok (Continue m bytes) => loop fuel m bytes
          end
      end
  end.

(** [Reader(handle)]: the reader or the exception, and the handle
    after the call. *)
Definition init (fuel : nat) (h : handle) : option (result t * handle) :=
  match Header.init h with
  | (Raise e, h) => Some (Raise e, h)
  | (Ok hd, h) =>
      let m := Manager.init hd in
      match Handle.seek ((Header.parameter_block hd - 1) * 512) h with
      | Raise e => Some (Raise e, h)
      | Ok h =>
          let '(buf, h) := Handle.read 4 h in
          match buf with
          | [_; _; parameter_blocks; processor] =>
              if negb (u8 processor =? 84) then Some (Raise ValueError, h)
              else
                let '(bytes, h) :=
                  Handle.read (512 * u8 parameter_blocks - 4) h in
                match loop fuel m bytes with
                | None => None
                | Some (Raise e) => Some (Raise e, h)
                | Some (Ok m) =>
                    match Manager.check_metadata m with
                    | Raise e => Some (Raise e, h)
                    | Ok _ => Some (Ok (mk m h), h)
                    end
                end
          | _ => Some (Raise StructError, h)
          end
      end
  end.


(** The type of the analog samples:
    [[
      p = self.get('ANALOG:FORMAT')
      analog_unsigned = p and p.string_value.strip().upper() == 'UNSIGNED'
    ]] *)
Definition analog_dtype (is_float : bool) (m : Manager.t) : result dtype :=
  unsigned <- match Manager.get "ANALOG:FORMAT" m with
              | Manager.FParam p =>
                  s <- Param.string_value p;;
                  Ok (String.eqb (str_upper (str_strip s)) "UNSIGNED")
              | Manager.FGroup _ => Raise AttributeError
              | Manager.FDefault => Ok false
              end;;
  Ok (if is_float then Float32 else if unsigned then UInt16 else Int16).

(** The array parameter [key], when present, must be readable with
    elements of [size] bytes. *)
Definition check_array (key : string) (size : Z) (m : Manager.t) : result unit :=
  match Manager.get key m with
  | Manager.FParam p => _ <- Param.as_array size p;; Ok tt
  | Manager.FGroup _ => Raise AttributeError
  | Manager.FDefault => Ok tt
  end.

(** What [read_frames] computes before its loop. *)
Record config := mkConfig {
  ppf : Z;
  apf : Z;
  scale : float;
  is_float : bool;
  analog_type : dtype
}.

Definition point_dtype (c : config) : dtype :=
  if is_float c then Float32 else Int16.

Definition point_scale (c : config) : float :=
  if is_float c then Float.of_Z 1 else scale c.

Definition configure (m : Manager.t) : result config :=
  ppf <- Manager.points_per_frame m;;
  apf <- Manager.analog_per_frame m;;
  sf <- Manager.scale_factor m;;
  let scale := Float.abs sf in
  sf <- Manager.scale_factor m;;
  let is_float := Float.ltb sf (Float.of_Z 0) in
  adt <- analog_dtype is_float m;;
  _ <- check_array "ANALOG:OFFSET" 2 m;;
  _ <- check_array "ANALOG:SCALE" 4 m;;
  _ <- match Manager.get "ANALOG:GEN_SCALE" m with
       | Manager.FParam p => _ <- Param.float_value p;; Ok tt
       | Manager.FGroup _ => Raise AttributeError
       | Manager.FDefault => Ok tt
       end;;
  Ok (mkConfig ppf apf scale is_float adt).

(** One iteration of the loop of [read_frames].  The analog samples
    are returned as they are read: the calibration
    [(raw - offsets) * scales * gen_scale] of the source, and the
    exception that it raises when the shapes do not broadcast, are not
    part of the embedding. *)
Definition read_frame (c : config) (hd : Header.t) (no : Z) (prev : list float)
    (h : handle) : result (frame * handle) :=
  let '(raw, h) := Np.fromfile (point_dtype c) (4 * Header.point_count hd) h in
  raw <- Np.reshape4 (ppf c) raw;;
  let points := decode_point (scale c) (point_scale c) <$> raw in
  if 0 <? Header.analog_count hd then
    let '(raw, h) := Np.fromfile (analog_type c) (Header.analog_count hd) h in
    if (apf c =? 0) || negb (Z.of_nat (length raw) mod apf c =? 0)
    then Raise ValueError
    else Ok (mkFrame no points raw, h)
  else Ok (mkFrame no points prev, h).

Fixpoint read_loop (c : config) (hd : Header.t) (nos : list Z)
    (prev : list float) (h : handle) : result (list frame * handle) :=
  match nos with
  | [] => Ok ([], h)
  | no :: nos =>
      r <- read_frame c hd no prev h;;
      let '(f, h) := r in
      r <- read_loop c hd nos (analog f) h;;
      Ok (f :: fst r, snd r)
  end.

(** [read_frames()]: all the frames that the generator yields, and the
    handle after the last one; the exception when one is raised before
    that. *)
Definition read_frames (r : t) : result (list frame * handle) :=
  let m := manager r in
  c <- configure m;;
  h <- Handle.seek ((Header.data_block (Manager.header m) - 1) * 512) (_handle r);;
  first <- Manager.first_frame m;;
  last <- Manager.last_frame m;;
  read_loop c (Manager.header m) (seqZ first (last + 1 - first)) [] h.

End WithText.

End Reader.

(** ** [class Writer] *)

Module Writer.

Record t := mk {
  manager : Manager.t;
  point_frame_rate : float;
  analog_frame_rate : float;
  point_scale_factor : float;
  point_units : string;
  gen_scale : float;
  (** [(points, analog)] pairs: the rows [[x, y, z, err, cameras]] of the
      points, and the analog samples *)
  _frames : list (list Reader.point * list float)
}.

(** [Writer(...)] *)
Definition init (point_frame_rate analog_frame_rate point_scale_factor : float)
    (point_units : string) (gen_scale : float) : t :=
  mk (Manager.init Header.default) point_frame_rate analog_frame_rate
     point_scale_factor point_units gen_scale [].

(** [Writer()] with the default arguments. *)
Definition default : t :=
  init (Fin 480) (Fin 0) (Fin (-1)) "mm  " (Fin 1).

(** [add_frames(frames)] *)
Definition add_frames (frames : list (list Reader.point * list float)) (w : t) : t :=
  mk (manager w) (point_frame_rate w) (analog_frame_rate w)
     (point_scale_factor w) (point_units w) (gen_scale w)
     (_frames w ++ frames).

Definition with_manager (m : Manager.t) (w : t) : t :=
  mk m (point_frame_rate w) (analog_frame_rate w)
     (point_scale_factor w) (point_units w) (gen_scale w) (_frames w).

(** [_pad_block()]: the method reads [self._handle], an attribute that
    no method of [Writer] or [Manager] assigns. *)
Definition _pad_block (w : t) : result handle := Raise AttributeError.

(** ['%03d' % i] *)
Definition fmt_03d (i : nat) : string :=
  let s := NilZero.string_of_uint (Nat.to_uint i) in
  String.append
    (String.string_of_list_ascii (replicate (3 - String.length s) "0"%char)) s.

(** [''.join('M%03d ' % i for i in range(ppf))] *)
Definition labels (ppf : nat) : string :=
  String.concat "" ((fun i => "M" +:+ fmt_03d i +:+ " ") <$> seq 0 ppf).

(** [' ' * n] *)
Definition spaces (n : nat) : string :=
  String.string_of_list_ascii (replicate n " "%char).

(** The keywords of the [add_param] calls of [write]: [desc],
    [data_size], and [dimensions] and [bytes] where given. *)
Definition kw (desc : string) (dimensions : option (list Z))
    (bytes : option (list byte)) : Param.kwargs :=
  Param.mkKw (Some desc) None dimensions bytes None ["data_size"%string].

(** The 4th value of a row of [raw] for a valid point:
    [[
      ((points[valid, 4]).astype(np.uint8) << 8) |
      (points[valid, 3] / scale).astype(np.uint16)
    ]]
    The left operand is an array of [np.uint8] shifted by a Python
    integer: numpy keeps the type of the array, so the shift wraps
    around at 8 bits. *)
Definition pack_fourth (scale : float) (p : Reader.point) : Z :=
  Z.lor (Z.shiftl (Float.astype_uint8 (Reader.pcam p)) 8 mod 256)
        (Float.astype_uint16 (Float.np_div (Reader.perr p) scale)).

(** The row of [raw] after the assignments of one iteration of the loop
    of [_write_frames]; [old] is the row before them:
    [[
      valid = points[:, 3] > -1
      raw[~valid, 3] = -1
      raw[valid, :3] = points[valid, :3] / self.point_scale_factor
      raw[valid, 3] = ...
    ]] *)
Definition encode_point (point_scale_factor scale : float)
    (old : float * float * float * float) (p : Reader.point)
  : float * float * float * float :=
  if Float.ltb (Float.of_Z (-1)) (Reader.perr p) then
    (Float.np_div (Reader.px p) point_scale_factor,
     Float.np_div (Reader.py p) point_scale_factor,
     Float.np_div (Reader.pz p) point_scale_factor,
     Float.of_Z (pack_fourth scale p))
  else (old.1.1.1, old.1.1.2, old.1.2, Float.of_Z (-1)).

(** [raw.flatten()] *)
Definition flatten (raw : list (float * float * float * float)) : list float :=
  concat ((fun '(a, b, c, d) => [a; b; c; d]) <$> raw).

(** [a = array.array(fmt); a.extend(values); a.tofile(handle)] for the
    formats ['f'] and ['i']: a [float] is not accepted by an array of
    integers. *)
Definition array_tofile (is_float : bool) (values : list float) (h : handle)
  : result handle :=
  match values with
  | [] => Ok (Handle.write [] h)
  | _ =>
      if is_float then
        Ok (Handle.write (concat ((fun v => le_bytes 4 (float32_bits v)) <$> values)) h)
      else Raise TypeError
  end.

Section WithText.
Context `{Text}.

(** [group.add_param(name, **kw)] for the group at address [r]. *)
Definition add_param (r : nat) (name : string) (kw : Param.kwargs)
    (m : Manager.t) : result Manager.t :=
  g <- Manager.deref m r;;
  g <- Group.add_param g name kw;;
  Ok (Manager.update r (fun _ => g) m).

(** [group[name]]: [Group] defines no [__getitem__]. *)
Definition getitem (r : nat) (name : string) (m : Manager.t) : result Param.t :=
  Raise TypeError.

(** The loop of [_write_frames].  [raw] is the array made by
    [np.empty] before the loop and assigned to in each iteration.  The
    assignments index [raw] with the boolean array [valid], which has
    one entry for each row of [points]: numpy raises [IndexError] when
    the two lengths differ, except that it accepts a boolean index with
    no entry, so that a frame with no rows leaves [raw] as it was. *)
Fixpoint write_loop (w : t) (scale : float) (is_float : bool)
    (raw : list (float * float * float * float))
    (frames : list (list Reader.point * list float)) (h : handle)
  : result unit * handle :=
  match frames with
  | [] => (Ok tt, h)
  | (points, analog) :: frames =>
      if negb (Nat.eqb (length points) 0) &&
         negb (Nat.eqb (length points) (length raw))
      then (Raise IndexError, h)
      else
        let raw :=
          match points with
          | [] => raw
          | _ => zip_with (encode_point (point_scale_factor w) scale) raw points
          end in
        match array_tofile is_float (flatten raw) h with
        | Raise e => (Raise e, h)
        | Ok h =>
            (* analog = array.array(point_format); analog.extend(analog) *)
            let analog : list float := [] in
            let analog := analog ++ analog in
            match array_tofile is_float analog h with
            | Raise e => (Raise e, h)
            | Ok h => write_loop w scale is_float raw frames h
            end
        end
  end.

(** [_write_frames(handle)].  [uninit i] is the content of row [i] of the
    array that [np.empty((ppf, 4))] returns, which numpy does not
    initialise. *)
Definition _write_frames (w : t) (uninit : nat -> float * float * float * float)
    (h : handle) : result unit * handle :=
  let m := manager w in
  let expected := 512 * (Header.data_block (Manager.header m) - 1) in
  match assert (Handle.tell h =? expected) (NotAtBlock (Handle.tell h) expected) with
  | Raise e => (Raise e, h)
  | Ok _ =>
      match (sf <- Manager.scale_factor m;;
             ppf <- Manager.points_per_frame m;;
             Ok (sf, ppf)) with
      | Raise e => (Raise e, h)
      | Ok (sf, ppf) =>
          let scale := Float.abs sf in
          let is_float := Float.ltb sf (Float.of_Z 0) in
          let raw := uninit <$> seq 0 (Z.to_nat ppf) in
          match write_loop w scale is_float raw (_frames w) h with
          | (Raise e, h) => (Raise e, h)
          | (Ok _, h) =>
              match _pad_block w with
              | Raise e => (Raise e, h)
              | Ok h => (Ok tt, h)
              end
          end
      end
  end.


(** [self.check_metadata()] on a [Writer].  [Writer.__init__] assigns
    the number [analog_frame_rate] to [self.analog_frame_rate], which
    hides the method of that name: the checks of the point count, the
    scale factor and the frame rate run as in [Manager.check_metadata],
    and the call [self.analog_frame_rate()] that follows
    [self.analog_per_frame()] raises [TypeError]. *)
Definition check_metadata (w : t) : result (list string) :=
  let m := manager w in
  let hd := Manager.header m in
  ppf <- Manager.points_per_frame m;;
  _ <- assert (Header.point_count hd =? ppf)
         (InconsistentPointCount (Header.point_count hd) ppf);;
  sf <- Manager.scale_factor m;;
  _ <- assert (Float.eqb (Header.scale_factor hd) sf)
         (InconsistentScaleFactor (Header.scale_factor hd) sf);;
  fr <- Manager.frame_rate m;;
  _ <- assert (Float.eqb (Header.frame_rate hd) fr)
         (InconsistentFrameRate (Header.frame_rate hd) fr);;
  _ <- Manager.analog_per_frame m;;
  Raise TypeError.

(** The start of [_write_metadata(handle)]:
    [[
      self.check_metadata()
      self.header.write(handle)
      self._pad_block()
    ]]
    [_pad_block] raises on every call, so the statements of the method
    that follow it (the directory and its padding) are never run; they
    are not embedded. *)
Definition _write_metadata (w : t) (h : handle) : result unit * handle :=
  match check_metadata w with
  | Raise e => (Raise e, h)
  | Ok _ =>
      match Header.write (Manager.header (manager w)) h with
      | Raise e => (Raise e, h)
      | Ok h =>
          match _pad_block w with
          | Raise e => (Raise e, h)
          | Ok h => (Ok tt, h)
          end
      end
  end.

(** [group = self.add_group(...)] as a step of [write]. *)
Definition new_group (group_id : Z) (name desc : string) (m : Manager.t)
  : result (nat * Manager.t) :=
  let '(r, m) := Manager.add_group group_id name desc m in
  r <- r;; Ok (r, m).

(** The statements of [write] from [points, analog = self._frames[0]]
    to the assignments to [self.header]: the manager that they
    build. *)
Definition build (w : t) (points : list Reader.point) (analog : list float)
  : result Manager.t :=
  let m := manager w in
  (* POINT group *)
  let ppf := Z.of_nat (length points) in
  r <- new_group 1 "POINT" "POINT group" m;;
  let '(point_group, m) := r in
  b <- Struct.pack_H ppf;;
  m <- add_param point_group "USED" (kw "Number of 3d markers" None (Some b)) m;;
  b <- Struct.pack_H (Z.min 65535 (Z.of_nat (length (_frames w))));;
  m <- add_param point_group "FRAMES" (kw "frame count" None (Some b)) m;;
  b <- Struct.pack_H 0;;
  m <- add_param point_group "DATA_START" (kw "data block number" None (Some b)) m;;
  b <- Struct.pack_f (point_scale_factor w);;
  m <- add_param point_group "SCALE" (kw "3d scale factor" None (Some b)) m;;
  b <- Struct.pack_f (point_frame_rate w);;
  m <- add_param point_group "RATE" (kw "3d data capture rate" None (Some b)) m;;
  m <- add_param point_group "X_SCREEN"
         (kw "X_SCREEN parameter" (Some [2]) (Some (list_byte_of_string "+X"))) m;;
  m <- add_param point_group "Y_SCREEN"
         (kw "Y_SCREEN parameter" (Some [2]) (Some (list_byte_of_string "+Z"))) m;;
  m <- add_param point_group "UNITS"
         (kw "3d data units" (Some [Z.of_nat (String.length (point_units w))])
             (Some (list_byte_of_string (point_units w)))) m;;
  m <- add_param point_group "LABELS"
         (kw "labels" (Some [5; ppf])
             (Some (list_byte_of_string (labels (length points))))) m;;
  m <- add_param point_group "DESCRIPTIONS"
         (kw "descriptions" (Some [16; ppf])
             (Some (list_byte_of_string (spaces (16 * length points))))) m;;
  (* ANALOG group *)
  let apf := Z.of_nat (length analog) in
  r <- new_group 2 "ANALOG" "ANALOG group" m;;
  let '(analog_group, m) := r in
  b <- Struct.pack_H apf;;
  m <- add_param analog_group "USED" (kw "analog channel count" None (Some b)) m;;
  b <- Struct.pack_f (analog_frame_rate w);;
  m <- add_param analog_group "RATE" (kw "analog frame rate" None (Some b)) m;;
  b <- Struct.pack_f (gen_scale w);;
  m <- add_param analog_group "GEN_SCALE"
         (kw "analog general scale factor" None (Some b)) m;;
  m <- add_param analog_group "SCALE"
         (kw "analog channel scale factors" (Some [0]) None) m;;
  m <- add_param analog_group "OFFSET"
         (kw "analog channel offsets" (Some [0]) None) m;;
  (* TRIAL group *)
  r <- new_group 3 "TRIAL" "TRIAL group" m;;
  let '(trial_group, m) := r in
  b <- Struct.pack_I 1;;
  m <- add_param trial_group "ACTUAL_START_FIELD"
         (kw "actual start frame" (Some [2]) (Some b)) m;;
  b <- Struct.pack_I (Z.of_nat (length (_frames w)));;
  m <- add_param trial_group "ACTUAL_END_FIELD"
         (kw "actual end frame" (Some [2]) (Some b)) m;;
  (* sync parameter information to header. *)
  blocks <- Manager.parameter_blocks m;;
  b <- Struct.pack_H (2 + blocks);;
  p <- getitem point_group "DATA_START" m;;
  let m :=
    Manager.update point_group
      (fun g => Group.mk (Group.name g) (Group.desc g)
                  (<["DATA_START"%string :=
                       Param.mk (Param.name p) (Param.desc p)
                         (Param.bytes_per_element p) (Param.dimensions p) b]>
                     (Group.params g))) m in
  let hd := Manager.header m in
  let hd :=
    Header.mk (Header.label_block hd) (Header.parameter_block hd)
      (2 + blocks) ppf apf (Header.first_frame hd)
      (Z.min (Z.of_nat (length (_frames w))) 65535)
      (Header.sample_per_frame hd) (point_frame_rate w) (Header.max_gap hd)
      (point_scale_factor w) (Header.long_event_labels hd) in
  Ok (Manager.mk hd (Manager.heap m) (Manager.groups m)).

(** [write(handle)] *)
Definition write (w : t) (uninit : nat -> float * float * float * float)
    (h : handle) : result unit * handle :=
  match _frames w with
  | [] => (Ok tt, h)
  | (points, analog) :: _ =>
      match build w points analog with
      | Raise e => (Raise e, h)
      | Ok m =>
          let w := with_manager m w in
          match _write_metadata w h with
          | (Raise e, h) => (Raise e, h)
          | (Ok _, h) => _write_frames w uninit h
          end
      end
  end.

End WithText.

End Writer.

(** ** The records of the directory

    An iteration of the directory loop of [Reader.__init__] first reads a
    record from the chunk and then changes the manager.  [read_record] and
    [apply_record] are these two halves of [Reader.step]
    ([step_read_apply] below). *)

Module Directory.

Inductive record :=
| RParam (group_id : Z) (name : string) (buf : list byte)
| RGroup (group_id : Z) (name : string) (desc : string).

Section WithText.
Context `{Text}.

(** What an iteration reads before it touches the manager: [None] at the
    end of the directory; otherwise the record and the slice index
    [2 + abs(chars_in_name) + offset_to_next].  A parameter record carries
    the buffer that [Param.read] will read; a group record carries
    [abs(group_id)]. *)
Definition read_record (bytes : list byte) : result (option (record * Z)) :=
  let '(b, buf) := buf_read 2 bytes in
  match b with
  | [b0; b1] =>
      let chars_in_name := signed 8 (u8 b0) in
      let group_id := signed 8 (u8 b1) in
      if (group_id =? 0) || (chars_in_name =? 0) then Ok None
      else
        let '(nb, buf) := buf_read (Z.abs chars_in_name) buf in
        name <- decode nb;;
        let name := str_upper name in
        let '(ob, buf) := buf_read 2 buf in
        offset_to_next <- Struct.unpack_h ob;;
        let k := 2 + Z.abs chars_in_name + offset_to_next in
        if 0 <? group_id then Ok (Some (RParam group_id name buf, k))
        else
          let '(sb, buf) := buf_read 1 buf in
          size <- Struct.unpack_B sb;;
          let desc :=
            if size =? 0 then EmptyString
            else str_of_bytes (fst (buf_read size buf)) in
          Ok (Some (RGroup (Z.abs group_id) name desc, k))
  | _ => Raise StructError
  end.

(** What an iteration does to the manager. *)
Definition apply_record (rec : record) (m : Manager.t) : result Manager.t :=
  match rec with
  | RParam group_id name buf =>
      let '(r, m) := Reader.setdefault group_id m in
      g <- Manager.deref m r;;
      g <- Group.add_param g name (Param.mkKw None None None None (Some buf) []);;
      Ok (Manager.update r (fun _ => g) m)
  | RGroup group_id name desc =>
      match Manager.get_int group_id m with
      | Manager.FGroup r =>
          let m :=
            Manager.update r
              (fun g => Group.mk (Some name) (Some desc) (Group.params g)) m in
          Ok (Manager.set_key (KStr name) r m)
      | _ =>
          let '(r, m) := Manager.add_group group_id name desc m in
          _ <- r;; Ok m
      end
  end.

Fixpoint apply_all (recs : list record) (m : Manager.t) : result Manager.t :=
  match recs with
  | [] => Ok m
  | rec :: recs => m <- apply_record rec m;; apply_all recs m
  end.

(** [scan bytes recs rest]: the loop reads the records [recs] one after
    the other from [bytes], following the offset fields, and [rest] is
    what it has then left to read. *)
Inductive scan : list byte -> list record -> list byte -> Prop :=
| scan_nil bytes : scan bytes [] bytes
| scan_cons bytes rec k recs rest :
    read_record bytes = Ok (Some (rec, k)) ->
    scan (slice_from k bytes) recs rest ->
    scan bytes (rec :: recs) rest.

(** The parameter that a parameter record makes. *)
Definition param_of (name : string) (buf : list byte) : option Param.t :=
  match Param.init (str_upper name) (Param.mkKw None None None None (Some buf) []) with
  | Ok (p, _) => Some p
  | Raise _ => None
  end.

(** The parameters of group [G] after the records [recs], starting from
    [acc]: each parameter record of [G] is stored under its upper-cased
    name. *)
Definition attach (G : Z) (acc : gmap string Param.t) (rec : record)
  : gmap string Param.t :=
  match rec with
  | RParam g name buf =>
      if decide (g = G) then
        match param_of name buf with
        | Some p => <[str_upper name := p]> acc
        | None => acc
        end
      else acc
  | RGroup _ _ _ => acc
  end.

Definition params_of (G : Z) (recs : list record) : gmap string Param.t :=
  foldl (attach G) ∅ recs.

End WithText.

Definition is_param (G : Z) (rec : record) : Prop :=
  match rec with
  | RParam g _ _ => g = G
  | RGroup _ _ _ => False
  end.

Definition is_header (G : Z) (rec : record) : Prop :=
  match rec with
  | RParam _ _ _ => False
  | RGroup g _ _ => g = G
  end.

(** Every address in the dictionary is the address of an object. *)
Definition wf (m : Manager.t) : Prop :=
  forall k r, Manager.groups m !! k = Some r -> (r < length (Manager.heap m))%nat.

(** Before the first parameter record of [G]: no group under [G]. *)
Definition before (G : Z) (m : Manager.t) : Prop :=
  wf m /\ Manager.groups m !! KInt G = None.

(** After it and before the header of [G]: an unnamed group under [G]
    and under no other key, holding the parameters [acc]. *)
Definition placeholder (G : Z) (r : nat) (acc : gmap string Param.t) (m : Manager.t)
  : Prop :=
  wf m /\
  Manager.groups m !! KInt G = Some r /\
  (forall k, Manager.groups m !! k = Some r -> k = KInt G) /\
  Manager.heap m !! r = Some (Group.mk None None acc).

(** [Param.read] succeeds on the buffer of a parameter record of [G]. *)
Definition readable `{Text} (G : Z) (rec : record) : Prop :=
  forall name buf, rec = RParam G name buf -> is_Some (param_of name buf).

End Directory.

(** ** The layout of what is written

    The bytes that the [write] methods leave in a file, and the
    conditions under which the reader finds in them what was written. *)

Module Layout.

(** The position of the handle is not past the end of the file. *)
Definition inside (h : handle) : Prop :=
  (position h <= length (contents h))%nat.

(** [written h bs h']: [h'] is [h] after the bytes [bs] were written at
    its position, over what was there. *)
Definition written (h : handle) (bs : list byte) (h' : handle) : Prop :=
  contents h' = take (position h) (contents h) ++ bs ++
                drop (position h + length bs) (contents h) /\
  position h' = (position h + length bs)%nat.

(** The header that the 512 bytes of [Header.write] hold: the two
    floating-point fields are rounded to binary32, and
    [long_event_labels] is stored as a flag. *)
Definition header (hd : Header.t) : Header.t :=
  {| Header.label_block := Header.label_block hd;
     Header.parameter_block := Header.parameter_block hd;
     Header.data_block := Header.data_block hd;
     Header.point_count := Header.point_count hd;
     Header.analog_count := Header.analog_count hd;
     Header.first_frame := Header.first_frame hd;
     Header.last_frame := Header.last_frame hd;
     Header.sample_per_frame := Header.sample_per_frame hd;
     Header.frame_rate := float32_of_bits (float32_bits (Header.frame_rate hd));
     Header.max_gap := Header.max_gap hd;
     Header.scale_factor := float32_of_bits (float32_bits (Header.scale_factor hd));
     Header.long_event_labels :=
       if Header.long_event_labels hd =? 0 then 0 else 0x3039 |}.

(** The integer fields of a header fit the widths of [BINARY_FORMAT]. *)
Definition header_fits (hd : Header.t) : Prop :=
  0 <= Header.parameter_block hd < 256 /\
  0 <= Header.point_count hd < 65536 /\
  0 <= Header.analog_count hd < 65536 /\
  0 <= Header.first_frame hd < 65536 /\
  0 <= Header.last_frame hd < 65536 /\
  0 <= Header.max_gap hd < 65536 /\
  0 <= Header.data_block hd < 65536 /\
  0 <= Header.sample_per_frame hd < 65536 /\
  0 <= Header.label_block hd < 65536.

(** The parameters of a list, each under its name, the later ones over
    the earlier ones. *)
Definition by_name (ps : list Param.t) : gmap string Param.t :=
  foldl (fun acc p => <[Param.name p := p]> acc) ∅ ps.

Section WithText.
Context `{Text}.

(** The record of a parameter of the group [group_id]. *)
Definition param_record (group_id : Z) (p : Param.t) : list byte :=
  let name := utf8_encode (Param.name p) in
  let desc := utf8_encode (Param.desc p) in
  [byte_of_Z (Z.of_nat (length name) mod 256); byte_of_Z (group_id mod 256)] ++
  name ++
  le_bytes 2 ((Param.binary_size p - 2 - Z.of_nat (length name)) mod 65536) ++
  [byte_of_Z (Param.bytes_per_element p mod 256)] ++
  [byte_of_Z (Z.of_nat (length (Param.dimensions p)))] ++
  (byte_of_Z <$> Param.dimensions p) ++
  Param.bytes p ++
  [byte_of_Z (Z.of_nat (length desc))] ++
  desc.

(** The fields of the record of a parameter fit their widths. *)
Definition packable (group_id : Z) (p : Param.t) : Prop :=
  Z.of_nat (length (utf8_encode (Param.name p))) < 128 /\
  -128 <= group_id < 128 /\
  -32768 <= Param.binary_size p - 2
            - Z.of_nat (length (utf8_encode (Param.name p))) < 32768 /\
  -128 <= Param.bytes_per_element p < 128 /\
  Z.of_nat (length (Param.dimensions p)) < 256 /\
  Forall (fun d => 0 <= d < 256) (Param.dimensions p) /\
  Z.of_nat (length (utf8_encode (Param.desc p))) < 256.

(** A parameter that can be read back as it is: its name is not empty,
    is upper case and survives encoding and decoding, as does its
    description, and [bytes] holds as many bytes as the dimensions and
    the element size announce. *)
Definition storable (p : Param.t) : Prop :=
  utf8_encode (Param.name p) <> [] /\
  utf8_decode (utf8_encode (Param.name p)) = Some (Param.name p) /\
  str_upper (Param.name p) = Param.name p /\
  utf8_decode (utf8_encode (Param.desc p)) = Some (Param.desc p) /\
  (utf8_encode (Param.desc p) = [] -> Param.desc p = EmptyString) /\
  Z.of_nat (length (Param.bytes p)) = Param.total_bytes p.

(** The record of the header of the group [group_id]. *)
Definition group_header (group_id : Z) (name desc : string) : list byte :=
  [byte_of_Z (Z.of_nat (String.length name) mod 256);
   byte_of_Z ((- group_id) mod 256)] ++
  Group.raw name ++
  le_bytes 2 ((3 + Z.of_nat (String.length desc)) mod 65536) ++
  [byte_of_Z (Z.of_nat (String.length desc))] ++
  Group.raw desc.

(** The records of the parameters of a group, one after the other. *)
Definition param_records (group_id : Z) (ps : list Param.t) : list byte :=
  concat (param_record group_id <$> ps).

(** The directory loop reads the record [rec] as the parameter [p] of
    the group [group_id]. *)
Definition reads_back (group_id : Z) (p : Param.t) (rec : Directory.record) : Prop :=
  exists buf, rec = Directory.RParam group_id (Param.name p) buf /\
              Directory.param_of (Param.name p) buf = Some p.

End WithText.

End Layout.

(** ** Text restricted to ASCII

    An instance of [Text] for the concrete files of the examples: the
    operations of Python on strings of ASCII characters. *)

Module Ascii7.

Definition upper_char (a : ascii) : ascii :=
  let n := nat_of_ascii a in
  if (97 <=? n)%nat && (n <=? 122)%nat then ascii_of_nat (n - 32) else a.

Fixpoint upper (s : string) : string :=
  match s with
  | EmptyString => EmptyString
  | String a s' => String (upper_char a) (upper s')
  end.

Definition is_space (a : ascii) : bool :=
  let n := nat_of_ascii a in
  (n =? 32)%nat || ((9 <=? n)%nat && (n <=? 13)%nat).

Fixpoint lstrip (s : string) : string :=
  match s with
  | EmptyString => EmptyString
  | String a s' => if is_space a then lstrip s' else s
  end.

Definition strip (s : string) : string :=
  let r := String.string_of_list_ascii (rev (String.list_ascii_of_string (lstrip s))) in
  String.string_of_list_ascii (rev (String.list_ascii_of_string (lstrip r))).

Definition decode (bs : list byte) : option string :=
  if forallb (fun b => u8 b <? 128) bs then Some (string_of_list_byte bs)
  else None.

Definition text : Text :=
  {| str_upper := upper;
     str_strip := strip;
     utf8_encode := list_byte_of_string;
     utf8_decode := decode |}.

End Ascii7.

(** ** Concrete stores and files

    The inputs at which the properties below are evaluated.  Text is
    ASCII. *)

Module Example.

#[local] Existing Instance Ascii7.text.

(** A parameter given by its element size, dimensions and bytes. *)
Definition param_kw (bytes_per_element : Z) (dimensions : list Z) (bytes : list byte)
  : Param.kwargs :=
  Param.mkKw None (Some bytes_per_element) (Some dimensions) (Some bytes) None [].

(** [g.add_param(name, bytes_per_element=.., dimensions=.., bytes=..)] for
    the group stored under [group_id]; the manager is unchanged when the
    call raises. *)
Definition with_param (group_id : Z) (name : string) (kw : Param.kwargs)
    (m : Manager.t) : Manager.t :=
  match Manager.get_int group_id m with
  | Manager.FGroup r =>
      match Writer.add_param r name kw m with
      | Ok m => m
      | Raise _ => m
      end
  | _ => m
  end.

(** [m.add_group(group_id, name, desc)] *)
Definition with_group (group_id : Z) (name desc : string) (m : Manager.t) : Manager.t :=
  snd (Manager.add_group group_id name desc m).

Definition f32 (x : float) : list byte := le_bytes 4 (float32_bits x).
Definition u16 (z : Z) : list byte := le_bytes 2 z.
Definition bytes_of (l : list Z) : list byte := byte_of_Z <$> l.

(** A header for [point_count] points and [analog_count] analog samples in
    each frame, in float storage at 60 frames per second, with one
    frame. *)
Definition header (point_count analog_count : Z) : Header.t :=
  Header.mk 0 2 3 point_count analog_count 1 1 0 (Fin 60) 0 (Fin (-1)) 0.

(** The POINT group that goes with [header]. *)
Definition with_point_group (used : Z) (m : Manager.t) : Manager.t :=
  with_param 1 "DATA_START" (param_kw 2 [] (u16 3))
    (with_param 1 "RATE" (param_kw 4 [] (f32 (Fin 60)))
       (with_param 1 "SCALE" (param_kw 4 [] (f32 (Fin (-1))))
          (with_param 1 "USED" (param_kw 2 [] (u16 used))
             (with_group 1 "POINT" "POINT group" m)))).

(** A store with two analog channels sampled at 120 Hz, twice the frame
    rate, whose header announces 3 analog samples in each frame. *)
Definition analog_store : Manager.t :=
  with_param 2 "RATE" (param_kw 4 [] (f32 (Fin 120)))
    (with_param 2 "USED" (param_kw 2 [] (u16 2))
       (with_group 2 "ANALOG" "ANALOG group"
          (with_point_group 1 (Manager.init (header 1 3))))).

(** A directory chunk of two records.  The first, at offset 0, is the
    header of group 1, named "A", with an empty description and the
    offset field 3.  The second, at offset 6, is a parameter "B" of
    group 1 of one 1-byte element, whose offset field is -7: it points
    back before the start of its own record. *)
Definition backward_chunk : list byte :=
  bytes_of [1; 255; 65; 3; 0; 0;
            1; 1; 66; 249; 255; 1; 0; 7; 0].

Definition empty_store : Manager.t := Manager.init Header.default.

(** The manager after the first iteration of the directory loop. *)
Definition next_store (m : Manager.t) (bytes : list byte) : Manager.t :=
  match Reader.step m bytes with
  | Ok (Reader.Continue m' _) => m'
  | _ => m
  end.

(** A directory chunk of three records and the end marker: the parameters
    "A" and "B" of group 1, each of one 1-byte element, and then the
    header of group 1, named "G", with the description "d". *)
Definition late_header_chunk : list byte :=
  bytes_of [1; 1; 65; 6; 0; 1; 0; 7; 0;
            1; 1; 66; 6; 0; 1; 0; 8; 0;
            1; 255; 71; 4; 0; 1; 100;
            0; 0].

Definition late_header_params : list Directory.record :=
  [Directory.RParam 1 "A" (drop 5 late_header_chunk);
   Directory.RParam 1 "B" (drop 14 late_header_chunk)].

Definition late_header : Directory.record := Directory.RGroup 1 "G" "d".

(** The chunk [late_header_chunk] with its second parameter named "a"
    in place of "B": the two parameter records of group 1 have the same
    upper-cased name, and the values 7 and 8. *)
Definition same_name_chunk : list byte :=
  bytes_of [1; 1; 65; 6; 0; 1; 0; 7; 0;
            1; 1; 97; 6; 0; 1; 0; 8; 0;
            1; 255; 71; 4; 0; 1; 100;
            0; 0].

(** The parameters that the two parameter records of [same_name_chunk]
    carry. *)
Definition same_name_params : list Param.t :=
  [Param.mk "A" "" 1 [] (bytes_of [7]); Param.mk "A" "" 1 [] (bytes_of [8])].

(** The manager after all the records of a list. *)
Definition after (recs : list Directory.record) (m : Manager.t) : Manager.t :=
  match Directory.apply_all recs m with
  | Ok m' => m'
  | Raise _ => m
  end.

(** A store for one point in each frame and no analog samples, in float
    storage ([POINT:SCALE] is -1). *)
Definition point_store : Manager.t :=
  with_point_group 1 (Manager.init (header 1 0)).

(** The valid point (1, 2, 3) with no residual and no camera. *)
Definition one_point : list Reader.point :=
  [Reader.mkPoint (Fin 1) (Fin 2) (Fin 3) (Fin 0) (Fin 0)].

(** A writer with the default arguments (at 60 frames per second) whose
    manager is [point_store], holding the given frames. *)
Definition writer (frames : list (list Reader.point * list float)) : Writer.t :=
  Writer.mk point_store (Fin 60) (Fin 0) (Fin (-1)) "mm  " (Fin 1) frames.

(** A file of two blocks, positioned at the start of the data section. *)
Definition data_handle : handle := mkHandle (replicate 1024 x00) 1024 [].

(** A store with the group POINT, which holds the parameter LABELS: 50
    labels of 5 characters. *)
Definition labels_store : Manager.t :=
  with_param 1 "LABELS"
    (Param.mkKw (Some "labels"%string) (Some (-1)) (Some [5; 50])
       (Some (replicate 250 x20)) None [])
    (with_group 1 "POINT" "POINT group" empty_store).

(** The parameter USED of a group: one 16-bit value, 2. *)
Definition used_param : Param.t := Param.mk "USED" "count" 2 [] (u16 2).

(** The group POINT with the one parameter [used_param]. *)
Definition used_group : Group.t :=
  Group.mk (Some "POINT"%string) (Some "points"%string)
           {[ "USED"%string := used_param ]}.

(** A parameter LABELS of three labels of two characters. *)
Definition labels_param : Param.t :=
  Param.mk "LABELS" "" (-1) [2; 3] (bytes_of [65; 66; 67; 68; 69; 70]).

(** A directory chunk whose only record leads back to itself: the
    parameter "A" of group 1, of one 1-byte element, with the offset
    field -3, so that the slice index is 0. *)
Definition stuck_chunk : list byte :=
  bytes_of [1; 1; 65; 253; 255; 1; 0; 7; 0].

(** The 512 bytes of the default header. *)
Definition header_bytes : list byte :=
  match Header.pack Header.default with
  | Ok bs => bs
  | Raise _ => []
  end.

(** A file whose parameter section announces the processor 83. *)
Definition other_processor_file : handle :=
  Handle.open (header_bytes ++ bytes_of [0; 0; 1; 83] ++ replicate 508 x00).

(** A file of two blocks followed by the 16 bytes of one frame of one
    point, (1, 2, 3), in float storage. *)
Definition frame_file : handle :=
  Handle.open (replicate 1024 x00 ++
               f32 (Fin 1) ++ f32 (Fin 2) ++ f32 (Fin 3) ++ f32 (Fin 0)).

(** The group POINT of [point_store]. *)
Definition point_group : Group.t :=
  default Group.empty (Manager.heap point_store !! 0%nat).

(** The parameter section of a file for [point_store], as [Group.write]
    writes the group POINT after the four bytes that open the section,
    padded with zero bytes to one block. *)
Definition point_section : list byte :=
  let records :=
    contents (snd (Group.write 1 point_group
                     (map_to_list (Group.params point_group)).*2
                     (Handle.open []))) in
  bytes_of [0; 0; 1; 84] ++ records ++ replicate (508 - length records) x00.

(** A file for [point_store]: its header and its parameter section. *)
Definition point_file : handle :=
  Handle.open
    (match Header.pack (header 1 0) with
     | Ok bs => bs
     | Raise _ => []
     end ++ point_section).

End Example.

(** * Properties *)

(** ** Bits and bytes *)

Lemma testbit_one (n : Z) : 0 <= n -> Z.testbit 1 n = (n =? 0).
Proof.
  intros Hn. destruct (Z.eqb_spec n 0) as [->|Hne]; [reflexivity|].
  apply Z.bits_above_log2; simpl; lia.
Qed.

Lemma testbit_b2z (b : bool) (n : Z) :
  0 <= n -> Z.testbit (Z.b2z b) n = b && (n =? 0).
Proof.
  intros Hn. destruct b; simpl Z.b2z.
  - now rewrite testbit_one.
  - now rewrite Z.bits_0.
Qed.

(** [(c & (1 << k)) >> k] is bit [k] of [c]. *)
Lemma mask_shift_bit (c k : Z) :
  0 <= k -> Z.shiftr (Z.land c (Z.shiftl 1 k)) k = Z.b2z (Z.testbit c k).
Proof.
  intros Hk. apply Z.bits_inj'. intros n Hn.
  rewrite Z.shiftr_spec, Z.land_spec, Z.shiftl_spec by lia.
  replace (n + k - k) with n by lia.
  rewrite testbit_one, testbit_b2z by lia.
  destruct (Z.eqb_spec n 0) as [->|Hne].
  - now rewrite Z.add_0_l, andb_true_r.
  - now rewrite !andb_false_r.
Qed.

Lemma camera_fold (c : Z) (l : list Z) (acc : Z) :
  Forall (fun k => 0 <= k) l ->
  fold_left (fun acc k => acc + Z.shiftr (Z.land c (Z.shiftl 1 k)) k) l acc
  = acc + Z.of_nat (length (List.filter (Z.testbit c) l)).
Proof.
  intros Hl. revert acc. induction Hl as [|k l Hk _ IH]; intros acc; simpl.
  - lia.
  - rewrite IH, mask_shift_bit by assumption.
    destruct (Z.testbit c k); simpl Z.b2z; simpl length; lia.
Qed.

(** The sum of [read_frames] counts the set bits 8 to 16. *)
Lemma camera_sum_set_bits (c : Z) : Reader.camera_sum c = set_bits c 8 9.
Proof.
  unfold Reader.camera_sum, set_bits. rewrite camera_fold; [lia|].
  repeat constructor; lia.
Qed.

Lemma astype_uint16_range (x : float) : 0 <= Float.astype_uint16 x < 65536.
Proof.
  destruct x as [q| |]; cbn [Float.astype_uint16]; try lia.
  unfold Float.cast_low. cbv zeta. destruct (_ && _); [|lia].
  apply Z.mod_pos_bound. lia.
Qed.

Lemma testbit_above (c n : Z) : 0 <= c < 2 ^ n -> 0 <= n -> Z.testbit c n = false.
Proof.
  intros Hc Hn. destruct (Z.eq_dec c 0) as [->|Hne]; [apply Z.bits_0|].
  apply Z.bits_above_log2; [lia|]. apply Z.log2_lt_pow2; lia.
Qed.

Lemma set_bits_8_16_bound (c : Z) : 0 <= c < 65536 -> 0 <= set_bits c 8 9 <= 8.
Proof.
  intros Hc. unfold set_bits.
  change (seqZ 8 9) with [8; 9; 10; 11; 12; 13; 14; 15; 16].
  assert (H16 : Z.testbit c 16 = false) by (apply testbit_above; lia).
  cbn [List.filter]. rewrite H16.
  repeat match goal with |- context [Z.testbit c ?k] => destruct (Z.testbit c k) end;
    cbn [length]; lia.
Qed.

Lemma Qltb_inject (a b : Z) : Float.Qltb (inject_Z a) (inject_Z b) = (a <? b).
Proof.
  unfold Float.Qltb. destruct (Qlt_le_dec (inject_Z a) (inject_Z b)) as [Hl|Hl].
  - rewrite <- Zlt_Qlt in Hl. symmetry. now apply Z.ltb_lt.
  - rewrite <- Zle_Qle in Hl. symmetry. now apply Z.ltb_ge.
Qed.

Lemma Qtrunc_inject (z : Z) : Float.Qtrunc (inject_Z z) = z.
Proof.
  unfold Float.Qtrunc. destruct (Float.Qltb (inject_Z z) 0).
  - apply Qceiling_Z.
  - apply Qfloor_Z.
Qed.

(** ** Decoding of a point record *)

(** C2, as amended.  The decoder tests the 4th raw value itself, not its
    unsigned reinterpretation [c]: when the value is not greater than -1
    both the residual error and the camera count are -1; otherwise the
    residual error is [(c & 0xFF) * |scale_factor|] and the camera count
    is the number of set bits of [c] among the positions 8 to 16.  For a
    value stored as a signed 16-bit integer the first case is [c >= 32768],
    of which the sentinel 65535 is one instance. *)
Theorem decode_point_fourth_value (sf point_scale r0 r1 r2 r3 : float) :
  let p := Reader.decode_point (Float.abs sf) point_scale (r0, r1, r2, r3) in
  let c := Float.astype_uint16 r3 in
  (Float.ltb (Float.of_Z (-1)) r3 = false ->
     Reader.perr p = Float.of_Z (-1) /\ Reader.pcam p = Float.of_Z (-1)) /\
  (Float.ltb (Float.of_Z (-1)) r3 = true ->
     Reader.perr p = Float.mul (Float.of_Z (Z.land c 255)) (Float.abs sf) /\
     Reader.pcam p = Float.of_Z (set_bits c 8 9)) /\
  (forall z : Z, -32768 <= z < 32768 -> r3 = Float.of_Z z ->
     c = z mod 65536 /\
     (Float.ltb (Float.of_Z (-1)) r3 = false <-> 32768 <= c)).
Proof.
  cbv zeta. unfold Reader.decode_point.
  split; [|split].
  - intros ->. now simpl.
  - intros ->. simpl. now rewrite camera_sum_set_bits.
  - intros z Hz ->. unfold Float.astype_uint16, Float.of_Z, Float.cast_low.
    rewrite Qtrunc_inject. cbv zeta.
    replace ((- 2 ^ 31 <=? z) && (z <? 2 ^ 31)) with true
      by (symmetry; apply andb_true_iff; split;
          [apply Z.leb_le|apply Z.ltb_lt]; lia).
    change (2 ^ 16) with 65536. split; [reflexivity|].
    unfold Float.ltb. rewrite Qltb_inject.
    destruct (Z.ltb_spec (-1) z) as [Hpos|Hneg].
    + rewrite Z.mod_small by lia. split; [discriminate | lia].
    + replace (z mod 65536) with (z + 65536).
      * split; [lia | reflexivity].
      * apply Z.mod_unique with (q := -1); lia.
Qed.

(** C2, as stated, fails: the stored integer -2 reinterprets as
    [c = 65534], which is not the sentinel, and the decoder still marks the
    point invalid. *)
Lemma decode_point_sentinel_counterexample :
  ~ (let r3 := Float.of_Z (-2) in
     let p := Reader.decode_point (Float.abs (Fin 1)) (Fin 1) (Fin 0, Fin 0, Fin 0, r3) in
     let c := Float.astype_uint16 r3 in
     (c = 65535 ->
        Float.same (Reader.perr p) (Float.of_Z (-1)) /\
        Float.same (Reader.pcam p) (Float.of_Z (-1))) /\
     (c <> 65535 ->
        Float.same (Reader.perr p)
                   (Float.mul (Float.of_Z (Z.land c 255)) (Float.abs (Fin 1))) /\
        Float.same (Reader.pcam p) (Float.of_Z (set_bits c 8 9)))).
Proof.
  cbv zeta. intros [_ H].
  destruct H as [_ H]; [vm_compute; discriminate|].
  vm_compute in H. discriminate H.
Qed.

(** C10.  The camera count of a valid decoded point is an integer between
    0 and 8: the 4th raw value is taken as an unsigned 16-bit integer,
    whose bit 16 is never set, so at most the 8 bits 8 to 15 contribute. *)
Theorem camera_count_at_most_8 (scale point_scale r0 r1 r2 r3 : float) :
  Float.ltb (Float.of_Z (-1)) r3 = true ->
  let p := Reader.decode_point scale point_scale (r0, r1, r2, r3) in
  Z.testbit (Float.astype_uint16 r3) 16 = false /\
  exists n : Z, Reader.pcam p = Float.of_Z n /\ 0 <= n <= 8.
Proof.
  intros Hvalid. cbv zeta. unfold Reader.decode_point. rewrite Hvalid.
  cbn [Reader.pcam].
  pose proof (astype_uint16_range r3) as Hc. split.
  - apply testbit_above; lia.
  - exists (Reader.camera_sum (Float.astype_uint16 r3)). split; [reflexivity|].
    rewrite camera_sum_set_bits. now apply set_bits_8_16_bound.
Qed.

(** In float storage the 4th value 65535.0 is valid and has the bits 8 to
    15 set: the bound is reached. *)
Lemma camera_count_at_most_8_witness :
  Float.ltb (Float.of_Z (-1)) (Float.of_Z 65535) = true /\
  (let p := Reader.decode_point (Fin 1) (Fin 1) (Fin 0, Fin 0, Fin 0, Float.of_Z 65535) in
   Z.testbit (Float.astype_uint16 (Float.of_Z 65535)) 16 = false /\
   exists n : Z, Reader.pcam p = Float.of_Z n /\ 0 <= n <= 8).
Proof.
  split; [reflexivity|].
  apply (camera_count_at_most_8 (Fin 1) (Fin 1) (Fin 0) (Fin 0) (Fin 0) (Float.of_Z 65535)).
  reflexivity.
Defined.

(** ** The group dictionary *)

Section GroupDictionary.
Context `{Text}.

(** C9.  [add_group(group_id, name, desc)] raises [KeyError] when a group
    is stored under the numeric id or under the upper-cased name, and then
    the manager is the one before the call; otherwise it makes exactly one
    new [Group], stored under the numeric id and under the upper-cased
    name, and changes nothing else. *)
Theorem add_group_spec (m : Manager.t) (group_id : Z) (name desc : string) :
  let NAME := str_upper name in
  let out := Manager.add_group group_id name desc m in
  (is_Some (Manager.groups m !! KInt group_id) \/
   is_Some (Manager.groups m !! KStr NAME) ->
     (exists k, fst out = Raise (KeyError k) /\ (k = KInt group_id \/ k = KStr NAME)) /\
     snd out = m) /\
  (Manager.groups m !! KInt group_id = None /\
   Manager.groups m !! KStr NAME = None ->
     let r := length (Manager.heap m) in
     let m' := snd out in
     fst out = Ok r /\
     Manager.header m' = Manager.header m /\
     Manager.heap m' = Manager.heap m ++ [Group.mk (Some NAME) (Some desc) ∅] /\
     Manager.groups m' !! KInt group_id = Some r /\
     Manager.groups m' !! KStr NAME = Some r /\
     (forall k, k <> KInt group_id -> k <> KStr NAME ->
                Manager.groups m' !! k = Manager.groups m !! k)).
Proof.
  cbv zeta. unfold Manager.add_group. split.
  - intros Hin.
    destruct (decide (is_Some (Manager.groups m !! KInt group_id))) as [|Hid].
    + split; [|reflexivity]. exists (KInt group_id). split; [reflexivity | now left].
    + destruct (decide (is_Some (Manager.groups m !! KStr (str_upper name)))) as [|Hname].
      * split; [|reflexivity].
        exists (KStr (str_upper name)). split; [reflexivity | now right].
      * destruct Hin; contradiction.
  - intros [Hid Hname].
    destruct (decide (is_Some (Manager.groups m !! KInt group_id))) as [[r Hr]|_];
      [congruence|].
    destruct (decide (is_Some (Manager.groups m !! KStr (str_upper name)))) as [[r Hr]|_];
      [congruence|].
    cbn. repeat split.
    + apply lookup_insert_eq.
    + rewrite lookup_insert_ne by discriminate. apply lookup_insert_eq.
    + intros k Hk1 Hk2. now rewrite !lookup_insert_ne by congruence.
Qed.

End GroupDictionary.

(** ** The header *)

Lemma field_magic (b0 b : byte) (rest : list byte) :
  le_uint (Header.field 1 1 (take 512 (b0 :: b :: rest))) = u8 b.
Proof.
  unfold Header.field.
  change (take 512 (b0 :: b :: rest)) with (b0 :: b :: take 510 rest).
  cbn [drop take le_uint]. rewrite take_0. cbn [le_uint]. lia.
Qed.

Section HeaderMagic.
Context `{Text}.

(** C6.  When the byte at offset 1 of a file of at least 512 bytes is not
    80, [Header.read] raises the [AssertionError] of the magic check after
    one seek to 0 and one read of 512 bytes, and [Reader(handle)] raises
    the same exception without any further call on the handle. *)
Theorem header_bad_magic (fuel : nat) (h : handle) (b : byte) :
  (512 <= length (contents h))%nat ->
  contents h !! 1%nat = Some b ->
  u8 b <> 80 ->
  let h' := mkHandle (contents h) 512 (EvRead 512 :: EvSeek 0 :: log h) in
  Header.read h = (Raise (AssertionError (BadMagic (u8 b))), h') /\
  Reader.init fuel h = Some (Raise (AssertionError (BadMagic (u8 b))), h').
Proof.
  intros Hlen Hb Hmagic. cbv zeta.
  assert (Hread : Header.read h =
                  (Raise (AssertionError (BadMagic (u8 b))),
                   mkHandle (contents h) 512 (EvRead 512 :: EvSeek 0 :: log h))).
  { unfold Header.read, Handle.seek, Handle.read.
    cbn [Z.ltb Z.compare contents position log].
    change (Z.to_nat 0) with 0%nat. change (Z.to_nat 512) with 512%nat.
    rewrite drop_0.
    assert (Hl : length (take 512 (contents h)) = 512%nat)
      by (rewrite length_take; lia).
    rewrite Hl.
    destruct (decide (512%nat = 512%nat)) as [_|Hne]; [|congruence].
    destruct (contents h) as [|b0 [|b1 rest]]; try discriminate.
    injection Hb as ->.
    rewrite field_magic.
    unfold assert. destruct (Z.eqb_spec (u8 b) 80) as [He|_]; [contradiction|].
    reflexivity. }
  split; [exact Hread|].
  unfold Reader.init, Header.init. now rewrite Hread.
Qed.

End HeaderMagic.

Lemma header_bad_magic_witness :
  let h := Handle.open (replicate 512 x00) in
  (512 <= length (contents h))%nat /\
  contents h !! 1%nat = Some x00 /\
  u8 x00 <> 80 /\
  (let h' := mkHandle (contents h) 512 (EvRead 512 :: EvSeek 0 :: log h) in
   Header.read h = (Raise (AssertionError (BadMagic (u8 x00))), h') /\
   @Reader.init Ascii7.text 0 h = Some (Raise (AssertionError (BadMagic (u8 x00))), h')).
Proof.
  cbv zeta.
  assert (H1 : (512 <= length (contents (Handle.open (replicate 512 x00))))%nat)
    by (vm_compute; lia).
  assert (H2 : contents (Handle.open (replicate 512 x00)) !! 1%nat = Some x00)
    by reflexivity.
  assert (H3 : u8 x00 <> 80) by (vm_compute; discriminate).
  split; [exact H1|]. split; [exact H2|]. split; [exact H3|].
  exact (@header_bad_magic Ascii7.text 0%nat
           (Handle.open (replicate 512 x00)) x00 H1 H2 H3).
Defined.

(** ** Consistency of the metadata *)

Lemma Qeq_bool_proper_r (x y y' : Q) : Qeq y y' -> Qeq_bool x y = Qeq_bool x y'.
Proof.
  intros Hy.
  destruct (Qeq_bool x y) eqn:E1, (Qeq_bool x y') eqn:E2; try reflexivity.
  - apply Qeq_bool_iff in E1. apply Qeq_bool_neq in E2. exfalso. apply E2.
    now rewrite E1.
  - apply Qeq_bool_iff in E2. apply Qeq_bool_neq in E1. exfalso. apply E1.
    now rewrite E2, Hy.
Qed.

Lemma is_zero_proper (a b : Q) : Qeq a b -> Float.is_zero a = Float.is_zero b.
Proof.
  intros Hab. unfold Float.is_zero.
  destruct (Qeq_bool a 0) eqn:E1, (Qeq_bool b 0) eqn:E2; try reflexivity.
  - apply Qeq_bool_iff in E1. apply Qeq_bool_neq in E2. exfalso. apply E2.
    now rewrite <- Hab.
  - apply Qeq_bool_iff in E2. apply Qeq_bool_neq in E1. exfalso. apply E1.
    now rewrite Hab.
Qed.

(** [used * rate / fr], as [check_metadata] computes it, compares with an
    integer as [used * (rate / hfr)] does when [hfr == fr]. *)
Lemma analog_count_assoc (n used : Z) (afr hfr fr q : float) :
  Float.eqb hfr fr = true ->
  Float.div afr hfr = Ok q ->
  exists apf,
    Float.div (Float.mul (Float.of_Z used) afr) fr = Ok apf /\
    Float.eqb (Float.of_Z n) apf
    = Float.eqb (Float.of_Z n) (Float.mul (Float.of_Z used) q).
Proof.
  intros Heq Hdiv.
  destruct hfr as [a|s|], fr as [b|t|]; try discriminate Heq.
  - (* finite frame rates *)
    cbn in Heq. apply Qeq_bool_iff in Heq.
    assert (Hz : Float.is_zero a = Float.is_zero b) by now apply is_zero_proper.
    unfold Float.div in Hdiv.
    destruct afr as [x|u|];
      (destruct (Float.is_zero a) eqn:Ea; [discriminate|]);
      symmetry in Hz; injection Hdiv as <-;
      unfold Float.mul, Float.of_Z, Float.div; rewrite ?Hz.
    + eexists. split; [reflexivity|].
      unfold Float.eqb. apply Qeq_bool_proper_r.
      unfold Float.is_zero in Ea. apply Qeq_bool_neq in Ea.
      assert (Hb : ~ Qeq b 0) by now rewrite <- Heq.
      rewrite !Qred_correct, <- Heq. field. exact Ea.
    + destruct (Float.is_zero (inject_Z used)); rewrite ?Hz;
        eexists; (split; [reflexivity|reflexivity]).
    + eexists; (split; [reflexivity|reflexivity]).
  - (* infinite frame rates *)
    unfold Float.div in Hdiv.
    destruct afr as [x|u|]; injection Hdiv as <-;
      unfold Float.mul, Float.of_Z, Float.div.
    + eexists. split; [reflexivity|]. unfold Float.eqb. apply Qeq_bool_proper_r.
      rewrite Qred_correct. ring.
    + destruct (Float.is_zero (inject_Z used));
        eexists; (split; [reflexivity|reflexivity]).
    + eexists; (split; [reflexivity|reflexivity]).
Qed.

Section Consistency.
Context `{Text}.

(** C8.  Once the point-count, scale-factor and frame-rate checks have
    passed, [check_metadata] compares [header.analog_count] with
    [ANALOG:USED * (ANALOG:RATE / header.frame_rate)] (0 standing for a
    missing [ANALOG:USED] or [ANALOG:RATE]): when they differ it raises
    the [AssertionError] whose message carries the header value and the
    three directory values, and when they are equal it goes on to the
    data-block check. *)
Theorem check_metadata_analog_count
    (m : Manager.t) (ppf used : Z) (sf fr afr expected : float) :
  let hd := Manager.header m in
  Manager.points_per_frame m = Ok ppf ->
  Header.point_count hd = ppf ->
  Manager.scale_factor m = Ok sf ->
  Float.eqb (Header.scale_factor hd) sf = true ->
  Manager.frame_rate m = Ok fr ->
  Float.eqb (Header.frame_rate hd) fr = true ->
  Manager.analog_per_frame m = Ok used ->
  Manager.analog_frame_rate m = Ok afr ->
  (q <- Float.div afr (Header.frame_rate hd);;
   Ok (Float.mul (Float.of_Z used) q)) = Ok expected ->
  (Float.eqb (Float.of_Z (Header.analog_count hd)) expected = false ->
     Manager.check_metadata m
     = Raise (AssertionError
                (InconsistentAnalogCount (Header.analog_count hd) used afr fr))) /\
  (Float.eqb (Float.of_Z (Header.analog_count hd)) expected = true ->
     Manager.check_metadata m
     = (start <- Manager.get_uint16 "POINT:DATA_START" m;;
        _ <- assert (Header.data_block hd =? start)
               (InconsistentDataBlock (Header.data_block hd) start);;
        Ok (filter (fun name => Manager.is_default (Manager.get name m) = true)
                   Manager.expected_params))).
Proof.
  cbv zeta. intros Hppf Hpc Hsf Hsfeq Hfr Hfreq Hused Hafr Hexp.
  destruct (Float.div afr (Header.frame_rate (Manager.header m))) as [q|] eqn:Hq;
    [|discriminate].
  assert (Hexp' : expected = Float.mul (Float.of_Z used) q)
    by (cbn [bind] in Hexp; congruence).
  subst expected. clear Hexp.
  destruct (analog_count_assoc (Header.analog_count (Manager.header m))
              used afr _ fr q Hfreq Hq) as (apf & Hapf & Hcmp).
  unfold Manager.check_metadata.
  rewrite Hppf, Hsf, Hfr, Hused, Hafr. cbn [bind].
  rewrite Hpc, Z.eqb_refl, Hsfeq, Hfreq. cbn [assert bind].
  rewrite Hapf. cbn [bind]. rewrite Hcmp.
  split; intros ->; reflexivity.
Qed.

End Consistency.

Lemma check_metadata_analog_count_witness :
  let m := Example.analog_store in
  let hd := Manager.header m in
  @Manager.points_per_frame Ascii7.text m = Ok 1 /\
  @Manager.analog_per_frame Ascii7.text m = Ok 2 /\
  @Manager.analog_frame_rate Ascii7.text m = Ok (Fin 120) /\
  Float.eqb (Float.of_Z (Header.analog_count hd)) (Fin 4) = false /\
  @Manager.check_metadata Ascii7.text m
  = Raise (AssertionError (InconsistentAnalogCount 3 2 (Fin 120) (Fin 60))).
Proof.
  cbv zeta.
  assert (H1 : @Manager.points_per_frame Ascii7.text Example.analog_store = Ok 1)
    by (vm_compute; reflexivity).
  assert (H2 : Header.point_count (Manager.header Example.analog_store) = 1)
    by reflexivity.
  assert (H3 : @Manager.scale_factor Ascii7.text Example.analog_store = Ok (Fin (-1)))
    by (vm_compute; reflexivity).
  assert (H4 : Float.eqb (Header.scale_factor (Manager.header Example.analog_store))
                 (Fin (-1)) = true) by reflexivity.
  assert (H5 : @Manager.frame_rate Ascii7.text Example.analog_store = Ok (Fin 60))
    by (vm_compute; reflexivity).
  assert (H6 : Float.eqb (Header.frame_rate (Manager.header Example.analog_store))
                 (Fin 60) = true) by reflexivity.
  assert (H7 : @Manager.analog_per_frame Ascii7.text Example.analog_store = Ok 2)
    by (vm_compute; reflexivity).
  assert (H8 : @Manager.analog_frame_rate Ascii7.text Example.analog_store = Ok (Fin 120))
    by (vm_compute; reflexivity).
  assert (H9 : (q <- Float.div (Fin 120)
                      (Header.frame_rate (Manager.header Example.analog_store));;
                Ok (Float.mul (Float.of_Z 2) q)) = Ok (Fin 4))
    by (vm_compute; reflexivity).
  assert (H10 : Float.eqb
                  (Float.of_Z (Header.analog_count (Manager.header Example.analog_store)))
                  (Fin 4) = false) by reflexivity.
  split; [exact H1|]. split; [exact H7|]. split; [exact H8|]. split; [exact H10|].
  exact (proj1 (@check_metadata_analog_count Ascii7.text Example.analog_store
                  1 2 (Fin (-1)) (Fin 60) (Fin 120) (Fin 4)
                  H1 H2 H3 H4 H5 H6 H7 H8 H9) H10).
Defined.

(** ** The directory scan *)

Section DirectoryScan.
Context `{Text}.

(** An iteration of the loop that goes on has read a name length and a
    group id that are not 0 and an offset field, and leaves the slice of
    [bytes] that the offset field selects. *)
Lemma step_continue_inv (m m' : Manager.t) (bytes bytes' : list byte) :
  Reader.step m bytes = Ok (Reader.Continue m' bytes') ->
  exists b0 b1 rest next_offset,
    bytes = b0 :: b1 :: rest /\
    signed 8 (u8 b1) <> 0 /\ signed 8 (u8 b0) <> 0 /\
    Struct.unpack_h (take 2 (drop (Z.to_nat (Z.abs (signed 8 (u8 b0)))) rest))
    = Ok next_offset /\
    bytes' = slice_from (2 + Z.abs (signed 8 (u8 b0)) + next_offset) bytes.
Proof.
  unfold Reader.step. intros Hstep.
  destruct bytes as [|b0 [|b1 rest]]; try discriminate Hstep.
  change (buf_read 2 (b0 :: b1 :: rest)) with ([b0; b1], rest) in Hstep.
  cbv iota beta in Hstep.
  destruct (signed 8 (u8 b1) =? 0) eqn:Hg; [discriminate|].
  destruct (signed 8 (u8 b0) =? 0) eqn:Hl; [discriminate|].
  cbn [orb] in Hstep.
  unfold buf_read at 1 in Hstep.
  destruct (decode _) as [name|]; [|discriminate].
  cbn [bind] in Hstep.
  unfold buf_read at 1 in Hstep.
  destruct (Struct.unpack_h _) as [off|] eqn:Hoff; [|discriminate].
  cbn [bind] in Hstep.
  match type of Hstep with bind ?X _ = _ => destruct X as [m1|]; [|discriminate] end.
  cbn [bind] in Hstep. injection Hstep as <- <-.
  exists b0, b1, rest, off. repeat split.
  - now apply Z.eqb_neq.
  - now apply Z.eqb_neq.
  - exact Hoff.
Qed.

(** C3, as amended.  When the decoder has processed the record at
    [record_start], whose name-length byte is [L] and whose offset field
    is [next_offset], and [2 + |L| + next_offset] is not negative, the
    scan resumes at [record_start + 2 + |L| + next_offset] of the
    directory chunk, whatever the parse of the record consumed.  When it
    is negative, the slice counts from the end of the chunk. *)
Theorem directory_scan_resumes (m m' : Manager.t) (chunk bytes' : list byte)
    (record_start : nat) :
  Reader.step m (drop record_start chunk) = Ok (Reader.Continue m' bytes') ->
  exists (b0 : byte) (next_offset : Z),
    chunk !! record_start = Some b0 /\
    let L := signed 8 (u8 b0) in
    Struct.unpack_h (take 2 (drop (record_start + 2 + Z.to_nat (Z.abs L)) chunk))
    = Ok next_offset /\
    let k := 2 + Z.abs L + next_offset in
    (0 <= k -> bytes' = drop (Z.to_nat (Z.of_nat record_start + k)) chunk) /\
    (k < 0 ->
     bytes' = drop (record_start +
                    Z.to_nat (Z.of_nat (length chunk) - Z.of_nat record_start + k))
                   chunk).
Proof.
  intros Hstep.
  destruct (step_continue_inv _ _ _ _ Hstep)
    as (b0 & b1 & rest & off & Hbytes & _ & _ & Hoff & ->).
  exists b0, off. split; [|cbv zeta; split; [|split]].
  - rewrite <- (Nat.add_0_r record_start), <- lookup_drop, Hbytes. reflexivity.
  - assert (Hrest : rest = drop (record_start + 2) chunk).
    { rewrite <- drop_drop, Hbytes. reflexivity. }
    rewrite Hrest, drop_drop in Hoff. exact Hoff.
  - intros Hk. unfold slice_from.
    destruct (Z.ltb_spec (2 + Z.abs (signed 8 (u8 b0)) + off) 0) as [|_]; [lia|].
    rewrite drop_drop. f_equal. lia.
  - intros Hk. unfold slice_from.
    destruct (Z.ltb_spec (2 + Z.abs (signed 8 (u8 b0)) + off) 0) as [_|]; [|lia].
    rewrite drop_drop, length_drop. f_equal. f_equal.
    assert (record_start < length chunk)%nat.
    { destruct (Nat.lt_ge_cases record_start (length chunk)) as [|Hge]; [assumption|].
      rewrite drop_ge in Hbytes by assumption. discriminate. }
    lia.
Qed.

End DirectoryScan.

Lemma directory_scan_resumes_witness :
  let m := Example.empty_store in
  let chunk := Example.backward_chunk in
  @Reader.step Ascii7.text m (drop 0 chunk)
  = Ok (Reader.Continue (Example.next_store m chunk) (drop 6 chunk)) /\
  exists (b0 : byte) (next_offset : Z),
    chunk !! 0%nat = Some b0 /\
    let L := signed 8 (u8 b0) in
    Struct.unpack_h (take 2 (drop (0 + 2 + Z.to_nat (Z.abs L)) chunk))
    = Ok next_offset /\
    let k := 2 + Z.abs L + next_offset in
    (0 <= k -> drop 6 chunk = drop (Z.to_nat (Z.of_nat 0 + k)) chunk) /\
    (k < 0 ->
     drop 6 chunk = drop (0 + Z.to_nat (Z.of_nat (length chunk) - Z.of_nat 0 + k)) chunk).
Proof.
  cbv zeta.
  assert (Hstep : @Reader.step Ascii7.text Example.empty_store
                    (drop 0 Example.backward_chunk)
                  = Ok (Reader.Continue
                          (Example.next_store Example.empty_store Example.backward_chunk)
                          (drop 6 Example.backward_chunk)))
    by (vm_compute; reflexivity).
  split; [exact Hstep|].
  exact (@directory_scan_resumes Ascii7.text _ _ _ _ 0%nat Hstep).
Defined.

(** C3, as stated, fails.  The record at offset 6 of [backward_chunk] has
    the name length 1 and the offset field -7, so the claim puts the next
    record at offset [6 + 2 + 1 - 7 = 2]; the decoder goes on at offset
    11, four bytes before the end of the chunk. *)
Lemma directory_scan_backward_offset_counterexample :
  ~ (forall m' bytes',
       @Reader.step Ascii7.text Example.empty_store (drop 6 Example.backward_chunk)
       = Ok (Reader.Continue m' bytes') ->
       bytes' = drop (Z.to_nat (6 + 2 + Z.abs 1 + (-7))) Example.backward_chunk).
Proof.
  intros Hclaim.
  assert (Hstep : @Reader.step Ascii7.text Example.empty_store
                    (drop 6 Example.backward_chunk)
                  = Ok (Reader.Continue
                          (Example.next_store Example.empty_store
                             (drop 6 Example.backward_chunk))
                          (drop 11 Example.backward_chunk)))
    by (vm_compute; reflexivity).
  specialize (Hclaim _ _ Hstep). vm_compute in Hclaim. discriminate Hclaim.
Qed.

(** ** Parameters that precede the header of their group *)

Section LateHeader.
Context `{Text}.
Import Directory.
Variable G : Z.

(** [Reader.step] reads a record and then applies it. *)
Lemma step_read_apply (m : Manager.t) (bytes : list byte) :
  Reader.step m bytes
  = (r <- read_record bytes;;
     match r with
     | None => Ok Reader.Break
     | Some (rec, k) =>
         m' <- apply_record rec m;;
         Ok (Reader.Continue m' (slice_from k bytes))
     end).
Proof.
  unfold Reader.step, read_record.
  destruct (buf_read 2 bytes) as [b buf].
  destruct b as [|b0 [|b1 [|b2 b]]]; try reflexivity.
  destruct ((signed 8 (u8 b1) =? 0) || (signed 8 (u8 b0) =? 0)); [reflexivity|].
  destruct (buf_read (Z.abs (signed 8 (u8 b0))) buf) as [nb buf1].
  destruct (decode nb) as [name|]; [|reflexivity]. cbn [bind].
  destruct (buf_read 2 buf1) as [ob buf2].
  destruct (Struct.unpack_h ob) as [off|]; [|reflexivity]. cbn [bind].
  destruct (0 <? signed 8 (u8 b1)).
  - reflexivity.
  - destruct (buf_read 1 buf2) as [sb buf3].
    destruct (Struct.unpack_B sb) as [size|]; [|reflexivity]. cbn [bind].
    unfold apply_record.
    destruct (Manager.get_int (Z.abs (signed 8 (u8 b1))) m); reflexivity.
Qed.

Lemma loop_scan (bytes rest : list byte) (recs : list record) :
  scan bytes recs rest ->
  forall m m' fuel,
    apply_all recs m = Ok m' ->
    Reader.loop (length recs + fuel) m bytes = Reader.loop fuel m' rest.
Proof.
  induction 1 as [bytes|bytes rec k recs rest Hread Hscan IH]; intros m m' fuel Happ.
  - injection Happ as ->. reflexivity.
  - cbn [apply_all] in Happ.
    destruct (apply_record rec m) as [m1|] eqn:Hrec; [|discriminate].
    cbn [bind] in Happ.
    destruct bytes as [|b bytes]; [discriminate Hread|].
    cbn [length Nat.add Reader.loop].
    rewrite step_read_apply, Hread. cbn [bind]. rewrite Hrec. cbn [bind].
    now apply IH.
Qed.

Lemma add_param_inv (g g' : Group.t) (name : string) (buf : list byte) :
  Group.add_param g name (Param.mkKw None None None None (Some buf) []) = Ok g' ->
  exists p, param_of name buf = Some p /\
            g' = Group.mk (Group.name g) (Group.desc g)
                   (<[str_upper name := p]> (Group.params g)).
Proof.
  unfold Group.add_param, param_of. intros Hadd.
  destruct (Param.init _ _) as [[p rest]|]; [|discriminate].
  cbn in Hadd. injection Hadd as <-. now exists p.
Qed.

Ltac unfold_manager H :=
  unfold Manager.deref, Manager.set_key, Manager.alloc, Manager.update,
    Manager.add_group, Manager.get_int, Reader.setdefault in H;
  cbn [Manager.header Manager.heap Manager.groups] in H.

Lemma step_before (m m' : Manager.t) (rec : record) :
  before G m -> ~ is_header G rec -> apply_record rec m = Ok m' ->
  (~ is_param G rec /\ before G m' /\ (length (Manager.heap m) <= length (Manager.heap m'))%nat) \/
  (is_param G rec /\ placeholder G (length (Manager.heap m)) (attach G ∅ rec) m' /\
   (forall name buf, rec = RParam G name buf -> is_Some (param_of name buf))).
Proof.
  intros [Hwf Hnone] Hnh Happ. destruct rec as [g name buf|g name desc].
  - (* a parameter record *)
    cbn [apply_record] in Happ. unfold Reader.setdefault in Happ.
    destruct (decide (g = G)) as [->|Hg].
    + right. rewrite Hnone in Happ. unfold_manager Happ.
      rewrite lookup_app_r, Nat.sub_diag in Happ by lia. cbn in Happ.
      destruct (Group.add_param _ _ _) as [g'|] eqn:Hadd; [|discriminate].
      cbn in Happ. injection Happ as <-.
      destruct (add_param_inv _ _ _ _ Hadd) as (p & Hp & ->).
      split; [reflexivity|]. split.
      * unfold placeholder, wf. cbn. repeat split.
        -- intros k r Hk. rewrite length_alter, length_app. cbn.
           destruct (decide (k = KInt G)) as [->|Hne].
           ++ rewrite lookup_insert_eq in Hk. injection Hk as <-. lia.
           ++ rewrite lookup_insert_ne in Hk by congruence.
              apply Hwf in Hk. lia.
        -- apply lookup_insert_eq.
        -- intros k Hk. destruct (decide (k = KInt G)) as [->|Hne]; [reflexivity|].
           rewrite lookup_insert_ne in Hk by congruence.
           apply Hwf in Hk. lia.
        -- rewrite list_lookup_alter_eq, lookup_app_r, Nat.sub_diag by lia. cbn.
           destruct (decide (G = G)) as [_|]; [|congruence]. now rewrite Hp.
      * intros name' buf' [= -> ->]. now rewrite Hp.
    + left. split; [cbn; congruence|].
      destruct (Manager.groups m !! KInt g) as [r'|] eqn:Hr'.
      * unfold_manager Happ.
        destruct (Manager.heap m !! r') as [g0|]; [|discriminate]. cbn in Happ.
        destruct (Group.add_param _ _ _) as [g'|]; [|discriminate].
        cbn in Happ. injection Happ as <-.
        unfold before, wf. cbn. rewrite length_alter. auto.
      * unfold_manager Happ.
        rewrite lookup_app_r, Nat.sub_diag in Happ by lia. cbn in Happ.
        destruct (Group.add_param _ _ _) as [g'|]; [|discriminate].
        cbn in Happ. injection Happ as <-.
        unfold before, wf. cbn. rewrite length_alter, length_app. cbn.
        split; [split|lia].
        -- intros k r Hk. destruct (decide (k = KInt g)) as [->|Hne].
           ++ rewrite lookup_insert_eq in Hk. injection Hk as <-. lia.
           ++ rewrite lookup_insert_ne in Hk by congruence. apply Hwf in Hk. lia.
        -- rewrite lookup_insert_ne by congruence. exact Hnone.
  - (* a group record of another group *)
    left. split; [cbn; tauto|]. cbn in Hnh.
    cbn [apply_record] in Happ. unfold Manager.get_int in Happ.
    destruct (Manager.groups m !! KInt g) as [r'|] eqn:Hr'.
    + injection Happ as <-. unfold before, wf. cbn. rewrite length_alter.
      split; [split|lia].
      * intros k r Hk. destruct (decide (k = KStr name)) as [->|Hne].
        -- rewrite lookup_insert_eq in Hk. injection Hk as <-. now apply Hwf in Hr'.
        -- rewrite lookup_insert_ne in Hk by congruence. now apply Hwf in Hk.
      * rewrite lookup_insert_ne by discriminate. exact Hnone.
    + unfold Manager.add_group in Happ. rewrite Hr' in Happ.
      destruct (decide (is_Some None)) as [[? ?]|_]; [discriminate|].
      destruct (decide (is_Some (Manager.groups m !! KStr (str_upper name))));
        [discriminate|].
      cbn in Happ. injection Happ as <-.
      unfold before, wf. cbn. rewrite length_app. cbn.
      split; [split|lia].
      * intros k r Hk. destruct (decide (k = KInt g)) as [->|Hne].
        -- rewrite lookup_insert_eq in Hk. injection Hk as <-. lia.
        -- rewrite lookup_insert_ne in Hk by congruence.
           destruct (decide (k = KStr (str_upper name))) as [->|Hne'].
           ++ rewrite lookup_insert_eq in Hk. injection Hk as <-. lia.
           ++ rewrite lookup_insert_ne in Hk by congruence. apply Hwf in Hk. lia.
      * rewrite !lookup_insert_ne by congruence. exact Hnone.
Qed.

Lemma step_placeholder (r : nat) (acc : gmap string Param.t)
    (m m' : Manager.t) (rec : record) :
  placeholder G r acc m -> ~ is_header G rec -> apply_record rec m = Ok m' ->
  placeholder G r (attach G acc rec) m' /\
  (forall name buf, rec = RParam G name buf -> is_Some (param_of name buf)).
Proof.
  intros (Hwf & Hr & Huniq & Hobj) Hnh Happ.
  assert (Hlt : (r < length (Manager.heap m))%nat) by now apply Hwf in Hr.
  destruct rec as [g name buf|g name desc].
  - cbn [apply_record] in Happ. unfold Reader.setdefault in Happ.
    destruct (decide (g = G)) as [->|Hg].
    + rewrite Hr in Happ. unfold_manager Happ. rewrite Hobj in Happ.
      cbn [bind] in Happ.
      destruct (Group.add_param _ _ _) as [g'|] eqn:Hadd; [|discriminate].
      cbn in Happ. injection Happ as <-.
      destruct (add_param_inv _ _ _ _ Hadd) as (p & Hp & ->).
      split.
      * unfold placeholder, wf. cbn. rewrite length_alter. repeat split; auto.
        rewrite list_lookup_alter_eq, Hobj. cbn.
        destruct (decide (G = G)) as [_|]; [|congruence]. now rewrite Hp.
      * intros name' buf' [= -> ->]. now rewrite Hp.
    + split; [|intros ? ? [= ? ? ?]; congruence].
      cbn [attach]. destruct (decide (g = G)) as [|_]; [congruence|].
      destruct (Manager.groups m !! KInt g) as [r'|] eqn:Hr'.
      * assert (Hne : r' <> r).
        { intros ->. apply Huniq in Hr'. congruence. }
        unfold_manager Happ.
        destruct (Manager.heap m !! r') as [g0|]; [|discriminate]. cbn in Happ.
        destruct (Group.add_param _ _ _) as [g'|]; [|discriminate].
        cbn in Happ. injection Happ as <-.
        unfold placeholder, wf. cbn. rewrite length_alter. repeat split; auto.
        now rewrite list_lookup_alter_ne.
      * unfold_manager Happ.
        rewrite lookup_app_r, Nat.sub_diag in Happ by lia. cbn in Happ.
        destruct (Group.add_param _ _ _) as [g'|]; [|discriminate].
        cbn in Happ. injection Happ as <-.
        unfold placeholder, wf. cbn. rewrite length_alter, length_app. cbn.
        repeat split.
        -- intros k r0 Hk. destruct (decide (k = KInt g)) as [->|Hne].
           ++ rewrite lookup_insert_eq in Hk. injection Hk as <-. lia.
           ++ rewrite lookup_insert_ne in Hk by congruence. apply Hwf in Hk. lia.
        -- rewrite lookup_insert_ne by congruence. exact Hr.
        -- intros k Hk. destruct (decide (k = KInt g)) as [->|Hne].
           ++ rewrite lookup_insert_eq in Hk. injection Hk as Hk. lia.
           ++ rewrite lookup_insert_ne in Hk by congruence. now apply Huniq.
        -- rewrite list_lookup_alter_ne by lia. now rewrite lookup_app_l.
  - split; [|discriminate]. cbn in Hnh. cbn [attach].
    cbn [apply_record] in Happ. unfold Manager.get_int in Happ.
    destruct (Manager.groups m !! KInt g) as [r'|] eqn:Hr'.
    + assert (Hne : r' <> r).
      { intros ->. apply Huniq in Hr'. congruence. }
      injection Happ as <-. unfold placeholder, wf. cbn. rewrite length_alter.
      repeat split.
      * intros k r0 Hk. destruct (decide (k = KStr name)) as [->|Hne'].
        -- rewrite lookup_insert_eq in Hk. injection Hk as <-. now apply Hwf in Hr'.
        -- rewrite lookup_insert_ne in Hk by congruence. now apply Hwf in Hk.
      * rewrite lookup_insert_ne by discriminate. exact Hr.
      * intros k Hk. destruct (decide (k = KStr name)) as [->|Hne'].
        -- rewrite lookup_insert_eq in Hk. congruence.
        -- rewrite lookup_insert_ne in Hk by congruence. now apply Huniq.
      * now rewrite list_lookup_alter_ne.
    + unfold Manager.add_group in Happ. rewrite Hr' in Happ.
      destruct (decide (is_Some None)) as [[? ?]|_]; [discriminate|].
      destruct (decide (is_Some (Manager.groups m !! KStr (str_upper name))));
        [discriminate|].
      cbn in Happ. injection Happ as <-.
      unfold placeholder, wf. cbn. rewrite length_app. cbn.
      repeat split.
      * intros k r0 Hk. destruct (decide (k = KInt g)) as [->|Hne].
        -- rewrite lookup_insert_eq in Hk. injection Hk as <-. lia.
        -- rewrite lookup_insert_ne in Hk by congruence.
           destruct (decide (k = KStr (str_upper name))) as [->|Hne'].
           ++ rewrite lookup_insert_eq in Hk. injection Hk as <-. lia.
           ++ rewrite lookup_insert_ne in Hk by congruence. apply Hwf in Hk. lia.
      * rewrite !lookup_insert_ne by congruence. exact Hr.
      * intros k Hk. destruct (decide (k = KInt g)) as [->|Hne].
        -- rewrite lookup_insert_eq in Hk. injection Hk as Hk. lia.
        -- rewrite lookup_insert_ne in Hk by congruence.
           destruct (decide (k = KStr (str_upper name))) as [->|Hne'].
           ++ rewrite lookup_insert_eq in Hk. injection Hk as Hk. lia.
           ++ rewrite lookup_insert_ne in Hk by congruence. now apply Huniq.
      * now rewrite lookup_app_l.
Qed.

Lemma step_header (r : nat) (acc : gmap string Param.t)
    (m m' : Manager.t) (name desc : string) :
  placeholder G r acc m -> apply_record (RGroup G name desc) m = Ok m' ->
  Manager.groups m' !! KInt G = Some r /\
  Manager.groups m' !! KStr name = Some r /\
  (forall k, Manager.groups m' !! k = Some r -> k = KInt G \/ k = KStr name) /\
  Manager.heap m' !! r = Some (Group.mk (Some name) (Some desc) acc).
Proof.
  intros (Hwf & Hr & Huniq & Hobj) Happ.
  cbn [apply_record] in Happ. unfold Manager.get_int in Happ.
  rewrite Hr in Happ. injection Happ as <-. cbn. repeat split.
  - rewrite lookup_insert_ne by discriminate. exact Hr.
  - apply lookup_insert_eq.
  - intros k Hk. destruct (decide (k = KStr name)) as [->|Hne]; [now right|].
    rewrite lookup_insert_ne in Hk by congruence. left. now apply Huniq.
  - now rewrite list_lookup_alter_eq, Hobj.
Qed.

Lemma run_placeholder (recs : list record) :
  forall (r : nat) (acc : gmap string Param.t) (m m' : Manager.t),
    placeholder G r acc m ->
    Forall (fun rec => ~ is_header G rec) recs ->
    apply_all recs m = Ok m' ->
    placeholder G r (foldl (attach G) acc recs) m' /\ Forall (readable G) recs.
Proof.
  induction recs as [|rec recs IH]; intros r acc m m' Hinv Hnh Happ.
  - injection Happ as <-. now split.
  - cbn [apply_all] in Happ.
    destruct (apply_record rec m) as [m1|] eqn:Hrec; [|discriminate].
    cbn [bind] in Happ. inversion Hnh as [|? ? Hn1 Hn2]; subst.
    destruct (step_placeholder _ _ _ _ _ Hinv Hn1 Hrec) as [Hinv1 Hread].
    destruct (IH _ _ _ _ Hinv1 Hn2 Happ) as [Hinv' Hreads].
    split; [exact Hinv'|]. constructor; assumption.
Qed.


Lemma attach_not_param (acc : gmap string Param.t) (rec : record) :
  ~ is_param G rec -> attach G acc rec = acc.
Proof.
  destruct rec as [g name buf|]; [|reflexivity]. cbn.
  intros Hg. now destruct (decide (g = G)).
Qed.

Lemma run_before (recs : list record) :
  forall m m' : Manager.t,
    before G m ->
    Forall (fun rec => ~ is_header G rec) recs ->
    Exists (is_param G) recs ->
    apply_all recs m = Ok m' ->
    exists pre first post m_pre m_first,
      recs = pre ++ first :: post /\
      Forall (fun rec => ~ is_param G rec) pre /\ is_param G first /\
      apply_all pre m = Ok m_pre /\
      Manager.groups m_pre !! KInt G = None /\
      apply_record first m_pre = Ok m_first /\
      placeholder G (length (Manager.heap m_pre)) (attach G ∅ first) m_first /\
      placeholder G (length (Manager.heap m_pre)) (params_of G recs) m' /\
      Forall (readable G) recs.
Proof.
  induction recs as [|rec recs IH]; intros m m' Hinv Hnh Hex Happ.
  - inversion Hex.
  - cbn [apply_all] in Happ.
    destruct (apply_record rec m) as [m1|] eqn:Hrec; [|discriminate].
    cbn [bind] in Happ. inversion Hnh as [|? ? Hn1 Hn2]; subst.
    destruct (step_before _ _ _ Hinv Hn1 Hrec)
      as [(Hnp & Hinv1 & _)|(Hp & Hinv1 & Hread)].
    + assert (Hex' : Exists (is_param G) recs).
      { inversion Hex; subst; [contradiction|assumption]. }
      destruct (IH _ _ Hinv1 Hn2 Hex' Happ)
        as (pre & first & post & m_pre & m_first &
            -> & Hpre & Hfirst & Hrun & Hnone & Hstep & Hph & Hph' & Hreads).
      exists (rec :: pre), first, post, m_pre, m_first.
      split; [reflexivity|]. split; [now constructor|]. split; [assumption|].
      split; [cbn [apply_all]; rewrite Hrec; exact Hrun|].
      split; [assumption|]. split; [assumption|]. split; [assumption|].
      split.
      * unfold params_of in *. cbn [foldl]. rewrite attach_not_param by assumption.
        exact Hph'.
      * constructor; [|assumption]. intros name buf ->. now destruct Hnp.
    + destruct (run_placeholder _ _ _ _ _ Hinv1 Hn2 Happ) as [Hph' Hreads].
      exists [], rec, recs, m, m1.
      split; [reflexivity|]. split; [constructor|]. split; [assumption|].
      split; [reflexivity|]. split; [apply Hinv|]. split; [assumption|].
      split; [assumption|]. split; [exact Hph'|].
      constructor; assumption.
Qed.

Lemma apply_all_app (recs1 recs2 : list record) (m m' : Manager.t) :
  apply_all (recs1 ++ recs2) m = Ok m' ->
  exists m1, apply_all recs1 m = Ok m1 /\ apply_all recs2 m1 = Ok m'.
Proof.
  revert m. induction recs1 as [|rec recs1 IH]; intros m Happ.
  - now exists m.
  - cbn [app apply_all] in Happ |- *.
    destruct (apply_record rec m) as [m1|]; [|discriminate]. cbn [bind] in *.
    now apply IH.
Qed.

Lemma scan_app_inv (bytes rest : list byte) (recs1 recs2 : list record) :
  scan bytes (recs1 ++ recs2) rest ->
  exists mid, scan bytes recs1 mid /\ scan mid recs2 rest.
Proof.
  revert bytes. induction recs1 as [|rec recs1 IH]; intros bytes Hscan.
  - exists bytes. split; [apply scan_nil|exact Hscan].
  - cbn [app] in Hscan. inversion Hscan as [|? ? k ? ? Hread Hrest]; subst.
    destruct (IH _ Hrest) as (mid & H1 & H2).
    exists mid. split; [|exact H2]. eapply scan_cons; eauto.
Qed.

Lemma step_of_record (m m' : Manager.t) (bytes : list byte) (rec : record) (k : Z) :
  read_record bytes = Ok (Some (rec, k)) ->
  apply_record rec m = Ok m' ->
  Reader.step m bytes = Ok (Reader.Continue m' (slice_from k bytes)).
Proof.
  intros Hread Hrec. rewrite step_read_apply, Hread. cbn [bind].
  now rewrite Hrec.
Qed.

Lemma loop_end (fuel : nat) (m : Manager.t) (rest : list byte) :
  rest = [] \/ read_record rest = Ok None ->
  Reader.loop (S fuel) m rest = Some (Ok m).
Proof.
  intros [->|Hend]; [reflexivity|].
  destruct rest as [|b rest]; [reflexivity|].
  cbn [Reader.loop]. now rewrite step_read_apply, Hend.
Qed.

(** The parameters kept from the records: a record replaces what an
    earlier record stored under the same upper-cased name. *)
Lemma foldl_attach_other (recs : list record) :
  forall (acc : gmap string Param.t) (k : string),
    (forall name buf, In (RParam G name buf) recs -> str_upper name <> k) ->
    foldl (attach G) acc recs !! k = acc !! k.
Proof.
  induction recs as [|rec recs IH]; intros acc k Hk; [reflexivity|].
  cbn [foldl]. rewrite IH by (intros name buf Hin; apply (Hk name buf); now right).
  destruct rec as [g name buf|]; [|reflexivity]. cbn [attach].
  destruct (decide (g = G)) as [->|]; [|reflexivity].
  destruct (param_of name buf); [|reflexivity].
  apply lookup_insert_ne. apply (Hk name buf). now left.
Qed.

Lemma foldl_attach_last (pre post : list record) (name : string) (buf : list byte)
    (p : Param.t) (acc : gmap string Param.t) :
  param_of name buf = Some p ->
  (forall name' buf', In (RParam G name' buf') post ->
     str_upper name' <> str_upper name) ->
  foldl (attach G) acc (pre ++ RParam G name buf :: post) !! str_upper name = Some p.
Proof.
  intros Hp Hpost. rewrite foldl_app. cbn [foldl].
  rewrite foldl_attach_other by exact Hpost. cbn [attach].
  destruct (decide (G = G)) as [_|]; [|congruence].
  rewrite Hp. apply lookup_insert_eq.
Qed.

Lemma foldl_attach_from (recs : list record) :
  forall (acc : gmap string Param.t) (k : string) (p : Param.t),
    foldl (attach G) acc recs !! k = Some p ->
    acc !! k = Some p \/
    exists name buf, In (RParam G name buf) recs /\ str_upper name = k /\
                     param_of name buf = Some p.
Proof.
  induction recs as [|rec recs IH]; intros acc k p Hk; [now left|].
  cbn [foldl] in Hk. destruct (IH _ _ _ Hk) as [Hacc|(name & buf & Hin & Hn & Hp)].
  - destruct rec as [g name buf|]; [|now left]. cbn [attach] in Hacc.
    destruct (decide (g = G)) as [->|]; [|now left].
    destruct (param_of name buf) as [q|] eqn:Hq; [|now left].
    destruct (decide (str_upper name = k)) as [<-|Hne].
    + rewrite lookup_insert_eq in Hacc. injection Hacc as ->.
      right. exists name, buf. split; [now left|]. auto.
    + rewrite lookup_insert_ne in Hacc by exact Hne. now left.
  - right. exists name, buf. split; [now right|]. auto.
Qed.

(** C7, as amended.  Let the decoder read the records [recs], then the
    header record of group [G], then the records [tail] up to the end of
    the directory, no record raising; let [recs] hold no header of [G]
    and at least one parameter record of [G], the store having no group
    under [G] before.  Then:
    - the iteration of the loop that reads the first parameter record of
      [G] makes one new [Group] without name or description under the id
      [G], holding that parameter;
    - after the iteration that reads the header record, that same object
      is stored under the id and under the name of the header and under
      no other key, carries the name and the description of the header,
      and holds, under its upper-cased name, the parameter of each
      parameter record of [G] that no later such record of the same
      upper-cased name has replaced, and nothing else;
    - the loop returns the store that the records of [tail] make of that
      one: that store itself when the header is the last record. *)
Theorem placeholder_group_completed
    (m0 m_end : Manager.t) (bytes rest : list byte) (recs tail : list record)
    (hname hdesc : string) :
  wf m0 ->
  Manager.groups m0 !! KInt G = None ->
  scan bytes (recs ++ RGroup G hname hdesc :: tail) rest ->
  rest = [] \/ read_record rest = Ok None ->
  Forall (fun rec => ~ is_header G rec) recs ->
  Exists (is_param G) recs ->
  apply_all (recs ++ RGroup G hname hdesc :: tail) m0 = Ok m_end ->
  exists (r : nat) pre first post m_pre m_first m_last m1
         b_first b_next b_header b_after,
    (recs = pre ++ first :: post /\
     Forall (fun rec => ~ is_param G rec) pre /\ is_param G first /\
     (forall fuel, Reader.loop (length pre + fuel) m0 bytes
                   = Reader.loop fuel m_pre b_first) /\
     Manager.groups m_pre !! KInt G = None /\
     Reader.step m_pre b_first = Ok (Reader.Continue m_first b_next) /\
     r = length (Manager.heap m_pre) /\
     Manager.groups m_first !! KInt G = Some r /\
     Manager.heap m_first !! r = Some (Group.mk None None (attach G ∅ first))) /\
    ((forall fuel, Reader.loop (length recs + fuel) m0 bytes
                   = Reader.loop fuel m_last b_header) /\
     Reader.step m_last b_header = Ok (Reader.Continue m1 b_after) /\
     Manager.groups m1 !! KInt G = Some r /\
     Manager.groups m1 !! KStr hname = Some r /\
     (forall k, Manager.groups m1 !! k = Some r -> k = KInt G \/ k = KStr hname) /\
     Manager.heap m1 !! r
     = Some (Group.mk (Some hname) (Some hdesc) (params_of G recs)) /\
     (forall before name buf later,
        recs = before ++ RParam G name buf :: later ->
        (forall name' buf', In (RParam G name' buf') later ->
           str_upper name' <> str_upper name) ->
        exists p, param_of name buf = Some p /\
                  params_of G recs !! str_upper name = Some p) /\
     (forall k p, params_of G recs !! k = Some p ->
        exists name buf, In (RParam G name buf) recs /\ str_upper name = k /\
                         param_of name buf = Some p)) /\
    (apply_all tail m1 = Ok m_end /\
     (tail = [] -> m_end = m1) /\
     forall fuel, (length recs + 1 + length tail < fuel)%nat ->
                  Reader.loop fuel m0 bytes = Some (Ok m_end)).
Proof.
  intros Hwf Hnone Hscan Hend Hnh Hex Happ.
  destruct (apply_all_app _ _ _ _ Happ) as (m_last & Hrun & Hhdr).
  cbn [apply_all] in Hhdr.
  destruct (apply_record (RGroup G hname hdesc) m_last) as [m1|] eqn:Hrec;
    [|discriminate].
  cbn [bind] in Hhdr.
  destruct (run_before recs m0 m_last (conj Hwf Hnone) Hnh Hex Hrun)
    as (pre & first & post & m_pre & m_first &
        Heq & Hpre & Hfirst & Hrunpre & Hnonepre & Hstep & Hph & Hph' & Hreads).
  destruct (step_header _ _ _ _ _ _ Hph' Hrec) as (Hid & Hname & Huniq & Hobj).
  destruct (scan_app_inv _ _ _ _ Hscan) as (b_header & Hscan1 & Hscan2).
  inversion Hscan2 as [|? ? kh ? ? Hreadh Hscant]; subst.
  assert (Hscan1' : scan bytes (pre ++ first :: post) b_header) by exact Hscan1.
  destruct (scan_app_inv _ _ _ _ Hscan1') as (b_first & Hscanpre & Hscanfirst).
  inversion Hscanfirst as [|? ? kf ? ? Hreadf Hscanpost]; subst.
  exists (length (Manager.heap m_pre)), pre, first, post, m_pre, m_first, m_last, m1,
    b_first, (slice_from kf b_first), b_header, (slice_from kh b_header).
  split; [|split].
  - split; [reflexivity|]. split; [assumption|]. split; [assumption|].
    split; [intros fuel; now apply loop_scan|]. split; [assumption|].
    split; [now apply (step_of_record _ _ _ first)|].
    split; [reflexivity|]. split; apply Hph.
  - split; [intros fuel; now apply loop_scan|].
    split; [now apply (step_of_record _ _ _ (RGroup G hname hdesc))|].
    repeat (split; [assumption|]). split.
    + intros before name buf later Hrecs Hlater.
      assert (Hin : In (RParam G name buf) (pre ++ first :: post)).
      { rewrite Hrecs. apply in_or_app. right. now left. }
      rewrite Forall_forall in Hreads.
      destruct (Hreads (RParam G name buf)
                  ltac:(now apply list_elem_of_In) name buf eq_refl)
        as [p Hp].
      exists p. split; [exact Hp|]. unfold params_of. rewrite Hrecs.
      now apply foldl_attach_last.
    + intros k p Hk. unfold params_of in Hk.
      destruct (foldl_attach_from _ _ _ _ Hk) as [Hempty|Hfrom]; [|exact Hfrom].
      rewrite lookup_empty in Hempty. discriminate.
  - split; [exact Hhdr|]. split.
    + intros ->. cbn [apply_all] in Hhdr. congruence.
    + intros fuel Hfuel.
      replace fuel
        with (length ((pre ++ first :: post) ++ RGroup G hname hdesc :: tail)
              + S (fuel - S (length ((pre ++ first :: post)
                                     ++ RGroup G hname hdesc :: tail))))%nat
        by (rewrite !length_app in *; cbn [length] in *; rewrite ?length_app; lia).
      rewrite (loop_scan _ _ _ Hscan m0 m_end _ Happ).
      now apply loop_end.
Qed.
End LateHeader.

Section LateHeaderExample.
Import Directory.

Lemma placeholder_group_completed_witness :
  let m0 := Example.empty_store in
  let recs := Example.late_header_params in
  let all := recs ++ [Example.late_header] in
  let m1 := Example.after all m0 in
  let bytes := Example.late_header_chunk in
  @Reader.loop Ascii7.text 4 m0 bytes = Some (Ok m1) /\
  Manager.groups m1 !! KInt 1 = Some 0%nat /\
  Manager.groups m1 !! KStr "G" = Some 0%nat /\
  Manager.heap m1 !! 0%nat
  = Some (Group.mk (Some "G"%string) (Some "d"%string)
            {[ "A"%string := Param.mk "A" "" 1 [] (Example.bytes_of [7]);
               "B"%string := Param.mk "B" "" 1 [] (Example.bytes_of [8]) ]}) /\
  exists (r : nat) pre first post m_pre m_first m_last m1'
         b_first b_next b_header b_after,
    (recs = pre ++ first :: post /\
     Forall (fun rec => ~ is_param 1 rec) pre /\ is_param 1 first /\
     (forall fuel, @Reader.loop Ascii7.text (length pre + fuel) m0 bytes
                   = @Reader.loop Ascii7.text fuel m_pre b_first) /\
     Manager.groups m_pre !! KInt 1 = None /\
     @Reader.step Ascii7.text m_pre b_first = Ok (Reader.Continue m_first b_next) /\
     r = length (Manager.heap m_pre) /\
     Manager.groups m_first !! KInt 1 = Some r /\
     Manager.heap m_first !! r
     = Some (Group.mk None None (@attach Ascii7.text 1 ∅ first))) /\
    ((forall fuel, @Reader.loop Ascii7.text (length recs + fuel) m0 bytes
                   = @Reader.loop Ascii7.text fuel m_last b_header) /\
     @Reader.step Ascii7.text m_last b_header = Ok (Reader.Continue m1' b_after) /\
     Manager.groups m1' !! KInt 1 = Some r /\
     Manager.groups m1' !! KStr "G" = Some r /\
     (forall k, Manager.groups m1' !! k = Some r -> k = KInt 1 \/ k = KStr "G") /\
     Manager.heap m1' !! r
     = Some (Group.mk (Some "G"%string) (Some "d"%string)
               (@params_of Ascii7.text 1 recs)) /\
     (forall before name buf later,
        recs = before ++ RParam 1 name buf :: later ->
        (forall name' buf', In (RParam 1 name' buf') later ->
           @str_upper Ascii7.text name' <> @str_upper Ascii7.text name) ->
        exists p, @param_of Ascii7.text name buf = Some p /\
                  @params_of Ascii7.text 1 recs !! @str_upper Ascii7.text name
                  = Some p) /\
     (forall k p, @params_of Ascii7.text 1 recs !! k = Some p ->
        exists name buf, In (RParam 1 name buf) recs /\
                         @str_upper Ascii7.text name = k /\
                         @param_of Ascii7.text name buf = Some p)) /\
    (@apply_all Ascii7.text [] m1' = Ok m1 /\
     (@nil record = [] -> m1 = m1') /\
     forall fuel, (length recs + 1 + length (@nil record) < fuel)%nat ->
                  @Reader.loop Ascii7.text fuel m0 bytes = Some (Ok m1)).
Proof.
  cbv zeta.
  assert (Hwf : wf Example.empty_store).
  { intros k r Hk. vm_compute in Hk. discriminate Hk. }
  assert (Hnone : Manager.groups Example.empty_store !! KInt 1 = None) by reflexivity.
  assert (Hscan : @scan Ascii7.text Example.late_header_chunk
                    (Example.late_header_params ++ [Example.late_header])
                    (drop 25 Example.late_header_chunk)).
  { apply (@scan_cons Ascii7.text _ _ 9); [vm_compute; reflexivity|].
    apply (@scan_cons Ascii7.text _ _ 9); [vm_compute; reflexivity|].
    apply (@scan_cons Ascii7.text _ _ 7); [vm_compute; reflexivity|].
    apply scan_nil. }
  assert (Hend : drop 25 Example.late_header_chunk = [] \/
                 @read_record Ascii7.text (drop 25 Example.late_header_chunk) = Ok None)
    by (right; vm_compute; reflexivity).
  assert (Hnh : Forall (fun rec => ~ is_header 1 rec) Example.late_header_params).
  { repeat constructor; intros []. }
  assert (Hex : Exists (is_param 1) Example.late_header_params).
  { apply Exists_cons_hd. reflexivity. }
  assert (Happ : @apply_all Ascii7.text
                   (Example.late_header_params ++ [Example.late_header])
                   Example.empty_store
                 = Ok (Example.after
                         (Example.late_header_params ++ [Example.late_header])
                         Example.empty_store))
    by (vm_compute; reflexivity).
  split; [vm_compute; reflexivity|].
  split; [vm_compute; reflexivity|]. split; [vm_compute; reflexivity|].
  split; [vm_compute; reflexivity|].
  exact (@placeholder_group_completed Ascii7.text 1 _ _ _ _ _ [] _ _
           Hwf Hnone Hscan Hend Hnh Hex Happ).
Defined.

(** C7, as stated, fails when two parameter records of the group have
    the same upper-cased name.  The decoder reads the parameters "A"
    (value 7) and "a" (value 8) of group 1 and then the header of group
    1; the loop returns, and the group that it leaves under the id 1
    holds one parameter, not both: the first is not among its
    parameters. *)
Lemma placeholder_group_same_name_counterexample :
  ~ (exists m g,
       @Reader.loop Ascii7.text 4 Example.empty_store Example.same_name_chunk
       = Some (Ok m) /\
       Manager.get_int 1 m = Manager.FGroup 0 /\
       Manager.heap m !! 0%nat = Some g /\
       Forall (fun p => p ∈ (map_to_list (Group.params g)).*2)
              Example.same_name_params).
Proof.
  intros (m & g & Hloop & _ & Hg & Hall).
  vm_compute in Hloop. injection Hloop as <-.
  vm_compute in Hg. injection Hg as <-.
  apply Forall_cons in Hall as [Hfirst _].
  vm_compute in Hfirst.
  apply elem_of_cons in Hfirst as [Heq|Hnil].
  - discriminate Heq.
  - now apply elem_of_nil in Hnil.
Qed.

End LateHeaderExample.

(** ** The size of the parameter section *)

(** [ceil_div a b] is the least [n] with [a <= b * n]. *)
Lemma ceil_div_spec (a b : Z) :
  0 < b ->
  b * (Manager.ceil_div a b - 1) < a <= b * Manager.ceil_div a b.
Proof.
  intros Hb. unfold Manager.ceil_div.
  pose proof (Z.div_mod (- a) b ltac:(lia)) as Hdm.
  pose proof (Z.mod_pos_bound (- a) b Hb) as Hm.
  nia.
Qed.

Section ParameterBlocks.
Context `{Text}.

(** X24: [parameter_blocks] is the least number of blocks that hold 4
    bytes and one [binary_size] for each key of [groups]. *)
Lemma parameter_blocks_least (m : Manager.t) (n : Z) :
  Manager.parameter_blocks m = Ok n ->
  exists s, Manager.groups_size m = Ok s /\
            512 * (n - 1) < 4 + s <= 512 * n.
Proof.
  unfold Manager.parameter_blocks. intros Hn.
  destruct (Manager.groups_size m) as [s|]; [|discriminate].
  cbn [bind] in Hn. injection Hn as <-. exists s. split; [reflexivity|].
  apply ceil_div_spec. lia.
Qed.

End ParameterBlocks.

Lemma parameter_blocks_least_witness :
  @Manager.parameter_blocks Ascii7.text Example.labels_store = Ok 2 /\
  exists s, @Manager.groups_size Ascii7.text Example.labels_store = Ok s /\
            512 * (2 - 1) < 4 + s <= 512 * 2.
Proof.
  assert (Hn : @Manager.parameter_blocks Ascii7.text Example.labels_store = Ok 2)
    by (vm_compute; reflexivity).
  split; [exact Hn|].
  exact (@parameter_blocks_least Ascii7.text Example.labels_store 2 Hn).
Defined.

Section SingleGroup.
Context `{Text}.

(** A list that is a permutation of [[r; r]] is [[r; r]]. *)
Lemma perm_pair_same (r : nat) (l : list nat) : l ≡ₚ [r; r] -> l = [r; r].
Proof.
  intros Hp.
  assert (Hlen : length l = 2%nat) by now rewrite Hp.
  assert (Hall : Forall (fun x => x = r) l).
  { rewrite Hp. repeat constructor. }
  destruct l as [|a [|b [|c l]]]; try discriminate Hlen.
  inversion Hall as [|? ? -> Hall']; subst.
  inversion Hall' as [|? ? -> _]; subst. reflexivity.
Qed.

(** In a store that holds the one group made by [add_group], the sum of
    [parameter_blocks] counts that group twice, once for each key. *)
Lemma groups_size_single_group (hd : Header.t) (group_id : Z) (name desc : string) :
  let m := snd (Manager.add_group group_id name desc (Manager.init hd)) in
  let size := 1 + 1 + Z.of_nat (length (utf8_encode (str_upper name))) + 2 +
              1 + Z.of_nat (length (utf8_encode desc)) + 0 in
  Manager.heap m = [Group.mk (Some (str_upper name)) (Some desc) ∅] /\
  Group.binary_size (Group.mk (Some (str_upper name)) (Some desc) ∅) = Ok size /\
  Manager.groups_size m = Ok (size + (size + 0)).
Proof.
  cbv zeta. unfold Manager.add_group, Manager.init.
  cbn [Manager.groups Manager.heap].
  rewrite !lookup_empty.
  destruct (decide (is_Some None)) as [[? ?]|_]; [discriminate|].
  cbn. split; [reflexivity|]. split; [reflexivity|].
  unfold Manager.groups_size, Manager.set_key. cbn [Manager.groups Manager.heap].
  assert (Hl : (map_to_list (<[KInt group_id := 0%nat]>
                               (<[KStr (str_upper name) := 0%nat]> (∅ : gmap key nat)))).*2
               = [0%nat; 0%nat]).
  { apply perm_pair_same.
    rewrite map_to_list_insert by (now rewrite lookup_insert_ne, lookup_empty).
    rewrite map_to_list_insert by apply lookup_empty.
    now rewrite map_to_list_empty. }
  rewrite Hl. reflexivity.
Qed.

End SingleGroup.

(** C5 at a store with one group.  The group POINT of [labels_store] takes
    292 bytes, so that the parameter section takes 296 bytes and fits in
    one block; [parameter_blocks] answers 2, because the group is counted
    once for each of its two keys. *)
Lemma parameter_blocks_counts_each_key :
  let m := Example.labels_store in
  map_to_list (Manager.groups m) = [(KStr "POINT", 0%nat); (KInt 1, 0%nat)] /\
  (@Group.binary_size Ascii7.text <$> Manager.heap m) = [Ok 292] /\
  Manager.ceil_div (4 + 292) 512 = 1 /\
  @Manager.groups_size Ascii7.text m = Ok (292 + 292) /\
  @Manager.parameter_blocks Ascii7.text m = Ok 2.
Proof.
  cbv zeta. repeat split; vm_compute; reflexivity.
Qed.

(** ** Writing *)

Section Writing.
Context `{Text}.

(** [Param.__init__] has no keyword [data_size]. *)
Lemma add_param_data_size (r : nat) (name desc : string)
    (dimensions : option (list Z)) (bytes : option (list byte)) (m : Manager.t) :
  exists e, Writer.add_param r name (Writer.kw desc dimensions bytes) m = Raise e /\
            (is_Some (Manager.heap m !! r) -> e = TypeError).
Proof.
  unfold Writer.add_param, Manager.deref.
  destruct (Manager.heap m !! r) as [g|].
  - exists TypeError. split; [reflexivity|auto].
  - exists AttributeError. split; [reflexivity|]. intros [? ?]. discriminate.
Qed.

(** The statements of [write] that build the groups always raise. *)
Lemma build_raises (w : Writer.t) (points : list Reader.point) (analog : list float) :
  exists e, Writer.build w points analog = Raise e.
Proof.
  unfold Writer.build.
  destruct (Writer.new_group 1 "POINT" "POINT group" (Writer.manager w))
    as [[r m]|e]; [|now exists e].
  cbn [bind].
  destruct (Struct.pack_H (Z.of_nat (length points))) as [b|e]; [|now exists e].
  cbn [bind].
  destruct (add_param_data_size r "USED" "Number of 3d markers" None (Some b) m)
    as (e & -> & _).
  now exists e.
Qed.

(** [write] never returns normally when frames are buffered, and it
    writes nothing. *)
Lemma write_raises (w : Writer.t) (uninit : nat -> float * float * float * float)
    (h : handle) :
  Writer._frames w <> [] ->
  exists e, Writer.write w uninit h = (Raise e, h).
Proof.
  intros Hframes. unfold Writer.write.
  destruct (Writer._frames w) as [|[points analog] frames]; [congruence|].
  destruct (build_raises w points analog) as (e & ->). now exists e.
Qed.

(** [Writer().add_frames(frames)] followed by [write(handle)] raises
    [TypeError], at the first [add_param] call, and writes nothing. *)
Lemma default_writer_raises_TypeError
    (points : list Reader.point) (analog : list float)
    (frames : list (list Reader.point * list float))
    (uninit : nat -> float * float * float * float) (h : handle) :
  Z.of_nat (length points) < 65536 ->
  Writer.write (Writer.add_frames ((points, analog) :: frames) Writer.default) uninit h
  = (Raise TypeError, h).
Proof.
  intros Hppf. unfold Writer.write, Writer.add_frames, Writer.default, Writer.init.
  cbn [Writer._frames app].
  unfold Writer.build, Writer.new_group, Manager.add_group.
  cbn [Writer.manager Manager.init Manager.groups].
  rewrite !lookup_empty.
  destruct (decide (is_Some None)) as [[? ?]|_]; [discriminate|].
  cbn [Manager.alloc Manager.heap Manager.header Manager.groups bind].
  unfold Struct.pack_H, Struct.pack_uint.
  destruct (Z.leb_spec 0 (Z.of_nat (length points))) as [_|]; [|lia].
  destruct (Z.ltb_spec (Z.of_nat (length points)) (2 ^ (8 * Z.of_nat 2))) as [_|Hge];
    [|cbn in Hge; lia].
  cbn [andb bind]. reflexivity.
Qed.
(** X25: the bytes that the loop of [_write_frames] writes do not depend
    on the analog samples of the frames. *)
Lemma write_loop_ignores_analog (w : Writer.t) (scale : float) (is_float : bool)
    (frames : list (list Reader.point * list float)) :
  forall (raw : list (float * float * float * float)) (h : handle),
    Writer.write_loop w scale is_float raw frames h
    = Writer.write_loop w scale is_float raw
        ((fun f => (fst f, [])) <$> frames) h.
Proof.
  induction frames as [|[points analog] frames IH]; intros raw h; [reflexivity|].
  cbn [fmap list_fmap Writer.write_loop fst].
  destruct (_ && _); [reflexivity|].
  destruct (Writer.array_tofile is_float _ h) as [h1|]; [|reflexivity].
  cbn [app].
  destruct (Writer.array_tofile is_float [] h1) as [h2|]; [|reflexivity].
  apply IH.
Qed.

(** In integer storage the first frame with a point raises [TypeError]:
    the rows of [raw] are floats, which an [array.array('i')] does not
    accept. *)
Lemma write_loop_integer_storage (w : Writer.t) (scale : float)
    (raw : list (float * float * float * float))
    (points : list Reader.point) (analog : list float)
    (frames : list (list Reader.point * list float)) (h : handle) :
  raw <> [] -> length points = length raw ->
  Writer.write_loop w scale false raw ((points, analog) :: frames) h
  = (Raise TypeError, h).
Proof.
  intros Hraw Hlen. cbn [Writer.write_loop]. rewrite Hlen, Nat.eqb_refl.
  rewrite andb_false_r.
  destruct raw as [|[[[a b] c] d] raw]; [congruence|].
  destruct points as [|p points]; [discriminate|].
  cbn [zip_with]. unfold Writer.flatten. cbn [fmap list_fmap].
  destruct (Writer.encode_point _ _ _ _) as [[[? ?] ?] ?]. reflexivity.
Qed.

End Writing.

(** C4 at one frame with two analog samples.  [_write_frames] writes the
    16 bytes of the point record and no analog sample: the file ends
    after the point record.  ([_write_frames] then raises in
    [_pad_block].) *)
Lemma write_frames_drops_analog (uninit : nat -> float * float * float * float) :
  let w := Example.writer [(Example.one_point, [Fin 5; Fin 6])] in
  let out := @Writer._write_frames Ascii7.text w uninit Example.data_handle in
  fst out = Raise AttributeError /\
  drop 1024 (contents (snd out))
  = Example.f32 (Fin (-1)) ++ Example.f32 (Fin (-2)) ++ Example.f32 (Fin (-3))
    ++ Example.f32 (Fin 0) /\
  length (contents (snd out)) = 1040%nat.
Proof.
  cbv zeta. repeat split; vm_compute; reflexivity.
Qed.

(** In float storage with the scale factor -1, a valid point that
    [_write_frames] has encoded is decoded by [read_frames] with its
    coordinate negated (before the conversion to binary32). *)
Lemma decode_encode_negates (scale : float)
    (old : float * float * float * float) (p : Reader.point) (x : Q) :
  Reader.px p = Fin x ->
  Float.ltb (Float.of_Z (-1)) (Reader.perr p) = true ->
  Float.same
    (Reader.px (Reader.decode_point scale (Float.of_Z 1)
                  (Writer.encode_point (Fin (-1)) scale old p)))
    (Fin (- x)).
Proof.
  intros Hx Hvalid. unfold Writer.encode_point. rewrite Hvalid, Hx.
  unfold Reader.decode_point. cbn [Reader.px].
  unfold Float.np_div, Float.mul, Float.of_Z.
  change (Float.is_zero (-1)) with false. cbv iota.
  unfold Float.same.
  rewrite !Qred_correct. change (inject_Z 1) with 1%Q. field.
Qed.

(** C1 at one frame in float storage.  The writer with the default scale
    factor -1 stores the point (1, 2, 3) as (-1, -2, -3), and the reader
    returns (-1, -2, -3) from the bytes written. *)
Lemma float_roundtrip_negates (uninit : nat -> float * float * float * float) :
  let w := Example.writer [(Example.one_point, [])] in
  let out := @Writer._write_frames Ascii7.text w uninit Example.data_handle in
  fst out = Raise AttributeError /\
  exists h,
    @Reader.read_frames Ascii7.text (Reader.mk (Writer.manager w) (snd out))
    = Ok ([Reader.mkFrame 1
             [Reader.mkPoint (Fin (-1)) (Fin (-2)) (Fin (-3)) (Fin 0) (Fin 0)]
             []],
          h).
Proof.
  cbv zeta. split; [vm_compute; reflexivity|].
  eexists. vm_compute. reflexivity.
Qed.

(** * Writing and reading back *)

(** ** Bytes and fields *)

Lemma Ok_inj {A : Type} (a b : A) : Ok a = Ok b -> a = b.
Proof. congruence. Qed.

Lemma bind_ok {A B : Type} (r : result A) (k : A -> result B) (b : B) :
  bind r k = Ok b -> exists a, r = Ok a /\ k a = Ok b.
Proof. destruct r; cbn; [eauto|discriminate]. Qed.

Lemma u8_byte_of_Z (z : Z) : u8 (byte_of_Z z) = z mod 256.
Proof.
  unfold u8, byte_of_Z.
  assert (Hr : 0 <= z mod 256 < 256) by (apply Z.mod_pos_bound; lia).
  destruct (Byte.of_N (Z.to_N (z mod 256))) as [b|] eqn:E.
  - cbn. apply Byte.to_of_N in E. rewrite E. lia.
  - apply Byte.of_N_None_iff in E. lia.
Qed.

Lemma length_le_bytes (n : nat) (z : Z) : length (le_bytes n z) = n.
Proof.
  revert z. induction n as [|n IH]; intros z; cbn; [reflexivity|]. now rewrite IH.
Qed.

Lemma le_uint_le_bytes (n : nat) (z : Z) :
  le_uint (le_bytes n z) = z mod 256 ^ Z.of_nat n.
Proof.
  revert z. induction n as [|n IH]; intros z.
  - cbn. now rewrite Z.mod_1_r.
  - cbn [le_bytes le_uint]. rewrite u8_byte_of_Z, IH.
    rewrite Nat2Z.inj_succ, Z.pow_succ_r by lia.
    rewrite Z.rem_mul_r by lia. reflexivity.
Qed.

Lemma le_uint_le_bytes_small (n : nat) (z : Z) :
  0 <= z < 256 ^ Z.of_nat n -> le_uint (le_bytes n z) = z.
Proof. intros Hz. rewrite le_uint_le_bytes. now apply Z.mod_small. Qed.

Lemma le_uint_1 (v : Z) : 0 <= v < 2 ^ (8 * Z.of_nat 1) -> le_uint [byte_of_Z v] = v.
Proof. intros Hv. exact (le_uint_le_bytes_small 1 v Hv). Qed.

Lemma le_uint_2 (v : Z) :
  0 <= v < 2 ^ (8 * Z.of_nat 2) -> le_uint [byte_of_Z v; byte_of_Z (v / 256)] = v.
Proof. intros Hv. exact (le_uint_le_bytes_small 2 v Hv). Qed.

Lemma le_uint_4 (v : Z) :
  0 <= v < 2 ^ 32 ->
  le_uint [byte_of_Z v; byte_of_Z (v / 256); byte_of_Z (v / 256 / 256);
           byte_of_Z (v / 256 / 256 / 256)] = v.
Proof. intros Hv. exact (le_uint_le_bytes_small 4 v Hv). Qed.

Lemma signed_mod (w v : Z) :
  0 < w -> - 2 ^ (w - 1) <= v < 2 ^ (w - 1) -> signed w (v mod 2 ^ w) = v.
Proof.
  intros Hw Hv. unfold signed.
  assert (H2 : 2 ^ w = 2 * 2 ^ (w - 1)).
  { replace w with (Z.succ (w - 1)) at 1 by lia. apply Z.pow_succ_r. lia. }
  destruct (Z.le_gt_cases 0 v).
  - rewrite Z.mod_small by lia.
    destruct (v <? 2 ^ (w - 1)) eqn:E; [reflexivity|]. apply Z.ltb_ge in E. lia.
  - replace (v mod 2 ^ w) with (v + 2 ^ w).
    + destruct (v + 2 ^ w <? 2 ^ (w - 1)) eqn:E; [|lia]. apply Z.ltb_lt in E. lia.
    + apply Z.mod_unique with (-1); lia.
Qed.

Lemma signed_8 (v : Z) : -128 <= v < 128 -> signed 8 (v mod 256) = v.
Proof. intros. apply (signed_mod 8); [lia|assumption]. Qed.

Lemma signed_16 (v : Z) : -32768 <= v < 32768 -> signed 16 (v mod 65536) = v.
Proof. intros. apply (signed_mod 16); [lia|assumption]. Qed.

Lemma pack_uint_inv (n : nat) (v : Z) (bs : list byte) :
  Struct.pack_uint n v = Ok bs ->
  0 <= v < 2 ^ (8 * Z.of_nat n) /\ bs = le_bytes n v.
Proof.
  unfold Struct.pack_uint. destruct (_ && _) eqn:E; [|discriminate].
  intros Hb. apply Ok_inj in Hb. subst bs.
  apply andb_true_iff in E as [?%Z.leb_le ?%Z.ltb_lt]. auto.
Qed.

Lemma pack_int_inv (n : nat) (v : Z) (bs : list byte) :
  Struct.pack_int n v = Ok bs ->
  - 2 ^ (8 * Z.of_nat n - 1) <= v < 2 ^ (8 * Z.of_nat n - 1) /\
  bs = le_bytes n (v mod 2 ^ (8 * Z.of_nat n)).
Proof.
  unfold Struct.pack_int. cbv zeta. destruct (_ && _) eqn:E; [|discriminate].
  intros Hb. apply Ok_inj in Hb. subst bs.
  apply andb_true_iff in E as [?%Z.leb_le ?%Z.ltb_lt]. auto.
Qed.

Lemma pack_bb_inv (a b : Z) (bs : list byte) :
  Struct.pack_bb a b = Ok bs ->
  (-128 <= a < 128) /\ (-128 <= b < 128) /\
  bs = [byte_of_Z (a mod 256); byte_of_Z (b mod 256)].
Proof.
  unfold Struct.pack_bb, Struct.pack_b.
  intros (x & [Hx ->]%pack_int_inv & (y & [Hy ->]%pack_int_inv & Hb)%bind_ok)%bind_ok.
  apply Ok_inj in Hb. subst bs. auto.
Qed.

Lemma pack_Bs_inv (vs : list Z) (bs : list byte) :
  Struct.pack_Bs vs = Ok bs ->
  Forall (fun v => 0 <= v < 256) vs /\ bs = byte_of_Z <$> vs.
Proof.
  revert bs. induction vs as [|v vs IH]; intros bs; cbn [Struct.pack_Bs].
  - intros Hb. apply Ok_inj in Hb. subst. auto.
  - unfold Struct.pack_B.
    intros (x & [Hx ->]%pack_uint_inv & (y & [Hy ->]%IH & Hb)%bind_ok)%bind_ok.
    apply Ok_inj in Hb. subst bs. split; [constructor; auto|reflexivity].
Qed.

Lemma pack_f_inv (x : float) (bs : list byte) :
  Struct.pack_f x = Ok bs -> bs = le_bytes 4 (float32_bits x).
Proof.
  unfold Struct.pack_f. destruct x; [destruct (_ =? _)|..]; congruence.
Qed.

Lemma unpack_B_byte (v : Z) : 0 <= v < 256 -> Struct.unpack_B [byte_of_Z v] = Ok v.
Proof.
  intros Hv. unfold Struct.unpack_B, Struct.unpack_uint. cbn [length].
  destruct (decide (1%nat = 1%nat)); [|congruence].
  cbn [le_uint]. rewrite u8_byte_of_Z, Z.mod_small by lia. f_equal. lia.
Qed.

Lemma unpack_b_byte (v : Z) :
  -128 <= v < 128 -> Struct.unpack_b [byte_of_Z (v mod 256)] = Ok v.
Proof.
  intros Hv. unfold Struct.unpack_b, Struct.unpack_int, Struct.unpack_uint.
  cbn [length]. destruct (decide (1%nat = 1%nat)); [|congruence].
  cbn [bind le_uint]. rewrite u8_byte_of_Z, Z.mod_mod by lia.
  rewrite Z.mul_0_r, Z.add_0_r. f_equal. apply signed_8; exact Hv.
Qed.

Lemma unpack_h_bytes (v : Z) :
  -32768 <= v < 32768 -> Struct.unpack_h (le_bytes 2 (v mod 65536)) = Ok v.
Proof.
  intros Hv. unfold Struct.unpack_h, Struct.unpack_int, Struct.unpack_uint.
  rewrite length_le_bytes. destruct (decide (2%nat = 2%nat)); [|congruence].
  cbn [bind]. rewrite le_uint_le_bytes.
  change (256 ^ Z.of_nat 2) with 65536. rewrite Z.mod_mod by lia. f_equal.
  apply signed_16; exact Hv.
Qed.

Lemma buf_read_1 (b : byte) (bs : list byte) : buf_read 1 (b :: bs) = ([b], bs).
Proof. reflexivity. Qed.

Lemma buf_read_app (n : Z) (a b : list byte) :
  Z.of_nat (length a) = n -> buf_read n (a ++ b) = (a, b).
Proof.
  intros <-. unfold buf_read. rewrite Nat2Z.id.
  now rewrite take_app_length, drop_app_length.
Qed.

(** ** binary32 *)

Lemma Qround_even_nonneg (q : Q) : (0 <= q)%Q -> 0 <= Qround_even q.
Proof.
  intros Hq. unfold Qround_even.
  assert (0 <= Qfloor q).
  { change 0 with (Qfloor 0). now apply Qfloor_resp_le. }
  destruct (Qcompare _ _); [destruct (Z.even _)|..]; lia.
Qed.

Lemma float32_bits_range (x : float) : 0 <= float32_bits x < 2 ^ 32.
Proof.
  destruct x as [q|s|]; cbn [float32_bits].
  - destruct (Float.is_zero (Qabs q)); [cbv; split; [discriminate|reflexivity]|].
    set (sign := if Float.Qltb q 0 then 2 ^ 31 else 0).
    assert (Hs : sign = 0 \/ sign = 2147483648)
      by (subst sign; destruct (Float.Qltb q 0); auto).
    set (e0 := (Z.log2 (Qnum (Qabs q)) - Z.log2 (Z.pos (Qden (Qabs q))))).
    set (e1 := if Float.Qltb (Qabs q) (Qpower 2 e0) then e0 - 1 else e0).
    set (e := Z.max e1 (-126)).
    set (m := Qround_even (Qabs q / Qpower 2 (e - 23))).
    assert (Hm : 0 <= m).
    { apply Qround_even_nonneg. apply Qle_shift_div_l.
      - apply Qpower_0_lt. reflexivity.
      - rewrite Qmult_0_l. apply Qabs_nonneg. }
    assert (He : -126 <= e) by (subst e; lia).
    change (2 ^ 24) with 16777216. change (2 ^ 23) with 8388608.
    change (2 ^ 32) with 4294967296.
    clearbody sign m e.
    destruct (16777216 <=? m) eqn:E24; cbv beta iota zeta.
    + destruct (127 <? e + 1) eqn:E; [lia|].
      change (8388608 <? 8388608) with false. cbv iota. lia.
    + destruct (127 <? e) eqn:E; [lia|].
      destruct (m <? 8388608) eqn:E23; lia.
  - destruct s; cbv; split; first [discriminate | reflexivity].
  - cbv; split; [discriminate | reflexivity].
Qed.

(** ** The header record *)

Lemma header_pack_inv (hd : Header.t) (bs : list byte) :
  Header.pack hd = Ok bs ->
  Layout.header_fits hd /\
  bs = le_bytes 1 (Header.parameter_block hd) ++ le_bytes 1 80 ++
       le_bytes 2 (Header.point_count hd) ++ le_bytes 2 (Header.analog_count hd) ++
       le_bytes 2 (Header.first_frame hd) ++ le_bytes 2 (Header.last_frame hd) ++
       le_bytes 2 (Header.max_gap hd) ++
       le_bytes 4 (float32_bits (Header.scale_factor hd)) ++
       le_bytes 2 (Header.data_block hd) ++ le_bytes 2 (Header.sample_per_frame hd) ++
       le_bytes 4 (float32_bits (Header.frame_rate hd)) ++
       replicate 270 x00 ++
       le_bytes 2 (if Header.long_event_labels hd =? 0 then 0 else 12345) ++
       le_bytes 2 (Header.label_block hd) ++ replicate 214 x00.
Proof.
  unfold Header.pack. intros Hp.
  repeat (apply bind_ok in Hp as (? & ?%pack_uint_inv & Hp)
          || apply bind_ok in Hp as (? & ?%pack_f_inv & Hp)).
  apply Ok_inj in Hp. destruct_and?. subst.
  change (2 ^ (8 * Z.of_nat 1)) with 256 in *.
  change (2 ^ (8 * Z.of_nat 2)) with 65536 in *.
  split; [|reflexivity]. unfold Layout.header_fits. lia.
Qed.

Lemma header_pack_length (hd : Header.t) (bs : list byte) :
  Header.pack hd = Ok bs -> length bs = 512%nat.
Proof.
  intros [_ ->]%header_pack_inv.
  rewrite !length_app, !length_le_bytes, !length_replicate. reflexivity.
Qed.

(** X1: [Header.write] followed by [Header.read] gives the header back:
    every integer field as it was, the two floating-point fields rounded
    to binary32 and [long_event_labels] as the flag 0 or 0x3039; the
    handle is left after the 512 bytes of the header. *)
Theorem header_write_read (hd : Header.t) (h h' : handle) :
  Header.write hd h = Ok h' ->
  fst (Header.read h') = Ok (Layout.header hd) /\
  position (snd (Header.read h')) = 512%nat.
Proof.
  unfold Header.write. intros Hw.
  apply bind_ok in Hw as (h0 & Hs & Hw). apply Ok_inj in Hs.
  apply bind_ok in Hw as (bs & Hp & Hh). apply Ok_inj in Hh. subst h' h0.
  pose proof (header_pack_length _ _ Hp) as Hlen.
  unfold Header.read, Handle.seek. change (0 <? 0) with false. cbv iota.
  unfold Handle.read, Handle.write. cbn [contents position log].
  change (Z.to_nat 0) with 0%nat. change (512 <? 0) with false. cbv iota.
  change (Z.to_nat 512) with 512%nat.
  rewrite take_0, drop_0, Nat.sub_0_l. cbn [app replicate].
  rewrite take_app_length' by (symmetry; exact Hlen).
  destruct (decide (length bs = 512%nat)) as [_|]; [|contradiction].
  cbn [fst snd position]. split; [|lia].
  apply header_pack_inv in Hp as [Hfits ->].
  unfold Layout.header_fits in Hfits. destruct_and?.
  pose proof (float32_bits_range (Header.scale_factor hd)).
  pose proof (float32_bits_range (Header.frame_rate hd)).
  assert (0 <= (if Header.long_event_labels hd =? 0 then 0 else 12345) < 65536)
    by (destruct (_ =? _); lia).
  cbn [Header.field take drop firstn skipn app le_bytes replicate].
  rewrite !le_uint_1, !le_uint_2, !le_uint_4
    by first [assumption | split; assumption | cbv; split; congruence ].
  change (80 =? 80) with true. cbn [assert bind]. reflexivity.
Qed.

Lemma header_write_read_witness :
  exists h' : handle,
    Header.write Header.default (Handle.open []) = Ok h' /\
    fst (Header.read h') = Ok (Layout.header Header.default).
Proof.
  destruct (Header.write Header.default (Handle.open [])) as [h'|e] eqn:Hw;
    [|vm_compute in Hw; discriminate].
  exists h'. split; [reflexivity|].
  exact (proj1 (header_write_read Header.default (Handle.open []) h' Hw)).
Defined.

(** X2: [Header.write] succeeds only when every integer field fits its
    width; it then replaces the first 512 bytes of the file, keeps what
    follows them and leaves the handle at offset 512. *)
Theorem header_write_extent (hd : Header.t) (h h' : handle) :
  Header.write hd h = Ok h' ->
  Layout.header_fits hd /\
  length (take 512 (contents h')) = 512%nat /\
  drop 512 (contents h') = drop 512 (contents h) /\
  position h' = 512%nat.
Proof.
  unfold Header.write. intros Hw.
  apply bind_ok in Hw as (h0 & Hs & Hw). apply Ok_inj in Hs.
  apply bind_ok in Hw as (bs & Hp & Hh). apply Ok_inj in Hh. subst h' h0.
  pose proof (header_pack_length _ _ Hp) as Hlen.
  apply header_pack_inv in Hp as [Hfits _].
  unfold Handle.write. cbn [contents position].
  change (Z.to_nat 0) with 0%nat.
  rewrite take_0, Nat.sub_0_l. cbn [app replicate Nat.add].
  repeat split; try apply Hfits.
  - rewrite take_app_length' by (symmetry; exact Hlen). exact Hlen.
  - rewrite drop_app_length' by (symmetry; exact Hlen). now rewrite Hlen.
  - exact Hlen.
Qed.

Lemma header_write_extent_witness :
  exists h' : handle,
    Header.write Header.default (Handle.open (replicate 600 x01)) = Ok h' /\
    drop 512 (contents h') = replicate 88 x01.
Proof.
  destruct (Header.write Header.default (Handle.open (replicate 600 x01)))
    as [h'|e] eqn:Hw; [|vm_compute in Hw; discriminate].
  exists h'. split; [reflexivity|].
  exact (proj1 (proj2 (proj2
    (header_write_extent Header.default (Handle.open (replicate 600 x01)) h' Hw)))).
Defined.

Lemma u8_range (b : byte) : 0 <= u8 b < 256.
Proof. unfold u8. pose proof (Byte.to_N_bounded b). lia. Qed.

Lemma le_uint_range (bs : list byte) : 0 <= le_uint bs < 256 ^ Z.of_nat (length bs).
Proof.
  induction bs as [|b bs IH]; [cbn; lia|].
  cbn [le_uint length]. rewrite Nat2Z.inj_succ, Z.pow_succ_r by lia.
  pose proof (u8_range b). nia.
Qed.

Lemma field_range (off len : nat) (buf : list byte) :
  0 <= le_uint (Header.field off len buf) < 256 ^ Z.of_nat len.
Proof.
  pose proof (le_uint_range (Header.field off len buf)) as Hr.
  assert (Hl : (length (Header.field off len buf) <= len)%nat).
  { unfold Header.field. rewrite length_take. lia. }
  assert (256 ^ Z.of_nat (length (Header.field off len buf)) <= 256 ^ Z.of_nat len)
    by (apply Z.pow_le_mono_r; lia).
  lia.
Qed.

(** X3: [Header.read] accepts every file of at least 512 bytes whose
    second byte is 80, whatever the other bytes are, and every integer
    field of the header it returns fits the width of its field, so that
    the header can be written again. *)
Theorem header_read_accepts (h : handle) (magic : byte) :
  (512 <= length (contents h))%nat ->
  contents h !! 1%nat = Some magic ->
  u8 magic = 80 ->
  exists hd, fst (Header.read h) = Ok hd /\ Layout.header_fits hd.
Proof.
  intros Hlen Hmagic H80.
  unfold Header.read, Handle.seek. change (0 <? 0) with false. cbv iota.
  unfold Handle.read. cbn [contents position log].
  change (512 <? 0) with false. cbv iota.
  change (Z.to_nat 0) with 0%nat. change (Z.to_nat 512) with 512%nat.
  rewrite drop_0. cbn [fst].
  set (buf := take 512 (contents h)).
  assert (Hbuf : length buf = 512%nat) by (subst buf; rewrite length_take; lia).
  destruct (decide (length buf = 512%nat)) as [_|]; [|contradiction].
  assert (Hm : le_uint (Header.field 1 1 buf) = 80).
  { unfold Header.field. subst buf.
    destruct (contents h) as [|b0 [|b1 rest]]; try discriminate Hmagic.
    injection Hmagic as ->. cbn [take drop firstn skipn le_uint].
    rewrite H80, take_0. reflexivity. }
  rewrite Hm. change (80 =? 80) with true. cbn [assert bind].
  eexists. split; [reflexivity|].
  unfold Layout.header_fits.
  cbv [Header.parameter_block Header.point_count Header.analog_count
       Header.first_frame Header.last_frame Header.max_gap Header.data_block
       Header.sample_per_frame Header.label_block].
  pose proof (field_range 0 1 buf). pose proof (field_range 2 2 buf).
  pose proof (field_range 4 2 buf). pose proof (field_range 6 2 buf).
  pose proof (field_range 8 2 buf). pose proof (field_range 10 2 buf).
  pose proof (field_range 16 2 buf). pose proof (field_range 18 2 buf).
  pose proof (field_range 296 2 buf).
  change (256 ^ Z.of_nat 1) with 256 in *.
  change (256 ^ Z.of_nat 2) with 65536 in *.
  repeat (split; [assumption|]). assumption.
Qed.

Lemma header_read_accepts_witness :
  exists hd,
    fst (Header.read (Handle.open (replicate 512 x50))) = Ok hd /\
    Layout.header_fits hd.
Proof.
  exact (header_read_accepts (Handle.open (replicate 512 x50)) x50
           ltac:(vm_compute; lia) eq_refl eq_refl).
Defined.

(** ** Sequences of writes *)

Lemma written_inside (h : handle) (bs : list byte) (h' : handle) :
  Layout.inside h -> Layout.written h bs h' -> Layout.inside h'.
Proof.
  unfold Layout.inside, Layout.written. intros Hi [Hc Hp]. rewrite Hc, Hp.
  rewrite !length_app, length_take, length_drop. lia.
Qed.

Lemma written_write (h : handle) (bs : list byte) :
  Layout.inside h -> Layout.written h bs (Handle.write bs h).
Proof.
  unfold Layout.inside, Layout.written, Handle.write. intros Hi.
  cbn [contents position].
  replace (position h - length (contents h))%nat with 0%nat by lia.
  split; reflexivity.
Qed.

Lemma written_nil (h : handle) : Layout.inside h -> Layout.written h [] h.
Proof.
  unfold Layout.inside, Layout.written. intros Hi. cbn [app length].
  rewrite Nat.add_0_r, take_drop. split; reflexivity.
Qed.

Lemma written_app (h : handle) (a : list byte) (h1 : handle) (b : list byte)
    (h2 : handle) :
  Layout.inside h -> Layout.written h a h1 -> Layout.written h1 b h2 ->
  Layout.written h (a ++ b) h2.
Proof.
  unfold Layout.inside, Layout.written. intros Hi [Hc1 Hp1] [Hc2 Hp2].
  rewrite Hc2, Hp2, Hp1, Hc1. clear Hc1 Hc2 Hp1 Hp2.
  rewrite length_app. split; [|lia].
  assert (Hl : length (take (position h) (contents h)) = position h)
    by (rewrite length_take; lia).
  rewrite !(app_assoc (take (position h) (contents h)) a).
  rewrite take_app_length' by (rewrite length_app; lia).
  rewrite drop_app_ge by (rewrite length_app; lia).
  rewrite drop_drop, length_app, Hl.
  rewrite <- !app_assoc. do 3 f_equal. f_equal. lia.
Qed.

Lemma written_step (h : handle) (acc : list byte) (h1 : handle) (bs : list byte) :
  Layout.inside h -> Layout.written h acc h1 ->
  Layout.written h (acc ++ bs) (Handle.write bs h1).
Proof.
  intros Hi Hw. eapply written_app; [exact Hi | exact Hw |].
  apply written_write. eapply written_inside; eauto.
Qed.

Lemma emit_ok (r : result (list byte)) (h h' : handle) :
  Handle.emit r h = (Ok tt, h') -> exists bs, r = Ok bs /\ h' = Handle.write bs h.
Proof. unfold Handle.emit. destruct r; intros [= <-]; eauto. Qed.

Lemma andthen_ok (a b : Handle.writer) (h h' : handle) :
  Handle.andthen a b h = (Ok tt, h') ->
  exists h1, a h = (Ok tt, h1) /\ b h1 = (Ok tt, h').
Proof.
  unfold Handle.andthen. destruct (a h) as [[[]|e] h1]; [eauto|discriminate].
Qed.

Lemma andthen_emit_ok (r : result (list byte)) (w : Handle.writer) (h h' : handle) :
  Handle.andthen (Handle.emit r) w h = (Ok tt, h') ->
  exists bs, r = Ok bs /\ w (Handle.write bs h) = (Ok tt, h').
Proof.
  intros (h1 & (bs & -> & ->)%emit_ok & Hw)%andthen_ok. eauto.
Qed.

(** ** Parameter records *)

Section ParamRecord.
Context `{Text}.

Lemma param_write_inv (gid : Z) (p : Param.t) (h h' : handle) :
  Param.write gid p h = (Ok tt, h') ->
  Layout.inside h ->
  Layout.written h (Layout.param_record gid p) h' /\ Layout.packable gid p.
Proof.
  unfold Param.write. cbv zeta. intros Hw Hi.
  apply andthen_emit_ok in Hw as (b0 & (Hn & Hg & ->)%pack_bb_inv & Hw).
  apply andthen_emit_ok in Hw as (b1 & Hb1 & Hw). apply Ok_inj in Hb1. subst b1.
  apply andthen_emit_ok in Hw as (b2 & [Ho ->]%pack_int_inv & Hw).
  apply andthen_emit_ok in Hw as (b3 & [Hbpe ->]%pack_int_inv & Hw).
  apply andthen_emit_ok in Hw as (b4 & [Hnd ->]%pack_uint_inv & Hw).
  apply andthen_emit_ok in Hw as (b5 & [Hd ->]%pack_Bs_inv & Hw).
  apply andthen_ok in Hw as (h6 & Hb & Hw).
  apply andthen_emit_ok in Hw as (b7 & [Hdl ->]%pack_uint_inv & Hw).
  apply emit_ok in Hw as (b8 & Hb8 & ->). apply Ok_inj in Hb8. subst b8.
  change (2 ^ (8 * Z.of_nat 1 - 1)) with 128 in *.
  change (2 ^ (8 * Z.of_nat 2 - 1)) with 32768 in *.
  change (2 ^ (8 * Z.of_nat 1)) with 256 in *.
  change (2 ^ (8 * Z.of_nat 2)) with 65536 in *.
  split; [|unfold Layout.packable; repeat split; first [assumption | lia]].
  pose proof (written_write h
    [byte_of_Z (Z.of_nat (length (utf8_encode (Param.name p))) mod 256);
     byte_of_Z (gid mod 256)] Hi) as W.
  apply (written_step _ _ _ (utf8_encode (Param.name p)) Hi) in W.
  apply (written_step _ _ _ (le_bytes 2 ((Param.binary_size p - 2 -
           Z.of_nat (length (utf8_encode (Param.name p)))) mod 65536)) Hi) in W.
  apply (written_step _ _ _ (le_bytes 1 (Param.bytes_per_element p mod 256)) Hi) in W.
  apply (written_step _ _ _ (le_bytes 1 (Z.of_nat (length (Param.dimensions p)))) Hi) in W.
  apply (written_step _ _ _ (byte_of_Z <$> Param.dimensions p) Hi) in W.
  assert (W6 : exists acc, Layout.written h acc h6 /\ acc ++
      le_bytes 1 (Z.of_nat (length (utf8_encode (Param.desc p)))) ++
      utf8_encode (Param.desc p) = Layout.param_record gid p).
  { match type of W with Layout.written _ ?acc _ => exists (acc ++ Param.bytes p) end.
    split; [|unfold Layout.param_record; cbn [le_bytes]; now rewrite <- !app_assoc].
    destruct (Param.bytes p) as [|b bs] eqn:Eb.
    - unfold Handle.skip in Hb. injection Hb as <-. rewrite app_nil_r. exact W.
    - apply emit_ok in Hb as (x & Hx & ->). apply Ok_inj in Hx. subst x.
      eapply written_step; eauto. }
  destruct W6 as (acc & W6 & <-).
  apply (written_step _ _ _
           (le_bytes 1 (Z.of_nat (length (utf8_encode (Param.desc p))))) Hi) in W6.
  apply (written_step _ _ _ (utf8_encode (Param.desc p)) Hi) in W6.
  rewrite <- app_assoc in W6. exact W6.
Qed.

Lemma length_param_record (gid : Z) (p : Param.t) :
  Z.of_nat (length (Param.bytes p)) = Param.total_bytes p ->
  Z.of_nat (length (Layout.param_record gid p)) = Param.binary_size p.
Proof.
  intros Hlen. unfold Layout.param_record, Param.binary_size. cbv zeta.
  rewrite !length_app, length_le_bytes, length_fmap. cbn [length]. lia.
Qed.

Lemma read_dims_app (dims : list Z) (rest : list byte) :
  Forall (fun v => 0 <= v < 256) dims ->
  Param.read_dims (length dims) ((byte_of_Z <$> dims) ++ rest) = Ok (dims, rest).
Proof.
  induction 1 as [|d dims Hd _ IH]; [reflexivity|].
  cbn [length Param.read_dims fmap list_fmap app]. rewrite buf_read_1.
  rewrite unpack_B_byte by exact Hd. cbn [bind]. rewrite IH. reflexivity.
Qed.

Lemma param_record_read (gid : Z) (p : Param.t) (rest : list byte) :
  Layout.packable gid p -> Layout.storable p -> 0 < gid ->
  exists buf,
    Directory.read_record (Layout.param_record gid p ++ rest)
      = Ok (Some (Directory.RParam gid (Param.name p) buf, Param.binary_size p)) /\
    Directory.param_of (Param.name p) buf = Some p /\
    slice_from (Param.binary_size p) (Layout.param_record gid p ++ rest) = rest.
Proof.
  intros (Hn & Hg & Ho & Hbpe & Hnd & Hd & Hdl)
         (Hname & Hdn & Hup & Hdd & Hde & Hlen) Hgid.
  pose proof (length_param_record gid p Hlen) as Hsize.
  set (n := Z.of_nat (length (utf8_encode (Param.name p)))) in *.
  assert (Hn0 : 0 < n).
  { subst n. destruct (utf8_encode (Param.name p)); [congruence|cbn [length]; lia]. }
  eexists. split; [|split].
  - unfold Directory.read_record, Layout.param_record. cbv zeta.
    rewrite <- !app_assoc. cbn [app].
    change (buf_read 2 (?a :: ?b :: ?l)) with ([a; b], l).
    cbv beta iota. fold n.
    rewrite !u8_byte_of_Z, !Z.mod_mod by lia.
    rewrite (signed_8 n) by lia. rewrite (signed_8 gid) by lia.
    replace (gid =? 0) with false by (symmetry; apply Z.eqb_neq; lia).
    replace (n =? 0) with false by (symmetry; apply Z.eqb_neq; lia).
    cbn [orb]. rewrite Z.abs_eq by lia.
    rewrite buf_read_app by reflexivity.
    unfold decode. rewrite Hdn. cbn [bind]. rewrite Hup.
    rewrite buf_read_app by (now rewrite length_le_bytes).
    rewrite unpack_h_bytes by exact Ho. cbn [bind].
    replace (0 <? gid) with true by (symmetry; apply Z.ltb_lt; lia).
    do 3 f_equal. lia.
  - unfold Directory.param_of, Param.init. cbn [Param.kw_other Param.kw_handle
      Param.kw_desc Param.kw_bytes_per_element Param.kw_dimensions Param.kw_bytes].
    rewrite Hup. unfold Param.read. rewrite buf_read_1.
    rewrite unpack_b_byte by exact Hbpe. cbn [bind]. rewrite buf_read_1.
    rewrite unpack_B_byte by lia. cbn [bind]. rewrite Nat2Z.id.
    rewrite read_dims_app by exact Hd. cbn [bind Param.name Param.desc].
    assert (Htot : Param.total_bytes
              (Param.mk (Param.name p) (default EmptyString None)
                 (Param.bytes_per_element p) (Param.dimensions p) [])
            = Param.total_bytes p) by reflexivity.
    rewrite Htot.
    assert (Hdata :
      (if Param.total_bytes p =? 0
       then ([], Param.bytes p ++
                 byte_of_Z (Z.of_nat (length (utf8_encode (Param.desc p))))
                 :: utf8_encode (Param.desc p) ++ rest)
       else buf_read (Param.total_bytes p)
              (Param.bytes p ++
               byte_of_Z (Z.of_nat (length (utf8_encode (Param.desc p))))
               :: utf8_encode (Param.desc p) ++ rest))
      = (Param.bytes p,
         byte_of_Z (Z.of_nat (length (utf8_encode (Param.desc p))))
         :: utf8_encode (Param.desc p) ++ rest)).
    { destruct (Param.total_bytes p =? 0) eqn:E.
      - apply Z.eqb_eq in E. destruct (Param.bytes p); [reflexivity|].
        cbn [length] in Hlen. lia.
      - apply buf_read_app. exact Hlen. }
    rewrite Hdata. rewrite buf_read_1.
    rewrite unpack_B_byte by lia. cbn [bind].
    destruct (utf8_encode (Param.desc p)) as [|d ds] eqn:Ed.
    + cbn [length]. change (Z.of_nat 0 =? 0) with true. cbv iota. cbn [bind fst].
      specialize (Hde eq_refl). destruct p; cbn in Hde |- *. now subst.
    + replace (Z.of_nat (length (d :: ds)) =? 0) with false
        by (symmetry; apply Z.eqb_neq; cbn [length]; lia).
      rewrite buf_read_app by reflexivity.
      unfold decode. rewrite Hdd. cbn [bind fst]. destruct p; reflexivity.
  - unfold slice_from. rewrite <- Hsize.
    replace (Z.of_nat (length (Layout.param_record gid p)) <? 0) with false
      by (symmetry; apply Z.ltb_ge; lia).
    rewrite Nat2Z.id. apply drop_app_length.
Qed.

(** X4: when [Param.write] returns, and [bytes] holds [total_bytes]
    bytes, it has written [binary_size()] bytes: the handle has advanced
    by that many, which is what the offset field of the record and the
    layout of the parameter section count on. *)
Theorem param_write_size (gid : Z) (p : Param.t) (h h' : handle) :
  Param.write gid p h = (Ok tt, h') ->
  Layout.inside h ->
  Z.of_nat (length (Param.bytes p)) = Param.total_bytes p ->
  Z.of_nat (position h') = Z.of_nat (position h) + Param.binary_size p.
Proof.
  intros Hw Hi Hlen.
  destruct (param_write_inv gid p h h' Hw Hi) as [[_ Hp] _].
  rewrite Hp, Nat2Z.inj_add, (length_param_record gid p Hlen). reflexivity.
Qed.

(** X5: a parameter record written by [Param.write] is read back by the
    directory loop of [Reader.__init__] as the same parameter of the same
    group, and the slice index computed from its offset field is the
    size of the record, so that the loop goes on right after it. *)
Theorem param_write_read (gid : Z) (p : Param.t) (h h' : handle) :
  Param.write gid p h = (Ok tt, h') ->
  Layout.inside h ->
  Layout.storable p ->
  0 < gid ->
  exists rec,
    Layout.written h rec h' /\
    forall rest, exists buf,
      Directory.read_record (rec ++ rest)
        = Ok (Some (Directory.RParam gid (Param.name p) buf, Param.binary_size p)) /\
      Directory.param_of (Param.name p) buf = Some p /\
      slice_from (Param.binary_size p) (rec ++ rest) = rest.
Proof.
  intros Hw Hi Hst Hgid.
  destruct (param_write_inv gid p h h' Hw Hi) as [W Hpack].
  exists (Layout.param_record gid p). split; [exact W|].
  intros rest. now apply param_record_read.
Qed.

End ParamRecord.

Lemma used_param_storable : @Layout.storable Ascii7.text Example.used_param.
Proof.
  unfold Layout.storable. split_and!; try (vm_compute; reflexivity).
  - vm_compute. discriminate.
  - vm_compute. discriminate.
Qed.

Lemma param_write_size_witness :
  let h := Handle.open [] in
  let h' := snd (@Param.write Ascii7.text 1 Example.used_param h) in
  @Param.write Ascii7.text 1 Example.used_param h = (Ok tt, h') /\
  Z.of_nat (position h')
  = Z.of_nat (position h) + @Param.binary_size Ascii7.text Example.used_param.
Proof.
  cbv zeta.
  assert (Hw : @Param.write Ascii7.text 1 Example.used_param (Handle.open [])
               = (Ok tt, snd (@Param.write Ascii7.text 1 Example.used_param
                                (Handle.open []))))
    by (vm_compute; reflexivity).
  split; [exact Hw|].
  exact (@param_write_size Ascii7.text 1 Example.used_param (Handle.open []) _ Hw
           ltac:(vm_compute; lia) ltac:(vm_compute; reflexivity)).
Defined.

Lemma param_write_read_witness :
  let h := Handle.open [] in
  let h' := snd (@Param.write Ascii7.text 1 Example.used_param h) in
  @Param.write Ascii7.text 1 Example.used_param h = (Ok tt, h') /\
  exists rec,
    Layout.written h rec h' /\
    forall rest, exists buf,
      @Directory.read_record Ascii7.text (rec ++ rest)
        = Ok (Some (Directory.RParam 1 "USED" buf, 18)) /\
      @Directory.param_of Ascii7.text "USED" buf = Some Example.used_param /\
      slice_from 18 (rec ++ rest) = rest.
Proof.
  cbv zeta.
  assert (Hw : @Param.write Ascii7.text 1 Example.used_param (Handle.open [])
               = (Ok tt, snd (@Param.write Ascii7.text 1 Example.used_param
                                (Handle.open []))))
    by (vm_compute; reflexivity).
  split; [exact Hw|].
  exact (@param_write_read Ascii7.text 1 Example.used_param (Handle.open []) _ Hw
           ltac:(vm_compute; lia) used_param_storable ltac:(lia)).
Defined.

(** ** Group records *)

Lemma length_raw (s : string) : length (Group.raw s) = String.length s.
Proof.
  unfold Group.raw, list_byte_of_string. rewrite List.length_map.
  induction s as [|a s IH]; cbn; [reflexivity|]. now rewrite IH.
Qed.

Lemma str_of_bytes_raw (s : string) : str_of_bytes (Group.raw s) = s.
Proof. apply string_of_list_byte_of_string. Qed.

Section GroupRecord.
Context `{Text}.

Lemma write_params_inv (gid : Z) (ps : list Param.t) (h h' : handle) :
  Group.write_params gid ps h = (Ok tt, h') ->
  Layout.inside h ->
  Layout.written h (Layout.param_records gid ps) h' /\
  Forall (Layout.packable gid) ps.
Proof.
  revert h. induction ps as [|p ps IH]; intros h Hw Hi.
  - injection Hw as <-. split; [now apply written_nil|constructor].
  - cbn [Group.write_params] in Hw.
    apply andthen_ok in Hw as (h1 & Hp & Hw).
    destruct (param_write_inv gid p h h1 Hp Hi) as [W Hpack].
    destruct (IH h1 Hw (written_inside _ _ _ Hi W)) as [W' Hall].
    split; [|now constructor].
    change (Layout.param_records gid (p :: ps))
      with (Layout.param_record gid p ++ Layout.param_records gid ps).
    eapply written_app; eauto.
Qed.

Lemma group_write_inv (gid : Z) (g : Group.t) (values : list Param.t) (h h' : handle) :
  Group.write gid g values h = (Ok tt, h') ->
  Layout.inside h ->
  exists nm ds,
    Group.name g = Some nm /\ Group.desc g = Some ds /\
    Layout.written h (Layout.group_header gid nm ds ++ Layout.param_records gid values) h' /\
    Z.of_nat (String.length nm) < 128 /\
    -128 < gid <= 128 /\
    Z.of_nat (String.length ds) < 256 /\
    Forall (Layout.packable gid) values.
Proof.
  unfold Group.write. intros Hw Hi.
  destruct (Group.name g) as [nm|]; [|discriminate].
  apply andthen_emit_ok in Hw as (b0 & (Hn & Hg & ->)%pack_bb_inv & Hw).
  apply andthen_emit_ok in Hw as (b1 & Hb1 & Hw). apply Ok_inj in Hb1. subst b1.
  destruct (Group.desc g) as [ds|]; [|discriminate].
  apply andthen_emit_ok in Hw as (b2 & [Ho ->]%pack_int_inv & Hw).
  apply andthen_emit_ok in Hw as (b3 & [Hdl ->]%pack_uint_inv & Hw).
  apply andthen_emit_ok in Hw as (b4 & Hb4 & Hw). apply Ok_inj in Hb4. subst b4.
  change (2 ^ (8 * Z.of_nat 1 - 1)) with 128 in *.
  change (2 ^ (8 * Z.of_nat 2 - 1)) with 32768 in *.
  change (2 ^ (8 * Z.of_nat 1)) with 256 in *.
  change (2 ^ (8 * Z.of_nat 2)) with 65536 in *.
  pose proof (written_write h
    [byte_of_Z (Z.of_nat (String.length nm) mod 256);
     byte_of_Z ((- gid) mod 256)] Hi) as W.
  apply (written_step _ _ _ (Group.raw nm) Hi) in W.
  apply (written_step _ _ _
           (le_bytes 2 ((3 + Z.of_nat (String.length ds)) mod 65536)) Hi) in W.
  apply (written_step _ _ _ (le_bytes 1 (Z.of_nat (String.length ds))) Hi) in W.
  apply (written_step _ _ _ (Group.raw ds) Hi) in W.
  destruct (write_params_inv gid values _ h' Hw (written_inside _ _ _ Hi W))
    as [W' Hall].
  exists nm, ds. split; [reflexivity|]. split; [reflexivity|].
  split; [|repeat split; first [assumption | lia]].
  eapply written_app; [exact Hi| |exact W'].
  unfold Layout.group_header. cbn [le_bytes] in W. rewrite <- !app_assoc in W.
  exact W.
Qed.

Lemma length_group_header (gid : Z) (nm ds : string) :
  Z.of_nat (length (Layout.group_header gid nm ds))
  = 1 + 1 + Z.of_nat (String.length nm) + 2 + 1 + Z.of_nat (String.length ds).
Proof.
  unfold Layout.group_header.
  rewrite !length_app, length_le_bytes, !length_raw. cbn [length]. lia.
Qed.

Lemma group_header_read (gid : Z) (nm ds : string) (rest : list byte) :
  0 < gid <= 128 ->
  nm <> EmptyString ->
  Z.of_nat (String.length nm) < 128 ->
  Z.of_nat (String.length ds) < 256 ->
  utf8_decode (Group.raw nm) = Some nm ->
  Directory.read_record (Layout.group_header gid nm ds ++ rest)
    = Ok (Some (Directory.RGroup gid (str_upper nm) ds,
                Z.of_nat (length (Layout.group_header gid nm ds)))) /\
  slice_from (Z.of_nat (length (Layout.group_header gid nm ds)))
             (Layout.group_header gid nm ds ++ rest) = rest.
Proof.
  intros Hgid Hnm Hn Hd Hdec.
  pose proof (length_group_header gid nm ds) as Hsize.
  set (n := Z.of_nat (String.length nm)) in *.
  set (d := Z.of_nat (String.length ds)) in *.
  assert (Hn0 : 0 < n) by (subst n; destruct nm; [congruence|cbn; lia]).
  split.
  - rewrite Hsize.
    unfold Directory.read_record, Layout.group_header. cbv zeta.
    rewrite <- !app_assoc. cbn [app].
    change (buf_read 2 (?a :: ?b :: ?l)) with ([a; b], l).
    cbv beta iota. fold n d.
    rewrite !u8_byte_of_Z, !Z.mod_mod by lia.
    rewrite (signed_8 n) by lia. rewrite (signed_8 (- gid)) by lia.
    replace (- gid =? 0) with false by (symmetry; apply Z.eqb_neq; lia).
    replace (n =? 0) with false by (symmetry; apply Z.eqb_neq; lia).
    cbn [orb]. rewrite Z.abs_eq by lia.
    rewrite buf_read_app by (rewrite length_raw; reflexivity).
    unfold decode. rewrite Hdec. cbn [bind].
    rewrite buf_read_app by (now rewrite length_le_bytes).
    rewrite unpack_h_bytes by lia. cbn [bind].
    replace (0 <? - gid) with false by (symmetry; apply Z.ltb_ge; lia).
    rewrite buf_read_1. rewrite unpack_B_byte by lia. cbn [bind].
    rewrite Z.abs_opp, Z.abs_eq by lia.
    assert (Hdesc : (if d =? 0 then EmptyString
                     else str_of_bytes (buf_read d (Group.raw ds ++ rest)).1) = ds).
    { destruct (d =? 0) eqn:E.
      - apply Z.eqb_eq in E. subst d. destruct ds; [reflexivity|cbn in E; lia].
      - rewrite buf_read_app by (rewrite length_raw; reflexivity).
        apply str_of_bytes_raw. }
    rewrite Hdesc. do 3 f_equal. lia.
  - unfold slice_from.
    replace (Z.of_nat (length (Layout.group_header gid nm ds)) <? 0) with false
      by (symmetry; apply Z.ltb_ge; lia).
    rewrite Nat2Z.id. apply drop_app_length.
Qed.

Lemma param_records_scan (gid : Z) (ps : list Param.t) (rest : list byte) :
  0 < gid ->
  Forall (Layout.packable gid) ps -> Forall Layout.storable ps ->
  exists recs,
    Directory.scan (Layout.param_records gid ps ++ rest) recs rest /\
    Forall2 (Layout.reads_back gid) ps recs.
Proof.
  intros Hgid Hpack Hst. induction ps as [|p ps IH].
  - exists []. split; [apply Directory.scan_nil|constructor].
  - apply Forall_cons in Hpack as [Hp Hpack]. apply Forall_cons in Hst as [Hs Hst].
    destruct (IH Hpack Hst) as (recs & Hscan & Hall).
    change (Layout.param_records gid (p :: ps))
      with (Layout.param_record gid p ++ Layout.param_records gid ps).
    rewrite <- app_assoc.
    destruct (param_record_read gid p (Layout.param_records gid ps ++ rest) Hp Hs Hgid)
      as (buf & Hread & Hparam & Hslice).
    exists (Directory.RParam gid (Param.name p) buf :: recs). split.
    + eapply Directory.scan_cons; [exact Hread|]. rewrite Hslice. exact Hscan.
    + constructor; [|exact Hall]. exists buf. auto.
Qed.

End GroupRecord.

Section GroupRoundTrip.
Context `{Text}.

(** X7: for a group with a positive id, a name that is not empty and
    that decodes to itself, and parameters that are each storable
    ([Layout.storable]: a non-empty upper-case name, a name and a
    description that survive encoding and decoding, and [bytes] of
    [total_bytes] bytes), what [Group.write] writes on a handle that is
    not past the end of its file is read by the directory loop as the
    header record of the group followed by one record for each
    parameter, in the order in which they were written, each giving back
    its parameter; the loop is then at the end of what was written. *)
Theorem group_write_scan (gid : Z) (g : Group.t) (values : list Param.t)
    (h h' : handle) (nm : string) :
  Group.write gid g values h = (Ok tt, h') ->
  Layout.inside h ->
  0 < gid ->
  Group.name g = Some nm ->
  nm <> EmptyString ->
  utf8_decode (Group.raw nm) = Some nm ->
  Forall Layout.storable values ->
  exists bytes ds,
    Group.desc g = Some ds /\
    Layout.written h bytes h' /\
    forall rest, exists recs,
      Directory.scan (bytes ++ rest)
        (Directory.RGroup gid (str_upper nm) ds :: recs) rest /\
      Forall2 (Layout.reads_back gid) values recs.
Proof.
  intros Hw Hi Hgid Hname Hnm Hdec Hst.
  destruct (group_write_inv gid g values h h' Hw Hi)
    as (nm' & ds & Hn' & Hds & W & Hn & Hg & Hd & Hpack).
  assert (nm' = nm) by congruence. subst nm'.
  exists (Layout.group_header gid nm ds ++ Layout.param_records gid values), ds.
  split; [exact Hds|]. split; [exact W|]. intros rest.
  destruct (param_records_scan gid values rest Hgid Hpack Hst) as (recs & Hscan & Hall).
  exists recs. split; [|exact Hall].
  rewrite <- app_assoc.
  destruct (group_header_read gid nm ds (Layout.param_records gid values ++ rest))
    as [Hread Hslice]; try assumption; try lia.
  eapply Directory.scan_cons; [exact Hread|]. rewrite Hslice. exact Hscan.
Qed.

Lemma foldr_add_perm (l l' : list Z) : l ≡ₚ l' -> foldr Z.add 0 l = foldr Z.add 0 l'.
Proof. induction 1; cbn; lia. Qed.

Lemma length_param_records (gid : Z) (ps : list Param.t) :
  Forall (fun p => Z.of_nat (length (Param.bytes p)) = Param.total_bytes p) ps ->
  Z.of_nat (length (Layout.param_records gid ps))
  = foldr Z.add 0 (Param.binary_size <$> ps).
Proof.
  induction 1 as [|p ps Hp _ IH]; [reflexivity|].
  change (Layout.param_records gid (p :: ps))
    with (Layout.param_record gid p ++ Layout.param_records gid ps).
  rewrite length_app, Nat2Z.inj_add, IH, (length_param_record gid p Hp).
  reflexivity.
Qed.

(** X6: when [Group.write] returns, it has written [binary_size()]
    bytes, provided that the name and the description of the group have
    as many characters as their UTF-8 encodings have bytes and that each
    parameter holds [total_bytes] bytes. *)
Theorem group_write_size (gid : Z) (g : Group.t) (values : list Param.t)
    (h h' : handle) (nm ds : string) :
  Group.write gid g values h = (Ok tt, h') ->
  Layout.inside h ->
  values ≡ₚ (map_to_list (Group.params g)).*2 ->
  Group.name g = Some nm -> Group.desc g = Some ds ->
  length (utf8_encode nm) = String.length nm ->
  length (utf8_encode ds) = String.length ds ->
  Forall (fun p => Z.of_nat (length (Param.bytes p)) = Param.total_bytes p) values ->
  exists size,
    Group.binary_size g = Ok size /\
    Z.of_nat (position h') = Z.of_nat (position h) + size.
Proof.
  intros Hw Hi Hperm Hname Hdesc Hln Hld Hbytes.
  destruct (group_write_inv gid g values h h' Hw Hi)
    as (nm' & ds' & Hn' & Hds' & [_ Hpos] & _).
  assert (nm' = nm) by congruence. assert (ds' = ds) by congruence. subst nm' ds'.
  unfold Group.binary_size, Group.encoded_len. rewrite Hname, Hdesc. cbn [bind].
  eexists. split; [reflexivity|].
  rewrite Hpos, Nat2Z.inj_add, length_app, Nat2Z.inj_add.
  rewrite length_group_header, (length_param_records gid values Hbytes).
  unfold Group.params_size.
  rewrite (foldr_add_perm (Param.binary_size <$> (map_to_list (Group.params g)).*2)
             (Param.binary_size <$> values))
    by (now rewrite Hperm).
  rewrite Hln, Hld. lia.
Qed.

End GroupRoundTrip.

Lemma foldl_insert_other (ps : list Param.t) (acc : gmap string Param.t) (k : string) :
  k ∉ Param.name <$> ps ->
  foldl (fun acc p => <[Param.name p := p]> acc) acc ps !! k = acc !! k.
Proof.
  revert acc. induction ps as [|p ps IH]; intros acc Hk; [reflexivity|].
  cbn [foldl]. rewrite fmap_cons in Hk. apply not_elem_of_cons in Hk as [Hne Hk].
  rewrite IH by exact Hk. now rewrite lookup_insert_ne.
Qed.

Lemma foldl_insert_elem (ps : list Param.t) (acc : gmap string Param.t) (p : Param.t) :
  NoDup (Param.name <$> ps) -> p ∈ ps ->
  foldl (fun acc p => <[Param.name p := p]> acc) acc ps !! Param.name p = Some p.
Proof.
  revert acc. induction ps as [|q ps IH]; intros acc Hnd Hin.
  - now apply elem_of_nil in Hin.
  - rewrite fmap_cons in Hnd. apply NoDup_cons in Hnd as [Hq Hnd].
    cbn [foldl]. apply elem_of_cons in Hin as [->|Hin].
    + rewrite foldl_insert_other by exact Hq. apply lookup_insert_eq.
    + now apply IH.
Qed.

Lemma names_of_values (l : list (string * Param.t)) :
  Forall (fun kp => Param.name kp.2 = kp.1) l -> Param.name <$> l.*2 = l.*1.
Proof.
  induction 1 as [|[k p] l Hkp _ IH]; [reflexivity|].
  cbn in *. rewrite IH. now subst.
Qed.

Lemma by_name_values (params : gmap string Param.t) (values : list Param.t) :
  (forall k p, params !! k = Some p -> Param.name p = k) ->
  values ≡ₚ (map_to_list params).*2 ->
  Layout.by_name values = params.
Proof.
  intros Hkeys Hperm.
  assert (Hnames : Param.name <$> (map_to_list params).*2 = (map_to_list params).*1).
  { apply names_of_values, Forall_forall. intros [k p] Hk.
    apply elem_of_map_to_list in Hk. cbn. now apply Hkeys. }
  assert (Hnd : NoDup (Param.name <$> values)).
  { rewrite Hperm, Hnames. apply NoDup_fst_map_to_list. }
  assert (Hmem : forall p, p ∈ values <-> exists k, params !! k = Some p).
  { intros p. rewrite Hperm. rewrite list_elem_of_fmap. split.
    - intros ([k q] & -> & Hk). exists k. now apply elem_of_map_to_list.
    - intros [k Hk]. exists (k, p). split; [reflexivity|].
      now apply elem_of_map_to_list. }
  apply map_eq. intros k. unfold Layout.by_name.
  destruct (params !! k) as [p|] eqn:Ek.
  - rewrite <- (Hkeys k p Ek). apply foldl_insert_elem; [exact Hnd|].
    apply Hmem. eauto.
  - rewrite foldl_insert_other; [apply lookup_empty|].
    intros (p & -> & Hp)%list_elem_of_fmap.
    apply Hmem in Hp as [k' Hk']. rewrite (Hkeys _ _ Hk') in Ek. congruence.
Qed.

Section ReadGroup.
Context `{Text}.

Lemma apply_group_header (m : Manager.t) (gid : Z) (name desc : string) :
  Manager.groups m !! KInt gid = None ->
  Manager.groups m !! KStr (str_upper name) = None ->
  exists m',
    Directory.apply_record (Directory.RGroup gid name desc) m = Ok m' /\
    Manager.groups m' !! KInt gid = Some (length (Manager.heap m)) /\
    Manager.groups m' !! KStr (str_upper name) = Some (length (Manager.heap m)) /\
    Manager.heap m' !! length (Manager.heap m)
    = Some (Group.mk (Some (str_upper name)) (Some desc) ∅).
Proof.
  intros Hid Hname. unfold Directory.apply_record, Manager.get_int. rewrite Hid.
  unfold Manager.add_group. rewrite Hid, Hname.
  destruct (decide (is_Some None)) as [[? ?]|_]; [discriminate|].
  cbn [Manager.alloc bind]. eexists. split; [reflexivity|].
  unfold Manager.set_key. cbn [Manager.groups Manager.heap].
  split; [apply lookup_insert_eq|]. split.
  - destruct (decide (KInt gid = KStr (str_upper name))); [discriminate|].
    rewrite lookup_insert_ne by congruence. apply lookup_insert_eq.
  - apply list_lookup_middle. reflexivity.
Qed.

Lemma apply_param (m : Manager.t) (gid : Z) (r : nat) (g : Group.t)
    (p : Param.t) (rec : Directory.record) :
  Manager.groups m !! KInt gid = Some r ->
  Manager.heap m !! r = Some g ->
  Layout.reads_back gid p rec ->
  str_upper (Param.name p) = Param.name p ->
  exists m',
    Directory.apply_record rec m = Ok m' /\
    Manager.groups m' = Manager.groups m /\
    Manager.heap m' !! r
    = Some (Group.mk (Group.name g) (Group.desc g)
              (<[Param.name p := p]> (Group.params g))).
Proof.
  intros Hid Hr (buf & -> & Hparam) Hup.
  unfold Directory.apply_record, Reader.setdefault. rewrite Hid.
  unfold Manager.deref. rewrite Hr. cbn [bind].
  unfold Group.add_param. unfold Directory.param_of in Hparam.
  destruct (Param.init (str_upper (Param.name p)) _) as [[p' o]|]; [|discriminate].
  injection Hparam as ->. cbn [bind fst]. eexists. split; [reflexivity|].
  unfold Manager.update. cbn [Manager.groups Manager.heap].
  split; [reflexivity|]. rewrite list_lookup_alter_eq, Hr, Hup. reflexivity.
Qed.

Lemma apply_params (gid : Z) (r : nat) (ps : list Param.t)
    (recs : list Directory.record) :
  Forall2 (Layout.reads_back gid) ps recs ->
  Forall (fun p => str_upper (Param.name p) = Param.name p) ps ->
  forall (m : Manager.t) (g : Group.t),
    Manager.groups m !! KInt gid = Some r ->
    Manager.heap m !! r = Some g ->
    exists m',
      Directory.apply_all recs m = Ok m' /\
      Manager.groups m' = Manager.groups m /\
      Manager.heap m' !! r
      = Some (Group.mk (Group.name g) (Group.desc g)
                (foldl (fun acc p => <[Param.name p := p]> acc) (Group.params g) ps)).
Proof.
  induction 1 as [|p rec ps recs Hp _ IH]; intros Hup m g Hid Hr.
  - exists m. destruct g. auto.
  - apply Forall_cons in Hup as [Hu Hup].
    destruct (apply_param m gid r g p rec Hid Hr Hp Hu) as (m1 & Hrec & Hg1 & Hh1).
    destruct (IH Hup m1 _ ltac:(now rewrite Hg1) Hh1) as (m' & Hall & Hg' & Hh').
    exists m'. cbn [Directory.apply_all]. rewrite Hrec. cbn [bind].
    split; [exact Hall|]. split; [congruence|]. exact Hh'.
Qed.

Lemma loop_padding (fuel : nat) (m : Manager.t) (n : nat) :
  n <> 1%nat ->
  Reader.loop (S fuel) m (replicate n x00) = Some (Ok m).
Proof.
  intros Hn. destruct n as [|[|n]]; [reflexivity|congruence|]. reflexivity.
Qed.

(** X8: a group written by [Group.write] and followed by the zero bytes
    that pad the parameter section is read back by the directory loop of
    [Reader.__init__]: started on an empty store, the loop ends with the
    group stored under its number and under its name, with the same
    name, description and parameters. *)
Theorem group_write_read (gid : Z) (g : Group.t) (values : list Param.t)
    (h h' : handle) (nm : string) :
  Group.write gid g values h = (Ok tt, h') ->
  Layout.inside h ->
  0 < gid ->
  Group.name g = Some nm ->
  nm <> EmptyString ->
  utf8_decode (Group.raw nm) = Some nm ->
  str_upper nm = nm ->
  Forall Layout.storable values ->
  values ≡ₚ (map_to_list (Group.params g)).*2 ->
  (forall k p, Group.params g !! k = Some p -> Param.name p = k) ->
  exists bytes,
    Layout.written h bytes h' /\
    forall (hd : Header.t) (padding fuel : nat),
      padding <> 1%nat ->
      (length values + 1 < fuel)%nat ->
      exists m,
        Reader.loop fuel (Manager.init hd) (bytes ++ replicate padding x00)
        = Some (Ok m) /\
        Manager.groups m !! KInt gid = Some 0%nat /\
        Manager.groups m !! KStr nm = Some 0%nat /\
        Manager.heap m !! 0%nat = Some g.
Proof.
  intros Hw Hi Hgid Hname Hnm Hdec Hup Hst Hperm Hkeys.
  destruct (group_write_inv gid g values h h' Hw Hi)
    as (nm' & ds & Hn' & Hds & W & Hn & Hg & Hd & Hpack).
  assert (nm' = nm) by congruence. subst nm'.
  exists (Layout.group_header gid nm ds ++ Layout.param_records gid values).
  split; [exact W|]. intros hd padding fuel Hpad Hfuel.
  set (rest := replicate padding x00).
  destruct (param_records_scan gid values rest Hgid Hpack Hst) as (recs & Hscan & Hall).
  destruct (group_header_read gid nm ds (Layout.param_records gid values ++ rest))
    as [Hread Hslice]; try assumption; try lia.
  assert (Hscan' : Directory.scan
            ((Layout.group_header gid nm ds ++ Layout.param_records gid values) ++ rest)
            (Directory.RGroup gid (str_upper nm) ds :: recs) rest).
  { rewrite <- app_assoc.
    eapply Directory.scan_cons; [exact Hread|]. rewrite Hslice. exact Hscan. }
  destruct (apply_group_header (Manager.init hd) gid (str_upper nm) ds)
    as (m1 & Hrec & Hid1 & Hnm1 & Hh1); [apply lookup_empty..|].
  cbn [Manager.init Manager.heap length] in Hid1, Hnm1, Hh1.
  rewrite !Hup in *.
  assert (Hups : Forall (fun p => str_upper (Param.name p) = Param.name p) values).
  { eapply Forall_impl; [exact Hst|]. intros p Hp. apply Hp. }
  destruct (apply_params gid 0 values recs Hall Hups m1 _ Hid1 Hh1)
    as (m & Happ & Hgm & Hhm).
  cbn [Group.name Group.desc Group.params] in Hhm.
  exists m. split; [|split; [|split]].
  - assert (Hlen : length recs = length values)
      by (symmetry; eapply Forall2_length; exact Hall).
    destruct fuel as [|fuel]; [lia|].
    replace (S fuel) with (length (Directory.RGroup gid nm ds :: recs)
                           + S (fuel - S (length recs)))%nat
      by (cbn [length]; lia).
    rewrite (loop_scan _ _ _ Hscan' (Manager.init hd) m).
    + now apply loop_padding.
    + cbn [Directory.apply_all]. rewrite Hrec. cbn [bind]. exact Happ.
  - now rewrite Hgm.
  - now rewrite Hgm.
  - rewrite Hhm. f_equal.
    change (foldl _ ∅ values) with (Layout.by_name values).
    rewrite (by_name_values (Group.params g) values Hkeys Hperm).
    destruct g as [gn gd gp]. cbn in *. congruence.
Qed.

End ReadGroup.

Lemma used_group_values :
  [Example.used_param] ≡ₚ (map_to_list (Group.params Example.used_group)).*2.
Proof.
  unfold Example.used_group. cbn [Group.params].
  rewrite map_to_list_singleton. reflexivity.
Qed.

Lemma used_group_write :
  @Group.write Ascii7.text 1 Example.used_group [Example.used_param] (Handle.open [])
  = (Ok tt, snd (@Group.write Ascii7.text 1 Example.used_group
                   [Example.used_param] (Handle.open []))).
Proof. vm_compute. reflexivity. Qed.

Lemma group_write_scan_witness :
  let h := Handle.open [] in
  let h' := snd (@Group.write Ascii7.text 1 Example.used_group
                   [Example.used_param] h) in
  exists bytes ds,
    Group.desc Example.used_group = Some ds /\
    Layout.written h bytes h' /\
    forall rest, exists recs,
      @Directory.scan Ascii7.text (bytes ++ rest)
        (Directory.RGroup 1 "POINT" ds :: recs) rest /\
      Forall2 (@Layout.reads_back Ascii7.text 1) [Example.used_param] recs.
Proof.
  cbv zeta.
  exact (@group_write_scan Ascii7.text 1 Example.used_group [Example.used_param]
           (Handle.open []) _ "POINT" used_group_write
           ltac:(vm_compute; lia) ltac:(lia) eq_refl ltac:(discriminate) eq_refl
           (Forall_cons_2 _ _ _ used_param_storable (Forall_nil_2 _))).
Defined.

Lemma group_write_size_witness :
  let h := Handle.open [] in
  let h' := snd (@Group.write Ascii7.text 1 Example.used_group
                   [Example.used_param] h) in
  exists size,
    @Group.binary_size Ascii7.text Example.used_group = Ok size /\
    Z.of_nat (position h') = Z.of_nat (position h) + size.
Proof.
  cbv zeta.
  assert (Hbytes : Forall (fun p => Z.of_nat (length (Param.bytes p))
                                    = Param.total_bytes p) [Example.used_param])
    by (repeat constructor).
  exact (@group_write_size Ascii7.text 1 Example.used_group [Example.used_param]
           (Handle.open []) _ "POINT" "points" used_group_write
           ltac:(vm_compute; lia) used_group_values eq_refl eq_refl eq_refl eq_refl
           Hbytes).
Defined.

Lemma group_write_read_witness :
  let h := Handle.open [] in
  let h' := snd (@Group.write Ascii7.text 1 Example.used_group
                   [Example.used_param] h) in
  exists bytes,
    Layout.written h bytes h' /\
    forall (hd : Header.t) (padding fuel : nat),
      padding <> 1%nat ->
      (length [Example.used_param] + 1 < fuel)%nat ->
      exists m,
        @Reader.loop Ascii7.text fuel (Manager.init hd) (bytes ++ replicate padding x00)
        = Some (Ok m) /\
        Manager.groups m !! KInt 1 = Some 0%nat /\
        Manager.groups m !! KStr "POINT" = Some 0%nat /\
        Manager.heap m !! 0%nat = Some Example.used_group.
Proof.
  cbv zeta.
  refine (@group_write_read Ascii7.text 1 Example.used_group [Example.used_param]
           (Handle.open []) _ "POINT" used_group_write
           ltac:(vm_compute; lia) ltac:(lia) eq_refl ltac:(discriminate) eq_refl eq_refl
           (Forall_cons_2 _ _ _ used_param_storable (Forall_nil_2 _))
           used_group_values _).
  unfold Example.used_group. cbn [Group.params].
  intros k p [<- <-]%lookup_singleton_Some. reflexivity.
Defined.

(** ** The directory loop as a whole *)

Section DirectoryLoop.
Context `{Text}.

(** X9: when the chunk holds the records [recs], one after the other
    along the offset fields, and what follows them is empty or starts
    with an end marker, the directory loop ends after one iteration for
    each record and one for the marker, and its result is the store
    that applying the records in turn gives. *)
Theorem loop_reads_records (chunk rest : list byte) (recs : list Directory.record)
    (m m' : Manager.t) (fuel : nat) :
  Directory.scan chunk recs rest ->
  rest = [] \/ Directory.read_record rest = Ok None ->
  Directory.apply_all recs m = Ok m' ->
  (length recs < fuel)%nat ->
  Reader.loop fuel m chunk = Some (Ok m').
Proof.
  intros Hscan Hend Happ Hfuel.
  replace fuel with (length recs + S (fuel - S (length recs)))%nat by lia.
  rewrite (loop_scan _ _ _ Hscan m m' _ Happ).
  destruct Hend as [->|Hend]; [reflexivity|].
  destruct rest as [|b rest]; [reflexivity|].
  cbn [Reader.loop]. rewrite step_read_apply, Hend. reflexivity.
Qed.

(** X10: an iteration that leaves the store and the bytes to read as
    they were is repeated for ever: the loop does not end, whatever the
    number of iterations. *)
Theorem loop_stuck (m : Manager.t) (bytes : list byte) :
  Reader.step m bytes = Ok (Reader.Continue m bytes) ->
  bytes <> [] ->
  forall fuel, Reader.loop fuel m bytes = None.
Proof.
  intros Hstep Hne fuel. induction fuel as [|fuel IH].
  - destruct bytes; [congruence|reflexivity].
  - destruct bytes as [|b bytes]; [congruence|].
    cbn [Reader.loop]. rewrite Hstep. exact IH.
Qed.

(** X11: the loop ends, within as many iterations as the chunk has
    bytes, when every record that can be read at some point of the chunk
    has a slice index that is positive (its offset field points
    forward). *)
Theorem loop_ends (chunk : list byte) :
  (forall s rec k, s `suffix_of` chunk ->
     Directory.read_record s = Ok (Some (rec, k)) -> 0 < k) ->
  forall m, is_Some (Reader.loop (length chunk) m chunk).
Proof.
  intros Hfwd.
  assert (Hgen : forall fuel s m,
            (length s <= fuel)%nat -> s `suffix_of` chunk ->
            is_Some (Reader.loop fuel m s)).
  { induction fuel as [|fuel IH]; intros s m Hlen Hsuf.
    - destruct s; [now eexists|cbn [length] in Hlen; lia].
    - destruct s as [|b s]; [now eexists|].
      cbn [Reader.loop]. rewrite step_read_apply.
      destruct (Directory.read_record (b :: s)) as [[[rec k]|]|e] eqn:Hread;
        cbn [bind]; try (now eexists).
      destruct (Directory.apply_record rec m) as [m1|e]; cbn [bind]; [|now eexists].
      pose proof (Hfwd _ _ _ Hsuf Hread) as Hk.
      unfold slice_from.
      replace (k <? 0) with false by (symmetry; apply Z.ltb_ge; lia).
      apply IH.
      + rewrite length_drop. cbn [length] in *. lia.
      + etransitivity; [apply suffix_drop|exact Hsuf]. }
  intros m. apply Hgen; [lia|reflexivity].
Qed.

End DirectoryLoop.

Lemma loop_reads_records_witness :
  let chunk := Example.late_header_chunk in
  let recs := Example.late_header_params ++ [Example.late_header] in
  @Directory.scan Ascii7.text chunk recs (drop 25 chunk) /\
  @Reader.loop Ascii7.text 4 Example.empty_store chunk
  = Some (Ok (Example.after recs Example.empty_store)).
Proof.
  cbv zeta.
  assert (Hscan : @Directory.scan Ascii7.text Example.late_header_chunk
                    (Example.late_header_params ++ [Example.late_header])
                    (drop 25 Example.late_header_chunk)).
  { apply (@Directory.scan_cons Ascii7.text _ _ 9); [vm_compute; reflexivity|].
    apply (@Directory.scan_cons Ascii7.text _ _ 9); [vm_compute; reflexivity|].
    apply (@Directory.scan_cons Ascii7.text _ _ 7); [vm_compute; reflexivity|].
    apply Directory.scan_nil. }
  assert (Hend : @Directory.read_record Ascii7.text (drop 25 Example.late_header_chunk)
                 = Ok None) by (vm_compute; reflexivity).
  assert (Happ : @Directory.apply_all Ascii7.text
                   (Example.late_header_params ++ [Example.late_header])
                   Example.empty_store
                 = Ok (Example.after
                         (Example.late_header_params ++ [Example.late_header])
                         Example.empty_store))
    by (vm_compute; reflexivity).
  assert (Hfuel : (length (Example.late_header_params ++ [Example.late_header]) < 4)%nat)
    by (vm_compute; lia).
  split; [exact Hscan|].
  exact (@loop_reads_records Ascii7.text _ _ _ _ _ 4%nat Hscan
           (or_intror Hend) Happ Hfuel).
Defined.

Lemma loop_stuck_witness :
  let m := Example.next_store Example.empty_store Example.stuck_chunk in
  @Reader.step Ascii7.text m Example.stuck_chunk
  = Ok (Reader.Continue m Example.stuck_chunk) /\
  forall fuel, @Reader.loop Ascii7.text fuel m Example.stuck_chunk = None.
Proof.
  cbv zeta.
  assert (Hstep : @Reader.step Ascii7.text
                    (Example.next_store Example.empty_store Example.stuck_chunk)
                    Example.stuck_chunk
                  = Ok (Reader.Continue
                          (Example.next_store Example.empty_store Example.stuck_chunk)
                          Example.stuck_chunk))
    by (vm_compute; reflexivity).
  split; [exact Hstep|].
  exact (@loop_stuck Ascii7.text _ _ Hstep ltac:(discriminate)).
Defined.

Lemma late_header_chunk_forward (s : list byte) (rec : Directory.record) (k : Z) :
  s `suffix_of` Example.late_header_chunk ->
  @Directory.read_record Ascii7.text s = Ok (Some (rec, k)) -> 0 < k.
Proof.
  intros [pre Hs] Hread.
  assert (Hdrop : s = drop (length pre) Example.late_header_chunk)
    by (rewrite Hs; now rewrite drop_app_length).
  assert (Hlen : (length pre <= 27)%nat).
  { apply (f_equal length) in Hs. rewrite length_app in Hs.
    change (length Example.late_header_chunk) with 27%nat in Hs. lia. }
  assert (Hall : forallb
            (fun n => match @Directory.read_record Ascii7.text
                              (drop n Example.late_header_chunk) with
                      | Ok (Some (_, k)) => 0 <? k
                      | _ => true
                      end) (seq 0 28) = true)
    by (vm_compute; reflexivity).
  rewrite forallb_forall in Hall.
  specialize (Hall (length pre) ltac:(apply in_seq; lia)).
  rewrite <- Hdrop, Hread in Hall. now apply Z.ltb_lt.
Qed.

Lemma loop_ends_witness :
  is_Some (@Reader.loop Ascii7.text (length Example.late_header_chunk)
             Example.empty_store Example.late_header_chunk).
Proof.
  exact (@loop_ends Ascii7.text Example.late_header_chunk late_header_chunk_forward
           Example.empty_store).
Defined.

(** ** Files that [Reader] refuses *)

Lemma header_read_contents (h : handle) :
  contents (snd (Header.read h)) = contents h /\
  position (snd (Header.read h)) = Nat.min 512 (length (contents h)).
Proof.
  unfold Header.read, Handle.seek. change (0 <? 0) with false. cbv iota.
  unfold Handle.read. cbn [contents position log].
  change (512 <? 0) with false. cbv iota.
  change (Z.to_nat 0) with 0%nat. change (Z.to_nat 512) with 512%nat.
  rewrite drop_0. cbn [snd contents position]. split; [reflexivity|].
  rewrite length_take. lia.
Qed.

Section Refused.
Context `{Text}.

(** X12: on a file of fewer than 512 bytes, the empty file among them,
    [Reader(handle)] raises [struct.error] when it unpacks the header;
    it has then read the whole file and nothing of it has changed. *)
Theorem reader_short_file (fuel : nat) (h : handle) :
  (length (contents h) < 512)%nat ->
  exists h',
    Reader.init fuel h = Some (Raise StructError, h') /\
    contents h' = contents h /\
    position h' = length (contents h).
Proof.
  intros Hlen. unfold Reader.init, Header.init.
  destruct (header_read_contents h) as [Hc Hp].
  assert (Hr : fst (Header.read h) = Raise StructError).
  { unfold Header.read, Handle.seek. change (0 <? 0) with false. cbv iota.
    unfold Handle.read. cbn [contents position log].
    change (512 <? 0) with false. cbv iota.
    change (Z.to_nat 0) with 0%nat. change (Z.to_nat 512) with 512%nat.
    rewrite drop_0. cbn [fst].
    destruct (decide _) as [E|]; [|reflexivity].
    rewrite length_take in E. lia. }
  destruct (Header.read h) as [r h1]. cbn [fst snd] in *. subst r.
  exists h1. split; [reflexivity|]. split; [exact Hc|]. lia.
Qed.

(** X13: when the header is read and the fourth byte of the parameter
    section is not 84, [Reader(handle)] raises [ValueError] with the
    handle four bytes into the section: the directory is not read,
    whatever the section holds. *)
Theorem reader_wrong_processor (fuel : nat) (h : handle) (hd : Header.t)
    (processor : byte) :
  fst (Header.read h) = Ok hd ->
  1 <= Header.parameter_block hd ->
  contents h !! (Z.to_nat ((Header.parameter_block hd - 1) * 512) + 3)%nat
    = Some processor ->
  u8 processor <> 84 ->
  exists h',
    Reader.init fuel h = Some (Raise ValueError, h') /\
    contents h' = contents h /\
    Z.of_nat (position h') = (Header.parameter_block hd - 1) * 512 + 4.
Proof.
  intros Hhd Hpb Hproc Hne. unfold Reader.init, Header.init.
  destruct (header_read_contents h) as [Hc _].
  destruct (Header.read h) as [r h1]. cbn [fst snd] in *. subst r.
  unfold Handle.seek.
  replace ((Header.parameter_block hd - 1) * 512 <? 0) with false
    by (symmetry; apply Z.ltb_ge; lia).
  set (pos := Z.to_nat ((Header.parameter_block hd - 1) * 512)) in *.
  unfold Handle.read. cbn [contents position log].
  change (4 <? 0) with false. cbv iota. change (Z.to_nat 4) with 4%nat.
  rewrite Hc.
  assert (Hlen : (pos + 4 <= length (contents h))%nat).
  { apply lookup_lt_Some in Hproc. lia. }
  assert (Hl4 : length (take 4 (drop pos (contents h))) = 4%nat).
  { rewrite length_take, length_drop. lia. }
  assert (H3 : take 4 (drop pos (contents h)) !! 3%nat = Some processor).
  { rewrite lookup_take_lt by lia. rewrite lookup_drop. exact Hproc. }
  destruct (take 4 (drop pos (contents h))) as [|b0 [|b1 [|b2 [|b3 [|b4 l]]]]];
    try discriminate Hl4.
  injection H3 as ->.
  replace (u8 processor =? 84) with false by (symmetry; apply Z.eqb_neq; exact Hne).
  cbn [negb length]. eexists. split; [reflexivity|].
  cbn [contents position]. split; [reflexivity|]. subst pos. lia.
Qed.

End Refused.

Lemma reader_short_file_witness :
  exists h',
    @Reader.init Ascii7.text 0 (Handle.open []) = Some (Raise StructError, h') /\
    contents h' = [] /\
    position h' = 0%nat.
Proof.
  exact (@reader_short_file Ascii7.text 0 (Handle.open []) ltac:(vm_compute; lia)).
Defined.

Lemma reader_wrong_processor_witness :
  exists h',
    @Reader.init Ascii7.text 0 Example.other_processor_file
    = Some (Raise ValueError, h') /\
    contents h' = contents Example.other_processor_file /\
    Z.of_nat (position h') = 516.
Proof.
  assert (Hhd : fst (Header.read Example.other_processor_file)
                = Ok (Layout.header Header.default))
    by (vm_compute; reflexivity).
  assert (Hpb : 1 <= Header.parameter_block (Layout.header Header.default))
    by (vm_compute; discriminate).
  assert (Hproc : contents Example.other_processor_file
                    !! (Z.to_nat ((Header.parameter_block (Layout.header Header.default)
                                   - 1) * 512) + 3)%nat
                  = Some "S"%byte)
    by (vm_compute; reflexivity).
  assert (Hne : u8 "S"%byte <> 84) by (vm_compute; discriminate).
  exact (@reader_wrong_processor Ascii7.text 0 Example.other_processor_file
           (Layout.header Header.default) "S"%byte Hhd Hpb Hproc Hne).
Defined.

(** ** A reader that has been constructed *)

Section Constructed.
Context `{Text}.

Lemma apply_record_header (rec : Directory.record) (m m' : Manager.t) :
  Directory.apply_record rec m = Ok m' -> Manager.header m' = Manager.header m.
Proof.
  destruct rec as [gid name buf|gid name desc]; cbn [Directory.apply_record].
  - unfold Reader.setdefault.
    destruct (Manager.groups m !! KInt gid) as [r|].
    + intros (g & _ & (g' & _ & Hm)%bind_ok)%bind_ok. injection Hm as <-. reflexivity.
    + cbn [Manager.alloc].
      intros (g & _ & (g' & _ & Hm)%bind_ok)%bind_ok. injection Hm as <-. reflexivity.
  - destruct (Manager.get_int gid m) as [r| |].
    + intros [= <-]. reflexivity.
    + unfold Manager.add_group.
      repeat (destruct (decide _); [discriminate|]). cbv zeta.
      cbn [Manager.alloc bind]. intros [= <-]. reflexivity.
    + unfold Manager.add_group.
      repeat (destruct (decide _); [discriminate|]). cbv zeta.
      cbn [Manager.alloc bind]. intros [= <-]. reflexivity.
Qed.

Lemma loop_header (fuel : nat) :
  forall (m : Manager.t) (bytes : list byte) (m' : Manager.t),
    Reader.loop fuel m bytes = Some (Ok m') -> Manager.header m' = Manager.header m.
Proof.
  induction fuel as [|fuel IH]; intros m bytes m' Hl.
  - destruct bytes; [now injection Hl as <-|discriminate].
  - destruct bytes as [|b bytes]; [now injection Hl as <-|].
    cbn [Reader.loop] in Hl. rewrite step_read_apply in Hl.
    destruct (Directory.read_record (b :: bytes)) as [[[rec k]|]|e];
      cbn [bind] in Hl; [|now injection Hl as <-|discriminate].
    destruct (Directory.apply_record rec m) as [m1|e] eqn:Hrec;
      cbn [bind] in Hl; [|discriminate].
    rewrite (IH _ _ _ Hl). now apply apply_record_header in Hrec.
Qed.

(** X14: a [Reader] that has been constructed holds the header read from
    the first 512 bytes of the file and metadata that [check_metadata]
    accepts; its handle is the handle given, and the contents of the
    file are unchanged. *)
Theorem reader_constructed (fuel : nat) (h h' : handle) (r : Reader.t) :
  Reader.init fuel h = Some (Ok r, h') ->
  fst (Header.read h) = Ok (Manager.header (Reader.manager r)) /\
  (exists warnings, Manager.check_metadata (Reader.manager r) = Ok warnings) /\
  Reader._handle r = h' /\
  contents h' = contents h.
Proof.
  unfold Reader.init, Header.init.
  pose proof (header_read_contents h) as [Hc _].
  destruct (Header.read h) as [[hd|e] h1]; [|discriminate]. cbn [fst snd] in *.
  unfold Handle.seek. destruct (_ <? 0); [discriminate|].
  unfold Handle.read. cbn [contents position log].
  destruct (if 4 <? 0 then _ else _) as [|b0 [|b1 [|b2 [|b3 [|b4 l]]]]];
    try discriminate.
  destruct (negb _); [discriminate|].
  destruct (Reader.loop fuel (Manager.init hd) _) as [[m|e]|] eqn:Hloop;
    try discriminate.
  destruct (Manager.check_metadata m) as [ws|e] eqn:Hcheck; [|discriminate].
  intros [= <- <-]. cbn [Reader.manager Reader._handle contents].
  apply loop_header in Hloop. cbn [Manager.init Manager.header] in Hloop.
  split_and!; eauto. now rewrite Hloop.
Qed.

End Constructed.

Lemma reader_constructed_witness :
  exists r h',
    @Reader.init Ascii7.text 6 Example.point_file = Some (Ok r, h') /\
    fst (Header.read Example.point_file) = Ok (Manager.header (Reader.manager r)) /\
    (exists warnings,
       @Manager.check_metadata Ascii7.text (Reader.manager r) = Ok warnings) /\
    Reader._handle r = h' /\
    contents h' = contents Example.point_file.
Proof.
  destruct (@Reader.init Ascii7.text 6 Example.point_file) as [[[r|e] h']|] eqn:Hi;
    [|vm_compute in Hi; discriminate Hi..].
  exists r, h'. split; [reflexivity|].
  exact (@reader_constructed Ascii7.text 6 Example.point_file h' r Hi).
Defined.

(** ** Frames *)

Lemma fromfile_contents (d : dtype) (count : Z) (h : handle) :
  contents (snd (Np.fromfile d count h)) = contents h.
Proof. reflexivity. Qed.

Lemma reshape4_length (n : Z) (a : list float)
    (rows : list (float * float * float * float)) :
  Np.reshape4 n a = Ok rows -> Z.of_nat (length rows) = n.
Proof.
  unfold Np.reshape4. destruct (Np.rows4 a) as [rs|]; [|discriminate].
  destruct (Z.of_nat (length rs) =? n) eqn:E; [|discriminate].
  intros [= <-]. now apply Z.eqb_eq.
Qed.

Section Frames.
Context `{Text}.

Lemma read_frame_shape (c : Reader.config) (hd : Header.t) (no : Z)
    (prev : list float) (h : handle) (f : Reader.frame) (h' : handle) :
  Reader.read_frame c hd no prev h = Ok (f, h') ->
  Reader.frame_no f = no /\
  Z.of_nat (length (Reader.points f)) = Reader.ppf c /\
  contents h' = contents h.
Proof.
  unfold Reader.read_frame.
  destruct (Np.fromfile (Reader.point_dtype c) (4 * Header.point_count hd) h)
    as [raw h1] eqn:E1.
  assert (Hc1 : contents h1 = contents h)
    by (rewrite <- (fromfile_contents (Reader.point_dtype c)
                      (4 * Header.point_count hd) h), E1; reflexivity).
  intros (rows & Hrows%reshape4_length & Hf)%bind_ok.
  destruct (0 <? Header.analog_count hd).
  - destruct (Np.fromfile (Reader.analog_type c) (Header.analog_count hd) h1)
      as [raw2 h2] eqn:E2.
    assert (Hc2 : contents h2 = contents h1)
      by (rewrite <- (fromfile_contents (Reader.analog_type c)
                        (Header.analog_count hd) h1), E2; reflexivity).
    destruct (_ || _); [discriminate|].
    injection Hf as <- <-. cbn. rewrite length_fmap. split_and!; congruence.
  - injection Hf as <- <-. cbn. rewrite length_fmap. split_and!; congruence.
Qed.

Lemma read_loop_shape (c : Reader.config) (hd : Header.t) (nos : list Z) :
  forall (prev : list float) (h : handle) (fs : list Reader.frame) (h' : handle),
    Reader.read_loop c hd nos prev h = Ok (fs, h') ->
    Reader.frame_no <$> fs = nos /\
    Forall (fun f => Z.of_nat (length (Reader.points f)) = Reader.ppf c) fs /\
    contents h' = contents h.
Proof.
  induction nos as [|no nos IH]; intros prev h fs h' Hl.
  - injection Hl as <- <-. auto.
  - cbn [Reader.read_loop] in Hl.
    apply bind_ok in Hl as ([f h1] & Hf & Hl).
    apply bind_ok in Hl as ([fs1 h2] & Hrest & Hl).
    injection Hl as <- <-. cbn [fst snd].
    apply read_frame_shape in Hf as (Hno & Hpts & Hc1).
    apply IH in Hrest as (Hnos & Hall & Hc2).
    cbn [fmap list_fmap]. split_and!.
    + now f_equal.
    + now constructor.
    + congruence.
Qed.

Lemma configure_ppf (m : Manager.t) (c : Reader.config) :
  Reader.configure m = Ok c -> Manager.points_per_frame m = Ok (Reader.ppf c).
Proof.
  unfold Reader.configure.
  intros (ppf & Hppf & Hc)%bind_ok.
  repeat (apply bind_ok in Hc as (? & _ & Hc)).
  injection Hc as <-. exact Hppf.
Qed.

(** X15: when [read_frames] runs to its end, it has yielded one frame for
    each frame number from [first_frame()] to [last_frame()], in order
    (none when the last is before the first), each with exactly
    [POINT:USED] point rows, and it has not changed the file. *)
Theorem read_frames_shape (r : Reader.t) (fs : list Reader.frame) (h' : handle) :
  Reader.read_frames r = Ok (fs, h') ->
  exists first last ppf,
    Manager.first_frame (Reader.manager r) = Ok first /\
    Manager.last_frame (Reader.manager r) = Ok last /\
    Manager.points_per_frame (Reader.manager r) = Ok ppf /\
    Reader.frame_no <$> fs = seqZ first (last + 1 - first) /\
    Forall (fun f => Z.of_nat (length (Reader.points f)) = ppf) fs /\
    contents h' = contents (Reader._handle r).
Proof.
  unfold Reader.read_frames. cbv zeta.
  intros (c & Hc & Hr)%bind_ok.
  apply bind_ok in Hr as (h0 & Hseek & Hr).
  apply bind_ok in Hr as (first & Hfirst & Hr).
  apply bind_ok in Hr as (last & Hlast & Hr).
  apply read_loop_shape in Hr as (Hnos & Hall & Hcont).
  exists first, last, (Reader.ppf c). split_and!; try assumption.
  - now apply configure_ppf.
  - rewrite Hcont. unfold Handle.seek in Hseek.
    destruct (_ <? 0); [discriminate|]. injection Hseek as <-. reflexivity.
Qed.

End Frames.

Lemma read_frames_shape_witness :
  exists fs h',
    @Reader.read_frames Ascii7.text (Reader.mk Example.point_store Example.frame_file)
    = Ok (fs, h') /\
    exists first last ppf,
      @Manager.first_frame Ascii7.text Example.point_store = Ok first /\
      @Manager.last_frame Ascii7.text Example.point_store = Ok last /\
      @Manager.points_per_frame Ascii7.text Example.point_store = Ok ppf /\
      Reader.frame_no <$> fs = seqZ first (last + 1 - first) /\
      Forall (fun f => Z.of_nat (length (Reader.points f)) = ppf) fs /\
      contents h' = contents Example.frame_file.
Proof.
  destruct (@Reader.read_frames Ascii7.text
              (Reader.mk Example.point_store Example.frame_file))
    as [[fs h']|e] eqn:Hr; [|vm_compute in Hr; discriminate Hr].
  exists fs, h'. split; [reflexivity|].
  exact (@read_frames_shape Ascii7.text _ fs h' Hr).
Defined.

(** ** Looking up metadata *)

Lemma assert_ok (b : bool) (a : assertion) (u : unit) : assert b a = Ok u -> b = true.
Proof. destruct b; [reflexivity|discriminate]. Qed.

Lemma append_cons (a : ascii) (s t : string) : String a s +:+ t = String a (s +:+ t).
Proof. reflexivity. Qed.

Lemma append_empty_l (s : string) : EmptyString +:+ s = s.
Proof. reflexivity. Qed.

Lemma append_empty_r (s : string) : s +:+ EmptyString = s.
Proof. induction s as [|a s IH]; [reflexivity|]. now rewrite append_cons, IH. Qed.

Lemma split_once_app_none (c : ascii) (a b : string) :
  Manager.split_once c a = None ->
  Manager.split_once c (a +:+ b)
  = match Manager.split_once c b with
    | Some (l, r) => Some (a +:+ l, r)
    | None => None
    end.
Proof.
  induction a as [|x a IH].
  - intros _. rewrite append_empty_l.
    destruct (Manager.split_once c b) as [[l r]|]; reflexivity.
  - rewrite append_cons. cbn [Manager.split_once].
    destruct (decide (x = c)); [discriminate|].
    destruct (Manager.split_once c a) as [[l r]|] eqn:E; [discriminate|].
    intros _. rewrite IH by reflexivity.
    destruct (Manager.split_once c b) as [[l r]|]; reflexivity.
Qed.

Lemma param_read_name (p : Param.t) (buf : list byte) (q : Param.t) (rest : list byte)
    `{Text} :
  Param.read p buf = Ok (q, rest) -> Param.name q = Param.name p.
Proof.
  unfold Param.read.
  destruct (buf_read 1 buf) as [b0 buf0].
  intros (bpe & _ & Hr)%bind_ok.
  destruct (buf_read 1 buf0) as [b1 buf1].
  apply bind_ok in Hr as (dims & _ & Hr).
  apply bind_ok in Hr as ([dimensions buf2] & _ & Hr).
  cbv zeta in Hr.
  destruct (if Param.total_bytes _ =? 0 then _ else _) as [data buf3].
  destruct (buf_read 1 buf3) as [b2 buf4].
  apply bind_ok in Hr as (size & _ & Hr).
  destruct (if size =? 0 then _ else _) as [d buf5].
  apply bind_ok in Hr as (desc & _ & Hr).
  injection Hr as <- _. reflexivity.
Qed.

Lemma param_init_name (name : string) (kw : Param.kwargs) (p : Param.t)
    (o : option (list byte)) `{Text} :
  Param.init name kw = Ok (p, o) -> Param.name p = name.
Proof.
  unfold Param.init. destruct (Param.kw_other kw); [|discriminate].
  destruct (Param.kw_handle kw) as [buf|].
  - intros ([q rest] & Hq & Hr)%bind_ok. injection Hr as <- _.
    cbn [fst]. now apply param_read_name in Hq.
  - intros [= <- _]. reflexivity.
Qed.

Section Lookup.
Context `{Text}.

Lemma get_added (m m1 m2 : Manager.t) (group_id : Z) (r : nat)
    (gname desc pname key : string) (kw : Param.kwargs) :
  Manager.add_group group_id gname desc m = (Ok r, m1) ->
  Writer.add_param r pname kw m1 = Ok m2 ->
  Manager.split_once "." (str_upper gname) = None ->
  Manager.split_once ":" (str_upper gname) = None ->
  Manager.split_once "." (str_upper pname) = None ->
  str_upper key = str_upper gname +:+ ":" +:+ str_upper pname \/
  str_upper key = str_upper gname +:+ "." +:+ str_upper pname ->
  exists p o,
    Param.init (str_upper pname) kw = Ok (p, o) /\
    Manager.get key m2 = Manager.FParam p /\
    Manager.get_int group_id m2 = Manager.FGroup r.
Proof.
  intros Hadd Hparam Hgd Hgc Hpd Hkey.
  unfold Manager.add_group in Hadd.
  destruct (decide (is_Some (Manager.groups m !! KInt group_id))); [discriminate|].
  cbv zeta in Hadd.
  destruct (decide (is_Some (Manager.groups m !! KStr (str_upper gname))));
    [discriminate|].
  cbn [Manager.alloc] in Hadd. injection Hadd as <- <-.
  unfold Writer.add_param, Manager.deref in Hparam.
  unfold Manager.set_key in Hparam. cbn [Manager.heap Manager.groups] in Hparam.
  rewrite list_lookup_middle in Hparam by reflexivity. cbn [bind] in Hparam.
  apply bind_ok in Hparam as (g' & Hg' & Hm2).
  unfold Group.add_param in Hg'.
  apply bind_ok in Hg' as ([p o] & Hinit & Hg').
  injection Hg' as <-. injection Hm2 as <-.
  exists p, o. split; [exact Hinit|]. split.
  - unfold Manager.get. cbv zeta.
    assert (Hsplit :
      (let '(group, param) :=
         match Manager.split_once "." (str_upper key) with
         | Some (g, p) => (g, Some p)
         | None => (str_upper key, None)
         end in
       match Manager.split_once ":" group with
       | Some (g, p) => (g, Some p)
       | None => (group, param)
       end) = (str_upper gname, Some (str_upper pname))).
    { destruct Hkey as [-> | ->].
      - rewrite (split_once_app_none "." _ _ Hgd).
        rewrite ?append_cons, ?append_empty_l. cbn [Manager.split_once].
        destruct (decide (":"%char = "."%char)); [discriminate|].
        rewrite Hpd.
        rewrite (split_once_app_none ":" _ _ Hgc).
        rewrite ?append_cons, ?append_empty_l. cbn [Manager.split_once].
        destruct (decide (":"%char = ":"%char)); [|congruence].
        now rewrite append_empty_r.
      - rewrite (split_once_app_none "." _ _ Hgd).
        rewrite ?append_cons, ?append_empty_l. cbn [Manager.split_once].
        destruct (decide ("."%char = "."%char)); [|congruence].
        rewrite append_empty_r, Hgc. reflexivity. }
    destruct (match Manager.split_once "." (str_upper key) with
              | Some (g, p) => (g, Some p)
              | None => (str_upper key, None)
              end) as [group param].
    cbv beta iota in Hsplit.
    destruct (match Manager.split_once ":" group with
              | Some (g, p) => (g, Some p)
              | None => (group, param)
              end) as [group' param'].
    injection Hsplit as -> ->.
    unfold Manager.update. cbn [Manager.groups Manager.heap].
    rewrite lookup_insert_ne by discriminate. rewrite lookup_insert_eq.
    rewrite list_lookup_alter_eq, list_lookup_middle by reflexivity.
    cbn [fmap option_fmap option_map]. unfold Group.get. cbn [Group.params].
    now rewrite lookup_insert_eq.
  - unfold Manager.get_int, Manager.update. cbn [Manager.groups].
    now rewrite lookup_insert_eq.
Qed.


(** X16: a parameter added to a new group is found by [Manager.get] under
    the upper-cased names joined by a colon or by a dot, when the group
    name contains neither separator and the parameter name contains no
    dot: [add_group], then [add_param] on the group returned, then [get]
    gives the parameter made by [add_param], whose name is the
    upper-cased name. *)
Theorem get_after_add (m m1 m2 : Manager.t) (group_id : Z) (r : nat)
    (gname desc pname key : string) (kw : Param.kwargs) :
  Manager.add_group group_id gname desc m = (Ok r, m1) ->
  Writer.add_param r pname kw m1 = Ok m2 ->
  Manager.split_once "." (str_upper gname) = None ->
  Manager.split_once ":" (str_upper gname) = None ->
  Manager.split_once "." (str_upper pname) = None ->
  str_upper key = str_upper gname +:+ ":" +:+ str_upper pname \/
  str_upper key = str_upper gname +:+ "." +:+ str_upper pname ->
  exists p,
    Manager.get key m2 = Manager.FParam p /\
    Param.name p = str_upper pname /\
    Manager.get_int group_id m2 = Manager.FGroup r.
Proof.
  intros Hadd Hparam Hgd Hgc Hpd Hkey.
  destruct (get_added _ _ _ _ _ _ _ _ _ _ Hadd Hparam Hgd Hgc Hpd Hkey)
    as (p & o & Hinit & Hget & Hint).
  exists p. split; [exact Hget|]. split; [|exact Hint].
  now apply param_init_name in Hinit.
Qed.

(** X17: a value stored with [add_param(name, bytes=struct.pack(...))] is
    what the typed accessors of the manager return for the key of the
    parameter: the 16-bit value itself for [get_uint16], and the number
    rounded to binary32 for [get_float]. *)
Theorem get_value_after_add (m m1 m2 : Manager.t) (group_id : Z) (r : nat)
    (gname desc pname key : string) (kw : Param.kwargs) (bs : list byte) :
  Manager.add_group group_id gname desc m = (Ok r, m1) ->
  Writer.add_param r pname kw m1 = Ok m2 ->
  Manager.split_once "." (str_upper gname) = None ->
  Manager.split_once ":" (str_upper gname) = None ->
  Manager.split_once "." (str_upper pname) = None ->
  str_upper key = str_upper gname +:+ ":" +:+ str_upper pname \/
  str_upper key = str_upper gname +:+ "." +:+ str_upper pname ->
  Param.kw_handle kw = None ->
  Param.kw_bytes kw = Some bs ->
  (forall v, Struct.pack_H v = Ok bs -> Manager.get_uint16 key m2 = Ok v) /\
  (forall x, Struct.pack_f x = Ok bs ->
     Manager.get_float key m2 = Ok (float32_of_bits (float32_bits x))).
Proof.
  intros Hadd Hparam Hgd Hgc Hpd Hkey Hh Hb.
  destruct (get_added _ _ _ _ _ _ _ _ _ _ Hadd Hparam Hgd Hgc Hpd Hkey)
    as (p & o & Hinit & Hget & _).
  assert (Hbytes : Param.bytes p = bs).
  { unfold Param.init in Hinit. destruct (Param.kw_other kw); [|discriminate].
    rewrite Hh, Hb in Hinit. injection Hinit as <- _. reflexivity. }
  unfold Manager.get_uint16, Manager.get_float, Manager.get_param.
  rewrite Hget. cbn [bind].
  unfold Param.uint16_value, Param.float_value. rewrite Hbytes. split.
  - intros v [Hv ->]%pack_uint_inv.
    unfold Struct.unpack_H, Struct.unpack_uint. rewrite length_le_bytes.
    destruct (decide (2%nat = 2%nat)); [|congruence].
    f_equal. apply le_uint_le_bytes_small.
    change (256 ^ Z.of_nat 2) with 65536.
    change (2 ^ (8 * Z.of_nat 2)) with 65536 in Hv. exact Hv.
  - intros x ->%pack_f_inv.
    unfold Struct.unpack_f, Struct.unpack_uint. rewrite length_le_bytes.
    destruct (decide (4%nat = 4%nat)); [|congruence].
    cbn [bind]. do 2 f_equal. apply le_uint_le_bytes_small.
    change (256 ^ Z.of_nat 4) with (2 ^ 32). apply float32_bits_range.
Qed.

(** X18: in a store where no group is stored under a name, every string
    key gives the default; the accessors with a fallback then answer 0
    analog samples per frame, the analog rate 0 and the first and last
    frame of the header, while [points_per_frame] raises. *)
Theorem get_without_groups (m : Manager.t) :
  (forall name, Manager.groups m !! KStr name = None) ->
  (forall key, Manager.get key m = Manager.FDefault) /\
  Manager.analog_per_frame m = Ok 0 /\
  Manager.analog_frame_rate m = Ok (Float.of_Z 0) /\
  Manager.first_frame m = Ok (Header.first_frame (Manager.header m)) /\
  Manager.last_frame m = Ok (Header.last_frame (Manager.header m)) /\
  Manager.points_per_frame m = Raise AttributeError.
Proof.
  intros Hnone.
  assert (Hget : forall key, Manager.get key m = Manager.FDefault).
  { intros key. unfold Manager.get. cbv zeta.
    destruct (match Manager.split_once "." (str_upper key) with
              | Some (g, p) => (g, Some p)
              | None => (str_upper key, None)
              end) as [group param].
    destruct (match Manager.split_once ":" group with
              | Some (g, p) => (g, Some p)
              | None => (group, param)
              end) as [group' param'].
    now rewrite Hnone. }
  split; [exact Hget|].
  unfold Manager.analog_per_frame, Manager.analog_frame_rate, Manager.first_frame,
    Manager.last_frame, Manager.points_per_frame, Manager.get_uint16,
    Manager.get_float, Manager.get_param.
  rewrite !Hget. cbn [bind]. auto 10.
Qed.

(** X19: when [check_metadata] returns, the header agrees with the POINT
    group on the number of points, the scale factor, the frame rate and
    the first data block, and the warnings issued are for exactly those
    of the five expected parameters that [get] does not find. *)
Theorem check_metadata_sound (m : Manager.t) (warnings : list string) :
  Manager.check_metadata m = Ok warnings ->
  Manager.points_per_frame m = Ok (Header.point_count (Manager.header m)) /\
  (exists sf, Manager.scale_factor m = Ok sf /\
              Float.eqb (Header.scale_factor (Manager.header m)) sf = true) /\
  (exists fr, Manager.frame_rate m = Ok fr /\
              Float.eqb (Header.frame_rate (Manager.header m)) fr = true) /\
  Manager.get_uint16 "POINT:DATA_START" m = Ok (Header.data_block (Manager.header m)) /\
  (forall name, name ∈ warnings <->
     name ∈ Manager.expected_params /\ Manager.get name m = Manager.FDefault).
Proof.
  unfold Manager.check_metadata. cbv zeta.
  intros (ppf & Hppf & Hc)%bind_ok.
  apply bind_ok in Hc as (u1 & H1%assert_ok & Hc).
  apply bind_ok in Hc as (sf & Hsf & Hc).
  apply bind_ok in Hc as (u2 & H2%assert_ok & Hc).
  apply bind_ok in Hc as (fr & Hfr & Hc).
  apply bind_ok in Hc as (u3 & H3%assert_ok & Hc).
  apply bind_ok in Hc as (used & Hused & Hc).
  apply bind_ok in Hc as (afr & Hafr & Hc).
  apply bind_ok in Hc as (fr' & Hfr' & Hc).
  apply bind_ok in Hc as (apf & Hapf & Hc).
  apply bind_ok in Hc as (u4 & H4%assert_ok & Hc).
  apply bind_ok in Hc as (start & Hstart & Hc).
  apply bind_ok in Hc as (u5 & H5%assert_ok & Hc).
  injection Hc as <-.
  apply Z.eqb_eq in H1, H5. subst ppf start.
  split_and!; eauto.
  intros name. rewrite list_elem_of_filter.
  split; intros [Ha Hb]; split; try assumption.
  - destruct (Manager.get name m); cbn in Ha; congruence.
  - now rewrite Hb.
Qed.

End Lookup.

Lemma get_after_add_witness :
  let m1 := snd (@Manager.add_group Ascii7.text 1 "point" "d" Example.empty_store) in
  exists m2 p,
    @Writer.add_param Ascii7.text 0 "used" (Example.param_kw 2 [] (Example.u16 2)) m1
    = Ok m2 /\
    @Manager.get Ascii7.text "Point.Used" m2 = Manager.FParam p /\
    Param.name p = "USED"%string /\
    Manager.get_int 1 m2 = Manager.FGroup 0.
Proof.
  cbv zeta.
  destruct (@Writer.add_param Ascii7.text 0 "used"
              (Example.param_kw 2 [] (Example.u16 2))
              (snd (@Manager.add_group Ascii7.text 1 "point" "d" Example.empty_store)))
    as [m2|e] eqn:Hp; [|vm_compute in Hp; discriminate Hp].
  exists m2.
  assert (Hg : @Manager.add_group Ascii7.text 1 "point" "d" Example.empty_store
               = (Ok 0%nat,
                  snd (@Manager.add_group Ascii7.text 1 "point" "d" Example.empty_store)))
    by (vm_compute; reflexivity).
  assert (Hgd : Manager.split_once "." (@str_upper Ascii7.text "point") = None)
    by (vm_compute; reflexivity).
  assert (Hgc : Manager.split_once ":" (@str_upper Ascii7.text "point") = None)
    by (vm_compute; reflexivity).
  assert (Hpd : Manager.split_once "." (@str_upper Ascii7.text "used") = None)
    by (vm_compute; reflexivity).
  assert (Hkey : @str_upper Ascii7.text "Point.Used"
                 = @str_upper Ascii7.text "point" +:+ "." +:+ @str_upper Ascii7.text "used")
    by (vm_compute; reflexivity).
  destruct (@get_after_add Ascii7.text Example.empty_store _ m2 1 0%nat
              "point" "d" "used" "Point.Used" _ Hg Hp Hgd Hgc Hpd (or_intror Hkey))
    as (p & Hget & Hname & Hint).
  exists p. split; [reflexivity|]. split; [exact Hget|]. split; [exact Hname|].
  exact Hint.
Defined.

Lemma get_without_groups_witness :
  (forall key, @Manager.get Ascii7.text key Example.empty_store = Manager.FDefault) /\
  @Manager.analog_per_frame Ascii7.text Example.empty_store = Ok 0 /\
  @Manager.analog_frame_rate Ascii7.text Example.empty_store = Ok (Float.of_Z 0) /\
  @Manager.first_frame Ascii7.text Example.empty_store = Ok 1 /\
  @Manager.last_frame Ascii7.text Example.empty_store = Ok 1 /\
  @Manager.points_per_frame Ascii7.text Example.empty_store = Raise AttributeError.
Proof.
  exact (@get_without_groups Ascii7.text Example.empty_store
           (fun name => lookup_empty (KStr name))).
Defined.

Lemma check_metadata_sound_witness :
  exists warnings,
    @Manager.check_metadata Ascii7.text Example.point_store = Ok warnings /\
    @Manager.points_per_frame Ascii7.text Example.point_store = Ok 1 /\
    @Manager.get_uint16 Ascii7.text "POINT:DATA_START" Example.point_store = Ok 3 /\
    (forall name, name ∈ warnings <->
       name ∈ Manager.expected_params /\
       @Manager.get Ascii7.text name Example.point_store = Manager.FDefault).
Proof.
  destruct (@Manager.check_metadata Ascii7.text Example.point_store)
    as [warnings|e] eqn:Hc; [|vm_compute in Hc; discriminate Hc].
  exists warnings. split; [reflexivity|].
  destruct (@check_metadata_sound Ascii7.text Example.point_store warnings Hc)
    as (Hppf & _ & _ & Hstart & Hws).
  split; [exact Hppf|]. split; [exact Hstart|]. exact Hws.
Defined.

Lemma get_value_after_add_witness :
  let m1 := snd (@Manager.add_group Ascii7.text 1 "point" "d" Example.empty_store) in
  exists m2,
    @Writer.add_param Ascii7.text 0 "used" (Example.param_kw 2 [] (Example.u16 2)) m1
    = Ok m2 /\
    @Manager.get_uint16 Ascii7.text "point:used" m2 = Ok 2.
Proof.
  cbv zeta.
  destruct (@Writer.add_param Ascii7.text 0 "used"
              (Example.param_kw 2 [] (Example.u16 2))
              (snd (@Manager.add_group Ascii7.text 1 "point" "d" Example.empty_store)))
    as [m2|e] eqn:Hp; [|vm_compute in Hp; discriminate Hp].
  exists m2. split; [reflexivity|].
  assert (Hg : @Manager.add_group Ascii7.text 1 "point" "d" Example.empty_store
               = (Ok 0%nat,
                  snd (@Manager.add_group Ascii7.text 1 "point" "d" Example.empty_store)))
    by (vm_compute; reflexivity).
  assert (Hgd : Manager.split_once "." (@str_upper Ascii7.text "point") = None)
    by (vm_compute; reflexivity).
  assert (Hgc : Manager.split_once ":" (@str_upper Ascii7.text "point") = None)
    by (vm_compute; reflexivity).
  assert (Hpd : Manager.split_once "." (@str_upper Ascii7.text "used") = None)
    by (vm_compute; reflexivity).
  assert (Hkey : @str_upper Ascii7.text "point:used"
                 = @str_upper Ascii7.text "point" +:+ ":" +:+ @str_upper Ascii7.text "used")
    by (vm_compute; reflexivity).
  assert (Hpack : Struct.pack_H 2 = Ok (Example.u16 2)) by (vm_compute; reflexivity).
  exact (proj1 (@get_value_after_add Ascii7.text Example.empty_store _ m2 1 0%nat
                  "point" "d" "used" "point:used" _ (Example.u16 2)
                  Hg Hp Hgd Hgc Hpd (or_introl Hkey) eq_refl eq_refl) 2 Hpack).
Defined.

(** ** Arrays of byte strings *)

Lemma slice_inside (a b : Z) (bs : list byte) :
  0 <= a <= b -> b <= Z.of_nat (length bs) ->
  slice a b bs = take (Z.to_nat (b - a)) (drop (Z.to_nat a) bs).
Proof.
  intros Hab Hb. unfold slice, slice_index. cbv zeta.
  replace (a <? 0) with false by (symmetry; apply Z.ltb_ge; lia).
  replace (b <? 0) with false by (symmetry; apply Z.ltb_ge; lia).
  rewrite !Z.min_l by lia. reflexivity.
Qed.

Lemma chunks_concat (l : Z) (bs : list byte) (k : nat) :
  0 <= l -> Z.of_nat k * l <= Z.of_nat (length bs) ->
  concat ((fun i => slice (i * l) ((i + 1) * l) bs) <$> seqZ 0 (Z.of_nat k))
  = take (Z.to_nat (Z.of_nat k * l)) bs.
Proof.
  intros Hl. induction k as [|k IH]; intros Hk; [reflexivity|].
  rewrite seqZ_S, fmap_app, concat_app, IH by nia.
  cbn [fmap list_fmap concat]. rewrite app_nil_r, Z.add_0_l.
  rewrite slice_inside by nia.
  replace (Z.to_nat ((Z.of_nat k + 1) * l - Z.of_nat k * l)) with (Z.to_nat l) by nia.
  rewrite take_take_drop. f_equal. nia.
Qed.

(** X20: for a parameter of dimensions [[l, n]] whose [bytes] hold
    [l * n] bytes, [bytes_array] is the list of the [n] consecutive
    pieces of [l] bytes of [bytes]: there are [n] of them, each of
    length [l], and put end to end they give [bytes] back. *)
Theorem bytes_array_chunks (p : Param.t) (l n : Z) :
  Param.dimensions p = [l; n] ->
  0 <= l -> 0 <= n ->
  Z.of_nat (length (Param.bytes p)) = l * n ->
  exists chunks,
    Param.bytes_array p = Ok chunks /\
    Z.of_nat (length chunks) = n /\
    Forall (fun c => Z.of_nat (length c) = l) chunks /\
    concat chunks = Param.bytes p.
Proof.
  intros Hdims Hl Hn Hlen. unfold Param.bytes_array. rewrite Hdims.
  eexists. split; [reflexivity|]. split_and!.
  - rewrite length_fmap, length_seqZ. lia.
  - apply Forall_fmap, Forall_seqZ. intros i Hi. cbn.
    rewrite slice_inside by nia.
    rewrite length_take, length_drop. nia.
  - rewrite <- (Z2Nat.id n) by exact Hn.
    rewrite chunks_concat by (rewrite ?Z2Nat.id; lia).
    rewrite Z2Nat.id by exact Hn. apply take_ge. lia.
Qed.

Lemma bytes_array_chunks_witness :
  exists chunks,
    Param.bytes_array Example.labels_param = Ok chunks /\
    Z.of_nat (length chunks) = 3 /\
    Forall (fun c => Z.of_nat (length c) = 2) chunks /\
    concat chunks = Param.bytes Example.labels_param.
Proof.
  exact (bytes_array_chunks Example.labels_param 2 3 eq_refl
           ltac:(lia) ltac:(lia) ltac:(vm_compute; reflexivity)).
Defined.

(** ** What [Writer] leaves undone *)

Lemma pack_fourth_nonneg (scale : float) (p : Reader.point) :
  0 <= Writer.pack_fourth scale p.
Proof.
  unfold Writer.pack_fourth. apply Z.lor_nonneg. split.
  - apply Z.mod_pos_bound. lia.
  - apply astype_uint16_range.
Qed.

Lemma Qltb_neg1_nonneg (z : Z) : 0 <= z -> Float.Qltb (inject_Z (-1)) (inject_Z z) = true.
Proof.
  intros Hz. unfold Float.Qltb.
  destruct (Qlt_le_dec (inject_Z (-1)) (inject_Z z)) as [|Hle]; [reflexivity|].
  rewrite <- Zle_Qle in Hle. lia.
Qed.

(** X21: the row that [_write_frames] makes for a point is marked valid
    (fourth value above -1) exactly when the point is; for an invalid
    point it keeps the three coordinates that the row held before, and
    the point is read back with -1 in its last two columns. *)
Theorem encode_point_validity (psf scale s ps : float)
    (old : float * float * float * float) (p : Reader.point) :
  let raw := Writer.encode_point psf scale old p in
  Float.ltb (Float.of_Z (-1)) raw.2
  = Float.ltb (Float.of_Z (-1)) (Reader.perr p) /\
  (Float.ltb (Float.of_Z (-1)) (Reader.perr p) = false ->
   raw = (old.1.1.1, old.1.1.2, old.1.2, Float.of_Z (-1)) /\
   Reader.perr (Reader.decode_point s ps raw) = Float.of_Z (-1) /\
   Reader.pcam (Reader.decode_point s ps raw) = Float.of_Z (-1)).
Proof.
  cbv zeta. unfold Writer.encode_point.
  destruct (Float.ltb (Float.of_Z (-1)) (Reader.perr p)) eqn:Hv.
  - split; [|discriminate]. cbn [snd]. unfold Float.ltb, Float.of_Z.
    apply Qltb_neg1_nonneg, pack_fourth_nonneg.
  - split; [reflexivity|]. intros _. split; [reflexivity|].
    split; reflexivity.
Qed.

Section Undone.
Context `{Text}.

(** X22: [Writer.write] never writes: with no frame it returns at once,
    and with frames it raises while it builds the groups, before the
    first byte is written; the handle is as it was in both cases. *)
Theorem write_writes_nothing (w : Writer.t)
    (uninit : nat -> float * float * float * float) (h : handle) :
  snd (Writer.write w uninit h) = h /\
  (fst (Writer.write w uninit h) = Ok tt <-> Writer._frames w = []).
Proof.
  unfold Writer.write.
  destruct (Writer._frames w) as [|[points analog] frames].
  - split; [reflexivity|]. split; reflexivity.
  - destruct (build_raises w points analog) as (e & ->).
    split; [reflexivity|]. split; discriminate.
Qed.

(** X23: [_write_metadata] and [_write_frames] never return normally.
    [_write_metadata] raises in [check_metadata], before it writes
    anything: [Writer.__init__] hides the method [analog_frame_rate]
    behind a number, and calling it raises [TypeError], also when the
    metadata is consistent.  [_write_frames] ends in [_pad_block], which
    reads an attribute that no method assigns. *)
Theorem sections_never_complete (w : Writer.t)
    (uninit : nat -> float * float * float * float) (h : handle) :
  (exists e, Writer._write_metadata w h = (Raise e, h)) /\
  (exists e h', Writer._write_frames w uninit h = (Raise e, h')) /\
  (forall warnings,
     Manager.check_metadata (Writer.manager w) = Ok warnings ->
     Writer._write_metadata w h = (Raise TypeError, h)).
Proof.
  assert (Hcheck : exists e, Writer.check_metadata w = Raise e).
  { unfold Writer.check_metadata. cbv zeta.
    repeat match goal with
    | |- exists e, (_ <- ?r;; _) = Raise e =>
        destruct r as [?|e0]; [cbn [bind]|now exists e0]
    end.
    now exists TypeError. }
  split; [|split].
  - unfold Writer._write_metadata. destruct Hcheck as [e ->]. now exists e.
  - unfold Writer._write_frames. cbv zeta.
    destruct (assert _ _) as [u|e]; [|now exists e, h].
    destruct (_ <- _;; _) as [[sf ppf]|e]; [|now exists e, h].
    destruct (Writer.write_loop _ _ _ _ _ _) as [[u'|e] h1]; [|now exists e, h1].
    now exists AttributeError, h1.
  - intros warnings Hc. unfold Writer._write_metadata, Writer.check_metadata.
    cbv zeta. unfold Manager.check_metadata in Hc. cbv zeta in Hc.
    apply bind_ok in Hc as (ppf & -> & Hc). cbn [bind].
    apply bind_ok in Hc as (u1 & -> & Hc). cbn [bind].
    apply bind_ok in Hc as (sf & -> & Hc). cbn [bind].
    apply bind_ok in Hc as (u2 & -> & Hc). cbn [bind].
    apply bind_ok in Hc as (fr & -> & Hc). cbn [bind].
    apply bind_ok in Hc as (u3 & -> & Hc). cbn [bind].
    apply bind_ok in Hc as (used & -> & Hc). reflexivity.
Qed.

End Undone.
